(** * Framely: crawl frontier, scheduler and report merger

    A shallow embedding of the Go sources

      - [src/utils/url.go]        (URL normaliser and validator),
      - [src/models/models.go]    (the crawl session, i.e. the frontier),
      - [src/services/app.go]     (sequential and parallel scheduler),
      - [src/services/report.go]  (report merge and aggregates),
      - [src/main.go]             (the configuration read at the prompts),
      - the link filter of [BrowserService.ExtractLinks] and the
        defaults of [config],

    together with the fragment of Go's standard packages [strings] and
    [net/url] that [NormalizeURL] is written against.

    Go strings are byte sequences; they are modelled by [string], whose
    characters are the 8-bit [ascii] values.  Go's [int] and [int64] are
    modelled by [Z]; where the source accumulates [int64] values the
    two's-complement wrap-around is written out ([wrap64]). *)

From Stdlib Require Import ZArith NArith Ascii String List Bool Lia.
From stdpp Require Import base option list strings gmap.

Local Open Scope string_scope.
Local Open Scope list_scope.
Local Open Scope stdpp_scope.

(* ================================================================== *)
(** ** Bytes *)
(* ================================================================== *)

Module GoBytes.

Definition code (c : ascii) : N := N_of_ascii c.

(** [lo <= c && c <= hi] on bytes. *)
Definition between (lo hi c : ascii) : bool :=
  (code lo <=? code c)%N && (code c <=? code hi)%N.

Definition eqb (a b : ascii) : bool := Ascii.eqb a b.

Definition isLower (c : ascii) : bool := between "a" "z" c.
Definition isUpper (c : ascii) : bool := between "A" "Z" c.
Definition isDigit (c : ascii) : bool := between "0" "9" c.
Definition isAlpha (c : ascii) : bool := isLower c || isUpper c.
Definition isAlnum (c : ascii) : bool := isAlpha c || isDigit c.

(** Membership of a byte in a literal set of bytes, as a Go
    [switch c { case 'x', 'y', ...: }] tests it. *)
Fixpoint oneOf (set : string) (c : ascii) : bool :=
  match set with
  | EmptyString => false
  | String d set' => eqb c d || oneOf set' c
  end.

(** ASCII lower-casing of one byte. *)
Definition lower (c : ascii) : ascii :=
  if isUpper c then ascii_of_N (code c + 32) else c.

End GoBytes.

(* ================================================================== *)
(** ** Package [strings] *)
(* ================================================================== *)

Module GoStrings.
Import GoBytes.

Definition len (s : string) : nat := String.length s.

(** [s[:n]] and [s[n:]]; the callers below only slice within bounds. *)
Fixpoint take (n : nat) (s : string) : string :=
  match n, s with
  | S n', String c s' => String c (take n' s')
  | _, _ => EmptyString
  end.

Fixpoint drop (n : nat) (s : string) : string :=
  match n, s with
  | S n', String _ s' => drop n' s'
  | _, _ => s
  end.

Fixpoint HasPrefix (s prefix : string) {struct prefix} : bool :=
  match prefix, s with
  | EmptyString, _ => true
  | String p prefix', String c s' => eqb c p && HasPrefix s' prefix'
  | String _ _, EmptyString => false
  end.

Fixpoint HasSuffix (s suffix : string) : bool :=
  String.eqb s suffix ||
  match s with
  | EmptyString => false
  | String _ s' => HasSuffix s' suffix
  end.

Definition TrimSuffix (s suffix : string) : string :=
  if HasSuffix s suffix then take (len s - len suffix) s else s.

(** Index of the first occurrence of [sep], [None] for Go's [-1]. *)
Fixpoint Index (s sep : string) : option nat :=
  if HasPrefix s sep then Some 0%nat
  else match s with
       | EmptyString => None
       | String _ s' => S <$> Index s' sep
       end.

(** Index of the last occurrence of [sep]. *)
Fixpoint LastIndex (s sep : string) : option nat :=
  match s with
  | EmptyString => if HasPrefix s sep then Some 0%nat else None
  | String _ s' =>
      match LastIndex s' sep with
      | Some i => Some (S i)
      | None => if HasPrefix s sep then Some 0%nat else None
      end
  end.

Definition Contains (s substr : string) : bool :=
  match Index s substr with Some _ => true | None => false end.

(** [before, after, found := strings.Cut(s, sep)]. *)
Definition Cut (s sep : string) : string * string * bool :=
  match Index s sep with
  | Some i => (take i s, drop (i + len sep) s, true)
  | None => (s, EmptyString, false)
  end.

(** [strings.Count(s, sep)] for a one-byte separator: the number of
    occurrences of that byte. *)
Fixpoint CountByte (s : string) (c : ascii) : nat :=
  match s with
  | EmptyString => 0
  | String d s' => (if eqb d c then 1 else 0) + CountByte s' c
  end.

(** [strings.ToLower] restricted to ASCII letters.  It is applied below
    only to a parsed scheme, which consists of ASCII bytes. *)
Fixpoint ToLowerASCII (s : string) : string :=
  match s with
  | EmptyString => EmptyString
  | String c s' => String (lower c) (ToLowerASCII s')
  end.

Fixpoint all (p : ascii → bool) (s : string) : bool :=
  match s with
  | EmptyString => true
  | String c s' => p c && all p s'
  end.

Definition isEmpty (s : string) : bool :=
  match s with EmptyString => true | _ => false end.

(** [strings.ReplaceAll(s, old, new)] for a one-byte [old], which is
    what every call below passes. *)
Fixpoint ReplaceAll (s : string) (old : ascii) (new : string) : string :=
  match s with
  | EmptyString => EmptyString
  | String c s' =>
      (if eqb c old then new else String c EmptyString)
      +:+ ReplaceAll s' old new
  end.

(** [strings.Trim(s, cutset)] for a cutset of one ASCII byte:
    [trimLeftByte(trimRightByte(s, c), c)]. *)
Fixpoint trimLeftByte (s : string) (c : ascii) : string :=
  match s with
  | EmptyString => EmptyString
  | String d s' => if eqb d c then trimLeftByte s' c else s
  end.

Fixpoint trimRightByte (s : string) (c : ascii) : string :=
  match s with
  | EmptyString => EmptyString
  | String d s' =>
      match trimRightByte s' c with
      | EmptyString => if eqb d c then EmptyString else String d EmptyString
      | t => String d t
      end
  end.

Definition Trim (s : string) (c : ascii) : string :=
  trimLeftByte (trimRightByte s c) c.

(** [strings.Split(s, sep)] for a one-byte separator: the pieces
    between the separators, one piece for a string without any. *)
Fixpoint Split (s : string) (sep : ascii) : list string :=
  match s with
  | EmptyString => [EmptyString]
  | String c s' =>
      if eqb c sep then EmptyString :: Split s' sep
      else match Split s' sep with
           | x :: r => String c x :: r
           | [] => [String c EmptyString]
           end
  end.

End GoStrings.

(* ================================================================== *)
(** ** Package [unicode/utf8]: the width of a rune *)
(* ================================================================== *)

(** [regexp] walks a string rune by rune with
    [utf8.DecodeRuneInString]; what matters below is how many bytes a
    step takes.  A byte that starts no well-formed sequence is a rune
    of its own (the error rune, width 1). *)

Module GoUTF8.
Import GoBytes GoStrings.

Definition inRange (lo hi : N) (c : ascii) : bool :=
  (lo <=? code c)%N && (code c <=? hi)%N.

(** The tables [first] and [acceptRanges]: for a leading byte, the
    length of the sequence and the range its second byte must lie in;
    [None] for an ASCII byte and for a byte that cannot lead. *)
Definition first (s0 : ascii) : option (nat * N * N) :=
  let b := code s0 in
  if (b <? 194)%N then None                      (* 0x00-0x7F, 0x80-0xC1 *)
  else if (b <=? 223)%N then Some (2%nat, 128%N, 191%N)   (* 0xC2-0xDF *)
  else if (b =? 224)%N then Some (3%nat, 160%N, 191%N)    (* 0xE0 *)
  else if (b <=? 236)%N then Some (3%nat, 128%N, 191%N)   (* 0xE1-0xEC *)
  else if (b =? 237)%N then Some (3%nat, 128%N, 159%N)    (* 0xED *)
  else if (b <=? 239)%N then Some (3%nat, 128%N, 191%N)   (* 0xEE-0xEF *)
  else if (b =? 240)%N then Some (4%nat, 144%N, 191%N)    (* 0xF0 *)
  else if (b <=? 243)%N then Some (4%nat, 128%N, 191%N)   (* 0xF1-0xF3 *)
  else if (b =? 244)%N then Some (4%nat, 128%N, 143%N)    (* 0xF4 *)
  else None.                                     (* 0xF5-0xFF *)

(** A continuation byte, [locb <= c && c <= hicb]. *)
Definition isCont (c : ascii) : bool := inRange 128 191 c.

(** The size [DecodeRuneInString(s)] returns. *)
Definition runeWidth (s : string) : nat :=
  match s with
  | EmptyString => 0
  | String s0 rest =>
      match first s0 with
      | None => 1
      | Some (sz, lo, hi) =>
          if (len s <? sz)%nat then 1
          else match rest with
               | String s1 rest1 =>
                   if negb (inRange lo hi s1) then 1
                   else if (sz <=? 2)%nat then 2
                   else match rest1 with
                        | String s2 rest2 =>
                            if negb (isCont s2) then 1
                            else if (sz <=? 3)%nat then 3
                            else match rest2 with
                                 | String s3 _ =>
                                     if negb (isCont s3) then 1 else 4
                                 | EmptyString => 1
                                 end
                        | EmptyString => 1
                        end
               | EmptyString => 1
               end
      end
  end.

End GoUTF8.

(* ================================================================== *)
(** ** Package [net/url]: [Parse] and [URL.String] *)
(* ================================================================== *)

(** The part of Go's [net/url] that [url.Parse] and [URL.String]
    run through (Go 1.19 to 1.22: [OmitHost] is present).  A parse
    error is [None]; the error values themselves are never inspected by
    the callers. *)

Module GoURL.
Import GoBytes GoStrings.

Inductive encoding : Type :=
  | encodePath
  | encodePathSegment
  | encodeHost
  | encodeZone
  | encodeUserPassword
  | encodeQueryComponent
  | encodeFragment.

Definition isHostMode (m : encoding) : bool :=
  match m with encodeHost | encodeZone => true | _ => false end.

Record Userinfo : Type := mkUserinfo {
  username : string;
  password : string;
  passwordSet : bool
}.

Record URL : Type := mkURL {
  Scheme : string;
  Opaque : string;
  User : option Userinfo;
  Host : string;
  Path : string;
  RawPath : string;
  OmitHost : bool;
  ForceQuery : bool;
  RawQuery : string;
  Fragment : string;
  RawFragment : string
}.

(** [new(URL)]: the zero value. *)
Definition zeroURL : URL :=
  mkURL "" "" None "" "" "" false false "" "" "".

Definition ishex (c : ascii) : bool :=
  isDigit c || between "a" "f" c || between "A" "F" c.

Definition unhex (c : ascii) : N :=
  if isDigit c then (code c - code "0")%N
  else if between "a" "f" c then (code c - code "a" + 10)%N
  else if between "A" "F" c then (code c - code "A" + 10)%N
  else 0%N.

(** [unhex(a)<<4 | unhex(b)] *)
Definition hexByte (a b : ascii) : ascii :=
  ascii_of_N (N.lor (N.shiftl (unhex a) 4) (unhex b)).

Definition upperhex (n : N) : ascii :=
  match String.get (N.to_nat n) "0123456789ABCDEF" with
  | Some c => c
  | None => "0"%char
  end.

(** The double-quote byte, 0x22. *)
Definition dquote : ascii := ascii_of_N 34.

Definition shouldEscape (c : ascii) (mode : encoding) : bool :=
  if isAlnum c then false
  else if isHostMode mode && (oneOf "!$&'()*+,;=:[]<>" c || eqb c dquote)
       then false
  else if oneOf "-_.~" c then false
  else if oneOf "$&+,/:;=?@" c
          && match mode with
             | encodePath | encodePathSegment | encodeUserPassword
             | encodeQueryComponent | encodeFragment => true
             | _ => false
             end
       then match mode with
            | encodePath => eqb c "?"
            | encodePathSegment => oneOf "/;,?" c
            | encodeUserPassword => oneOf "@/?:" c
            | encodeQueryComponent => true
            | _ => false
            end
  else if match mode with encodeFragment => oneOf "!()*" c | _ => false end
       then false
  else true.

(** First loop of [unescape]: every [%] is followed by two hex digits,
    and in host and zone mode only the permitted bytes occur. *)
Fixpoint unescapeOK (mode : encoding) (s : string) : bool :=
  match s with
  | EmptyString => true
  | String c s1 =>
      if eqb c "%" then
        match s1 with
        | String a (String b s3) =>
            if negb (ishex a && ishex b) then false
            else if match mode with encodeHost => true | _ => false end
                    && (unhex a <? 8)%N
                    && negb (eqb a "2" && eqb b "5")
                 then false
            else if match mode with encodeZone => true | _ => false end
                    && negb (eqb a "2" && eqb b "5")
                    && negb (eqb (hexByte a b) " ")
                    && shouldEscape (hexByte a b) encodeHost
                 then false
            else unescapeOK mode s3
        | _ => false
        end
      else if eqb c "+" then unescapeOK mode s1
      else if isHostMode mode && (code c <? 128)%N
              && shouldEscape c encodeHost
           then false
      else unescapeOK mode s1
  end.

(** Second loop of [unescape], run on a string that passed the first. *)
Fixpoint unescapeDecode (mode : encoding) (s : string) : string :=
  match s with
  | EmptyString => EmptyString
  | String c s1 =>
      if eqb c "%" then
        match s1 with
        | String a (String b s3) =>
            String (hexByte a b) (unescapeDecode mode s3)
        | _ => EmptyString
        end
      else if eqb c "+" then
        String (match mode with
                | encodeQueryComponent => " "%char
                | _ => "+"%char
                end) (unescapeDecode mode s1)
      else String c (unescapeDecode mode s1)
  end.

Definition unescape (s : string) (mode : encoding) : option string :=
  if unescapeOK mode s then Some (unescapeDecode mode s) else None.

Fixpoint escape (s : string) (mode : encoding) : string :=
  match s with
  | EmptyString => EmptyString
  | String c s' =>
      if eqb c " " && match mode with
                      | encodeQueryComponent => true
                      | _ => false
                      end
      then String "+" (escape s' mode)
      else if shouldEscape c mode
      then String "%"
             (String (upperhex (N.shiftr (code c) 4))
                (String (upperhex (N.land (code c) 15)) (escape s' mode)))
      else String c (escape s' mode)
  end.

Definition validEncodedByte (c : ascii) (mode : encoding) : bool :=
  if oneOf "!$&'()*+,;=:@" c then true
  else if oneOf "[]" c then true
  else if eqb c "%" then true
  else negb (shouldEscape c mode).

Definition validEncoded (s : string) (mode : encoding) : bool :=
  all (fun c => validEncodedByte c mode) s.

Definition stringContainsCTLByte (s : string) : bool :=
  negb (all (fun b => negb ((code b <? 32)%N || (code b =? 127)%N)) s).

(** [u.setPath(p)]: the pair of the new [Path] and [RawPath]. *)
Definition setPath (p : string) : option (string * string) :=
  path ← unescape p encodePath;
  Some (path, if String.eqb p (escape path encodePath) then "" else p).

Definition EscapedPath (u : URL) : string :=
  if negb (isEmpty (RawPath u)) && validEncoded (RawPath u) encodePath
     && match unescape (RawPath u) encodePath with
        | Some p => String.eqb p (Path u)
        | None => false
        end
  then RawPath u
  else if String.eqb (Path u) "*" then "*"
  else escape (Path u) encodePath.

Definition setFragment (f : string) : option (string * string) :=
  frag ← unescape f encodeFragment;
  Some (frag, if String.eqb f (escape frag encodeFragment) then "" else f).

Definition EscapedFragment (u : URL) : string :=
  if negb (isEmpty (RawFragment u)) && validEncoded (RawFragment u) encodeFragment
     && match unescape (RawFragment u) encodeFragment with
        | Some f => String.eqb f (Fragment u)
        | None => false
        end
  then RawFragment u
  else escape (Fragment u) encodeFragment.

(** [getScheme]: [None] is "missing protocol scheme". *)
Fixpoint getSchemeFrom (i : nat) (rest rawURL : string)
  : option (string * string) :=
  match rest with
  | EmptyString => Some ("", rawURL)
  | String c rest' =>
      if isAlpha c then getSchemeFrom (S i) rest' rawURL
      else if isDigit c || oneOf "+-." c then
        match i with
        | O => Some ("", rawURL)
        | _ => getSchemeFrom (S i) rest' rawURL
        end
      else if eqb c ":" then
        match i with
        | O => None
        | _ => Some (take i rawURL, rest')
        end
      else Some ("", rawURL)
  end.

Definition getScheme (rawURL : string) : option (string * string) :=
  getSchemeFrom 0 rawURL rawURL.

Definition validOptionalPort (port : string) : bool :=
  match port with
  | EmptyString => true
  | String c digits => eqb c ":" && all isDigit digits
  end.

Definition validUserinfo (s : string) : bool :=
  all (fun r => isAlnum r || oneOf "-._:~!$&'()*+,;=%@" r) s.

Definition parseHost (host : string) : option string :=
  if HasPrefix host "[" then
    match LastIndex host "]" with
    | None => None
    | Some i =>
        if negb (validOptionalPort (drop (S i) host)) then None
        else match Index (take i host) "%25" with
             | Some zone =>
                 host1 ← unescape (take zone host) encodeHost;
                 host2 ← unescape (drop zone (take i host)) encodeZone;
                 host3 ← unescape (drop i host) encodeHost;
                 Some (host1 +:+ host2 +:+ host3)
             | None => unescape host encodeHost
             end
    end
  else
    match LastIndex host ":" with
    | Some i =>
        if negb (validOptionalPort (drop i host)) then None
        else unescape host encodeHost
    | None => unescape host encodeHost
    end.

Definition parseAuthority (authority : string)
  : option (option Userinfo * string) :=
  match LastIndex authority "@" with
  | None => host ← parseHost authority; Some (None, host)
  | Some i =>
      host ← parseHost (drop (S i) authority);
      let userinfo := take i authority in
      if negb (validUserinfo userinfo) then None
      else if negb (Contains userinfo ":") then
        name ← unescape userinfo encodeUserPassword;
        Some (Some (mkUserinfo name "" false), host)
      else
        let '(uname, pword, _) := Cut userinfo ":" in
        name ← unescape uname encodeUserPassword;
        pass ← unescape pword encodeUserPassword;
        Some (Some (mkUserinfo name pass true), host)
  end.

(** [parse(rawURL, viaRequest)] with [viaRequest = false], the only way
    [Parse] calls it. *)
Definition parse (rawURL : string) : option URL :=
  if stringContainsCTLByte rawURL then None
  else if String.eqb rawURL "*" then
    Some (mkURL "" "" None "" "*" "" false false "" "" "")
  else
    '(scheme0, rest0) ← getScheme rawURL;
    let scheme := ToLowerASCII scheme0 in
    let '(rest, forceQuery, rawQuery) :=
      if HasSuffix rest0 "?" && Nat.eqb (CountByte rest0 "?") 1
      then (take (len rest0 - 1) rest0, true, "")
      else let '(before, after, _) := Cut rest0 "?" in (before, false, after)
    in
    if negb (HasPrefix rest "/") && negb (isEmpty scheme) then
      (* rootless path with a scheme: opaque *)
      Some (mkURL scheme rest None "" "" "" false forceQuery rawQuery "" "")
    else if negb (HasPrefix rest "/")
            && Contains (Cut rest "/").1.1 ":" then
      (* first path segment in URL cannot contain colon *)
      None
    else if (negb (isEmpty scheme) || negb (HasPrefix rest "///"))
            && HasPrefix rest "//" then
      let authority0 := drop 2 rest in
      let '(authority, rest') :=
        match Index authority0 "/" with
        | Some i => (take i authority0, drop i authority0)
        | None => (authority0, "")
        end in
      '(user, host) ← parseAuthority authority;
      '(path, rawPath) ← setPath rest';
      Some (mkURL scheme "" user host path rawPath false
                  forceQuery rawQuery "" "")
    else
      let omitHost := negb (isEmpty scheme) && HasPrefix rest "/" in
      '(path, rawPath) ← setPath rest;
      Some (mkURL scheme "" None "" path rawPath omitHost
                  forceQuery rawQuery "" "").

Definition withFragment (u : URL) (frag rawFrag : string) : URL :=
  mkURL (Scheme u) (Opaque u) (User u) (Host u) (Path u) (RawPath u)
        (OmitHost u) (ForceQuery u) (RawQuery u) frag rawFrag.

(** [url.Parse]. *)
Definition Parse (rawURL : string) : option URL :=
  let '(u, frag, _) := Cut rawURL "#" in
  url ← parse u;
  if isEmpty frag then Some url
  else '(f, rawf) ← setFragment frag; Some (withFragment url f rawf).

(** Path segments of [s] between slashes, as the repeated
    [strings.Cut(remaining, "/")] of [resolvePath] yields them. *)
Fixpoint segments (s : string) : list string :=
  match s with
  | EmptyString => [""]
  | String c s' =>
      if eqb c "/" then "" :: segments s'
      else match segments s' with
           | x :: r => String c x :: r
           | [] => [String c ""]
           end
  end.

Definition UserinfoString (ui : Userinfo) : string :=
  escape (username ui) encodeUserPassword
  +:+ (if passwordSet ui
       then ":" +:+ escape (password ui) encodeUserPassword
       else "").

Definition isSome {A} (o : option A) : bool :=
  match o with Some _ => true | None => false end.

(** What [String] has written to the buffer before the path. *)
Definition authorityString (u : URL) : string :=
  if negb (isEmpty (Scheme u)) || negb (isEmpty (Host u)) || isSome (User u)
  then
    if OmitHost u && isEmpty (Host u) && negb (isSome (User u)) then ""
    else
      (if negb (isEmpty (Host u)) || negb (isEmpty (Path u)) || isSome (User u)
       then "//" else "")
      +:+ match User u with
          | Some ui => UserinfoString ui +:+ "@"
          | None => ""
          end
      +:+ (if negb (isEmpty (Host u)) then escape (Host u) encodeHost else "")
  else "".

(** [URL.String]. *)
Definition String (u : URL) : string :=
  let schemePart :=
    if negb (isEmpty (Scheme u)) then Scheme u +:+ ":" else "" in
  let body :=
    if negb (isEmpty (Opaque u)) then schemePart +:+ Opaque u
    else
      let buf := schemePart +:+ authorityString u in
      let path := EscapedPath u in
      let buf :=
        if negb (isEmpty path) && negb (HasPrefix path "/")
           && negb (isEmpty (Host u))
        then buf +:+ "/" else buf in
      let buf :=
        if isEmpty buf && Contains (Cut path "/").1.1 ":"
        then buf +:+ "./" else buf in
      buf +:+ path in
  let body :=
    if ForceQuery u || negb (isEmpty (RawQuery u))
    then body +:+ "?" +:+ RawQuery u else body in
  if negb (isEmpty (Fragment u))
  then body +:+ "#" +:+ EscapedFragment u else body.

(** One round of the loop of [resolvePath]; the state is the buffer
    [dst], which starts with a slash, and the flag [first]. *)
Definition resolveStep (st : string * bool) (elem : string) : string * bool :=
  let '(dst, first) := st in
  if String.eqb elem "." then (dst, false)
  else if String.eqb elem ".." then
    let str := drop 1 dst in
    match LastIndex str "/" with
    | None => ("/", true)
    | Some index => ("/" +:+ take index str, first)
    end
  else ((if first then dst else dst +:+ "/") +:+ elem, false).

Definition resolvePath (base ref : string) : string :=
  let full :=
    if isEmpty ref then base
    else if negb (HasPrefix ref "/") then
      match LastIndex base "/" with
      | Some i => take (S i) base +:+ ref
      | None => ref
      end
    else ref in
  if isEmpty full then ""
  else
    let elems := segments full in
    let '(dst, _) := fold_left resolveStep elems ("/", true) in
    let last := List.last elems "" in
    let r := if String.eqb last "." || String.eqb last ".."
             then dst +:+ "/" else dst in
    if HasPrefix (drop 1 r) "/" then drop 1 r else r.

Definition withPath (u : URL) (p : string) : URL :=
  match setPath p with
  | Some (path, rawPath) =>
      mkURL (Scheme u) (Opaque u) (User u) (Host u) path rawPath
            (OmitHost u) (ForceQuery u) (RawQuery u) (Fragment u)
            (RawFragment u)
  | None => u
  end.

(** [u.ResolveReference(ref)]. *)
Definition ResolveReference (u ref : URL) : URL :=
  let url :=
    mkURL (if isEmpty (Scheme ref) then Scheme u else Scheme ref)
          (Opaque ref) (User ref) (Host ref) (Path ref) (RawPath ref)
          (OmitHost ref) (ForceQuery ref) (RawQuery ref) (Fragment ref)
          (RawFragment ref) in
  if negb (isEmpty (Scheme ref)) || negb (isEmpty (Host ref))
     || isSome (User ref)
  then withPath url (resolvePath (EscapedPath ref) "")
  else if negb (isEmpty (Opaque ref)) then
    mkURL (Scheme url) (Opaque url) None "" "" (RawPath url) (OmitHost url)
          (ForceQuery url) (RawQuery url) (Fragment url) (RawFragment url)
  else
    let inherit :=
      isEmpty (Path ref) && negb (ForceQuery ref) && isEmpty (RawQuery ref) in
    let rawQuery := if inherit then RawQuery u else RawQuery url in
    let frag :=
      if inherit && isEmpty (Fragment ref) then Fragment u else Fragment url in
    let rawFrag :=
      if inherit && isEmpty (Fragment ref)
      then RawFragment u else RawFragment url in
    if isEmpty (Path ref) && negb (isEmpty (Opaque u)) then
      mkURL (Scheme url) (Opaque u) None "" "" (RawPath url) (OmitHost url)
            (ForceQuery url) rawQuery frag rawFrag
    else
      withPath
        (mkURL (Scheme url) (Opaque url) (User u) (Host u) (Path url)
               (RawPath url) (OmitHost url) (ForceQuery url) rawQuery
               frag rawFrag)
        (resolvePath (EscapedPath u) (EscapedPath ref)).

End GoURL.

(* ================================================================== *)
(** ** [config] *)
(* ================================================================== *)

Module config.

Definition DEFAULT_MAX_DEPTH : Z := 5.
Definition DEFAULT_PARALLEL_WORKERS : Z := 5.
Definition DEFAULT_SCREENSHOT_DELAY : Z := 3.
Definition DEFAULT_REQUEST_DELAY : Z := 1.
Definition DEFAULT_VIEWPORT_WIDTH : Z := 1920.
Definition DEFAULT_VIEWPORT_HEIGHT : Z := 1080.
Definition DEFAULT_SCREENSHOT_QUALITY : Z := 90.
Definition SCREENSHOTS_DIR : string := "screenshots".

Definition EXCLUDED_EXTENSIONS : list string :=
  [ ".pdf"; ".doc"; ".docx"; ".xls"; ".xlsx";
    ".zip"; ".rar"; ".exe"; ".dmg"; ".pkg";
    ".mp4"; ".avi"; ".mov"; ".mp3"; ".wav";
    ".jpg"; ".jpeg"; ".png"; ".gif"; ".svg" ].

Definition DEFAULT_SKIP_PATTERNS : list string := [ "/wp-admin" ].

Definition DEFAULT_USER_AGENT : string :=
  "Mozilla/5.0 (Windows NT 10.0; Win64; x64) AppleWebKit/537.36 (KHTML, like Gecko) Chrome/121.0.0.0 Safari/537.36".

Record Config : Type := mkConfig {
  BaseURL : string;
  MaxDepth : Z;
  ParallelWorkers : Z;
  ScreenshotDelay : Z;
  RequestDelay : Z;
  ViewportWidth : Z;
  ViewportHeight : Z;
  Quality : Z;
  CheckSitemap : bool;
  CheckRobots : bool;
  SkipPatterns : list string;
  UserAgent : string;
  OutputDir : string
}.

Definition NewConfig (baseURL : string) : Config :=
  mkConfig baseURL DEFAULT_MAX_DEPTH DEFAULT_PARALLEL_WORKERS
    DEFAULT_SCREENSHOT_DELAY DEFAULT_REQUEST_DELAY DEFAULT_VIEWPORT_WIDTH
    DEFAULT_VIEWPORT_HEIGHT DEFAULT_SCREENSHOT_QUALITY true true
    DEFAULT_SKIP_PATTERNS DEFAULT_USER_AGENT SCREENSHOTS_DIR.

End config.

(* ================================================================== *)
(** ** [src/utils/url.go] *)
(* ================================================================== *)

Module utils.
Import GoStrings.

(** The assignments [NormalizeURL] makes to the parsed URL: fragment
    and query emptied, an empty path made [/], one trailing slash
    trimmed, and [/] again if that left nothing. *)
Definition normalized (u : GoURL.URL) : GoURL.URL :=
  let path := if isEmpty (GoURL.Path u) then "/" else GoURL.Path u in
  let path := TrimSuffix path "/" in
  let path := if isEmpty path then "/" else path in
  GoURL.mkURL (GoURL.Scheme u) (GoURL.Opaque u) (GoURL.User u)
    (GoURL.Host u) path (GoURL.RawPath u) (GoURL.OmitHost u)
    (GoURL.ForceQuery u) "" "" (GoURL.RawFragment u).

Definition NormalizeURL (urlStr : string) : string :=
  match GoURL.Parse urlStr with
  | None => urlStr
  | Some u => GoURL.String (normalized u)
  end.

(** [FixRelativeURL]: absolute links pass, the others are resolved
    against the base. *)
Definition FixRelativeURL (link baseURL : string) : string :=
  if HasPrefix link "http://" || HasPrefix link "https://" then link
  else match GoURL.Parse baseURL with
       | None => link
       | Some baseU =>
           match GoURL.Parse link with
           | None => link
           | Some linkU => GoURL.String (GoURL.ResolveReference baseU linkU)
           end
       end.

Section CaseFolding.

(** [strings.ToLower] maps Unicode letters, for which the tables are not
    part of this development: it is a parameter of the two functions
    that call it on arbitrary input. *)
Variable ToLower : string → string.

Definition IsValidURL (urlStr baseURL : string) : bool :=
  if isEmpty urlStr then false
  else match GoURL.Parse urlStr with
       | None => false
       | Some u =>
           match GoURL.Parse baseURL with
           | None => false
           | Some baseU =>
               if negb (String.eqb (GoURL.Host u) (GoURL.Host baseU))
                  || negb (String.eqb (GoURL.Scheme u) (GoURL.Scheme baseU))
               then false
               else
                 let pathname := ToLower (GoURL.Path u) in
                 if existsb (HasSuffix pathname) config.EXCLUDED_EXTENSIONS
                 then false
                 else if Contains urlStr "mailto:" || Contains urlStr "tel:"
                         || Contains urlStr "javascript:"
                 then false
                 else true
           end
       end.

Definition ShouldSkipURL (urlStr : string) (skipPatterns : list string)
  : bool :=
  existsb (fun pattern => Contains (ToLower urlStr) (ToLower pattern))
          skipPatterns.

End CaseFolding.

(** *** File names *)

(** [regexp.MustCompile(`[^a-zA-Z0-9\-_]`).ReplaceAllString(s, "_")]:
    every rune outside the class is replaced by one underscore.  The
    class holds ASCII bytes only, so a rune is kept exactly when it is
    one of these bytes; [skip] counts the bytes still to pass of a
    rune already replaced. *)
Fixpoint replaceInvalidFrom (skip : nat) (s : string) : string :=
  match s with
  | EmptyString => EmptyString
  | String c s' =>
      match skip with
      | S k => replaceInvalidFrom k s'
      | O =>
          if GoBytes.isAlnum c || GoBytes.oneOf "-_" c
          then String c (replaceInvalidFrom 0 s')
          else String "_" (replaceInvalidFrom (GoUTF8.runeWidth s - 1) s')
      end
  end.

(** [regexp.MustCompile(`_+`).ReplaceAllString(s, "_")]: every maximal
    run of underscores becomes one. *)
Fixpoint collapseUnderscores (s : string) : string :=
  match s with
  | EmptyString => EmptyString
  | String c s' =>
      if GoBytes.eqb c "_" && HasPrefix s' "_" then collapseUnderscores s'
      else String c (collapseUnderscores s')
  end.

Definition sanitizeFilename (filename : string) : string :=
  let filename := replaceInvalidFrom 0 filename in
  let filename := collapseUnderscores filename in
  let filename := Trim filename "_" in
  if (200 <? len filename)%nat then take 200 filename else filename.

(** [generateTimestampFilename]; [stamp] is
    [time.Now().Format("20060102_150405")]. *)
Definition generateTimestampFilename (stamp : string) : string :=
  "page_" +:+ stamp.

Definition GenerateFilename (urlStr stamp : string) : string :=
  match GoURL.Parse urlStr with
  | None => generateTimestampFilename stamp
  | Some u =>
      let filename := ReplaceAll (GoURL.Path u) "/" "_" in
      let filename :=
        if isEmpty filename || String.eqb filename "_" then "homepage"
        else filename in
      let filename :=
        if negb (isEmpty (GoURL.RawQuery u)) then
          let queryPart := ReplaceAll (GoURL.RawQuery u) "=" "_" in
          let queryPart := ReplaceAll queryPart "&" "_" in
          filename +:+ "_" +:+ queryPart
        else filename in
      let filename := sanitizeFilename filename in
      let filename :=
        if isEmpty filename then generateTimestampFilename stamp
        else filename in
      filename +:+ ".png"
  end.

(** *** Small accessors *)

Definition ExtractDomain (urlStr : string) : string :=
  match GoURL.Parse urlStr with
  | None => ""
  | Some u => GoURL.Host u
  end.

Definition IsHTTPS (urlStr : string) : bool :=
  match GoURL.Parse urlStr with
  | None => false
  | Some u => String.eqb (GoURL.Scheme u) "https"
  end.

Definition AddHTTPSIfMissing (urlStr : string) : string :=
  if negb (HasPrefix urlStr "http://") && negb (HasPrefix urlStr "https://")
  then "https://" +:+ urlStr
  else urlStr.

Definition GetPathFromURL (urlStr : string) : string :=
  match GoURL.Parse urlStr with
  | None => ""
  | Some u => GoURL.Path u
  end.

Definition HasQueryParams (urlStr : string) : bool :=
  match GoURL.Parse urlStr with
  | None => false
  | Some u => negb (isEmpty (GoURL.RawQuery u))
  end.

End utils.

(* ================================================================== *)
(** ** [src/models/models.go] *)
(* ================================================================== *)

Module models.

(** Times are kept as integers (nanoseconds since the epoch). *)
Record ScreenshotResult : Type := mkResult {
  URL : string;
  Filename : string;
  Success : bool;
  Error : string;
  Timestamp : Z;
  FileSize : Z;   (* int64 *)
  Duration : Z    (* int64 *)
}.

Record Report : Type := mkReport {
  BaseURL : string;
  TotalPages : Z;
  SuccessfulScreenshots : Z;
  FailedScreenshots : Z;
  ReportTimestamp : Z;
  LastUpdate : option Z;
  NewPagesInThisRun : Z;
  TotalDuration : Z;    (* int64 *)
  AveragePageSize : Z;  (* int64 *)
  Results : list ScreenshotResult
}.

Record CrawlSession : Type := mkSession {
  baseURL : string;
  visitedURLs : gmap string bool;
  discoveredURLs : gmap string bool;
  existingURLs : gmap string bool;
  urlQueue : list string;
  depthMap : gmap string Z;
  results : list ScreenshotResult;
  startTime : Z
}.

(** Reading a Go map at a missing key gives the zero value. *)
Definition readBool (m : gmap string bool) (k : string) : bool :=
  default false (m !! k).
Definition readInt (m : gmap string Z) (k : string) : Z :=
  default 0%Z (m !! k).

Definition NewCrawlSession (baseURL : string) (now : Z) : CrawlSession :=
  mkSession baseURL ∅ ∅ ∅ [] ∅ [] now.

Definition IsVisited (cs : CrawlSession) (url : string) : bool :=
  readBool (visitedURLs cs) url.

Definition IsExisting (cs : CrawlSession) (url : string) : bool :=
  readBool (existingURLs cs) url.

Definition AddURL (cs : CrawlSession) (url : string) (depth : Z)
  : CrawlSession :=
  if negb (readBool (visitedURLs cs) url)
     && negb (readBool (existingURLs cs) url)
  then mkSession (baseURL cs) (visitedURLs cs) (discoveredURLs cs)
         (existingURLs cs) (urlQueue cs ++ [url])
         (<[url := depth]> (depthMap cs)) (results cs) (startTime cs)
  else cs.

Definition MarkVisited (cs : CrawlSession) (url : string) : CrawlSession :=
  mkSession (baseURL cs) (<[url := true]> (visitedURLs cs))
    (discoveredURLs cs) (existingURLs cs) (urlQueue cs) (depthMap cs)
    (results cs) (startTime cs).

Definition MarkExisting (cs : CrawlSession) (url : string) : CrawlSession :=
  mkSession (baseURL cs) (visitedURLs cs) (discoveredURLs cs)
    (<[url := true]> (existingURLs cs)) (urlQueue cs) (depthMap cs)
    (results cs) (startTime cs).

Definition AddResult (cs : CrawlSession) (result : ScreenshotResult)
  : CrawlSession :=
  mkSession (baseURL cs) (visitedURLs cs) (discoveredURLs cs)
    (existingURLs cs) (urlQueue cs) (depthMap cs)
    (results cs ++ [result]) (startTime cs).

(** [GetNextURL]: the triple returned and the session left behind. *)
Definition GetNextURL (cs : CrawlSession)
  : (string * Z * bool) * CrawlSession :=
  match urlQueue cs with
  | [] => (("", 0%Z, false), cs)
  | url :: rest =>
      ((url, readInt (depthMap cs) url, true),
       mkSession (baseURL cs) (visitedURLs cs) (discoveredURLs cs)
         (existingURLs cs) rest (depthMap cs) (results cs) (startTime cs))
  end.

(** [n] successive [AddURL] calls, and the triples that up to [n]
    successive [GetNextURL] calls return while the queue lasts. *)
Definition enqueueMany (cs : CrawlSession) (entries : list (string * Z))
  : CrawlSession :=
  fold_left (fun cs e => AddURL cs e.1 e.2) entries cs.

Fixpoint dequeueMany (n : nat) (cs : CrawlSession) : list (string * Z) :=
  match n with
  | O => []
  | S n' =>
      let '((url, depth, hasNext), cs') := GetNextURL cs in
      if hasNext then (url, depth) :: dequeueMany n' cs' else []
  end.

Definition GetResults (cs : CrawlSession) : list ScreenshotResult :=
  results cs.

(** [GetStats]: total, success and failed counts. *)
Definition GetStats (cs : CrawlSession) : Z * Z * Z :=
  (Z.of_nat (length (results cs)),
   Z.of_nat (length (List.filter Success (results cs))),
   Z.of_nat (length (List.filter (fun r => negb (Success r)) (results cs)))).

(** The calls a client makes on a session, and a session after a
    sequence of them; the values the calls return are dropped. *)
Inductive Call : Type :=
  | CallAddURL (url : string) (depth : Z)
  | CallMarkVisited (url : string)
  | CallMarkExisting (url : string)
  | CallAddResult (result : ScreenshotResult)
  | CallGetNextURL.

Definition call (cs : CrawlSession) (c : Call) : CrawlSession :=
  match c with
  | CallAddURL url depth => AddURL cs url depth
  | CallMarkVisited url => MarkVisited cs url
  | CallMarkExisting url => MarkExisting cs url
  | CallAddResult result => AddResult cs result
  | CallGetNextURL => (GetNextURL cs).2
  end.

Definition calls (cs : CrawlSession) (cl : list Call) : CrawlSession :=
  fold_left call cl cs.

End models.

(* ================================================================== *)
(** ** [src/services/app.go]: the scheduler *)
(* ================================================================== *)

Module services.
Import models utils.

Section Scheduler.

(** The browser service is an external collaborator.  Its two calls are
    taken as transitions of an arbitrary state [Browser]. *)
Context {Browser : Type}.
Variable ToLower : string → string.
Variable CaptureScreenshot : Browser → string → ScreenshotResult * Browser.
Variable ExtractLinks : Browser → string → option (list string) * Browser.

(** [as.config] *)
Variable cfg : config.Config.

(** Body of the loop of [addNewLinksToQueue]. *)
Definition addLink (cs : CrawlSession) (link : string) (depth : Z)
  : CrawlSession :=
  let fixedLink := FixRelativeURL link (config.BaseURL cfg) in
  if IsValidURL ToLower fixedLink (config.BaseURL cfg) then
    let normalizedLink := NormalizeURL fixedLink in
    if negb (IsVisited cs normalizedLink)
       && negb (IsExisting cs normalizedLink) then
      if negb (ShouldSkipURL ToLower fixedLink (config.SkipPatterns cfg))
      then AddURL cs fixedLink depth
      else cs
    else cs
  else cs.

Definition addNewLinksToQueue (cs : CrawlSession) (links : list string)
  (depth : Z) : CrawlSession :=
  fold_left (fun cs link => addLink cs link depth) links cs.

(** Loop of [DiscoverURLs] over the URLs the discovery service found. *)
Definition DiscoverURLs (cs : CrawlSession) (discoveredURLs : list string)
  : CrawlSession :=
  fold_left
    (fun cs url =>
       let normalizedURL := NormalizeURL url in
       if negb (IsVisited cs normalizedURL)
          && negb (IsExisting cs normalizedURL)
       then AddURL cs url 1
       else cs)
    discoveredURLs cs.

(** *** Sequential mode *)

(** The application state the sequential loop works on.  [captures] is
    a history variable: the arguments of every [CaptureScreenshot] call
    made so far, oldest first, with the depth the URL was dequeued at. *)
Record App : Type := mkApp {
  session : CrawlSession;
  browser : Browser;
  captures : list (string * Z)
}.

(** One round of the [for] loop of [runSequentialCrawl]; [None] is the
    [break].  The [time.Sleep] that ends a round leaves the state as it
    is.  [depth + 1] cannot overflow: it is computed under
    [depth < MaxDepth]. *)
Definition sequentialIteration (a : App) : option App :=
  let '((url, depth, hasNext), cs) := GetNextURL (session a) in
  if negb hasNext then None
  else if (depth >? config.MaxDepth cfg)%Z then
    Some (mkApp cs (browser a) (captures a))
  else
    let normalizedURL := NormalizeURL url in
    if IsVisited cs normalizedURL then
      Some (mkApp cs (browser a) (captures a))
    else if IsExisting cs normalizedURL then
      Some (mkApp (MarkVisited cs normalizedURL) (browser a) (captures a))
    else if ShouldSkipURL ToLower url (config.SkipPatterns cfg) then
      Some (mkApp (MarkVisited cs normalizedURL) (browser a) (captures a))
    else
      let cs := MarkVisited cs normalizedURL in
      let '(result, b) := CaptureScreenshot (browser a) url in
      let log := captures a ++ [(url, depth)] in
      let cs := AddResult cs result in
      if Success result && (depth <? config.MaxDepth cfg)%Z then
        let '(links, b) := ExtractLinks b url in
        match links with
        | Some links =>
            Some (mkApp (addNewLinksToQueue cs links (depth + 1)) b log)
        | None => Some (mkApp cs b log)
        end
      else Some (mkApp cs b log).

(** [runSequentialCrawl], cut after [fuel] rounds; the flag tells
    whether the loop was left through its [break]. *)
Fixpoint runSequentialCrawl (fuel : nat) (a : App) : App * bool :=
  match fuel with
  | O => (a, false)
  | S fuel' =>
      match sequentialIteration a with
      | None => (a, true)
      | Some a' => runSequentialCrawl fuel' a'
      end
  end.

(** *** Parallel mode *)

(** The goroutines of [runParallelCrawl] are interleaved at the
    granularity of the steps below: one round of the dispatching loop,
    one call of a worker (semaphore, capture, channel send, link
    extraction, one round of the loop of [addNewLinksToQueue], return),
    one receive of the collecting goroutine.  The accesses a step makes
    to the session are taken as atomic; the source does not lock. *)

(** Where a worker goroutine stands. *)
Inductive TaskPC : Type :=
  | AwaitSlot                          (* at [semaphore <- struct{}{}] *)
  | Capturing                          (* before [CaptureScreenshot] *)
  | Sending (result : ScreenshotResult) (* at [resultsChan <- result] *)
  | Extracting (result : ScreenshotResult) (* before the [if] *)
  | Adding (links : list string)       (* in [addNewLinksToQueue] *)
  | Finished.                          (* deferred calls have run *)

Record Task : Type := mkTask {
  pageURL : string;
  pageDepth : Z;
  pc : TaskPC
}.

(** Where the goroutine running [runParallelCrawl] stands. *)
Inductive DispatcherPC : Type :=
  | Dispatching     (* in the [for] loop *)
  | Waiting         (* at [wg.Wait()] *)
  | Returned.       (* after [close(resultsChan)] *)

Record Par : Type := mkPar {
  psession : CrawlSession;
  pbrowser : Browser;
  pcaptures : list (string * Z);
  tasks : list Task;
  resultsChan : list ScreenshotResult;
  dispatcher : DispatcherPC
}.

Definition holdsSlot (t : Task) : bool :=
  match pc t with
  | Capturing | Sending _ | Extracting _ | Adding _ => true
  | AwaitSlot | Finished => false
  end.

Definition isFinished (t : Task) : bool :=
  match pc t with Finished => true | _ => false end.

Definition slotsHeld (ts : list Task) : Z :=
  Z.of_nat (length (List.filter holdsSlot ts)).

(** Capacity of [resultsChan]. *)
Definition resultsChanCap : nat := 100.

(** One round of the [for] loop of [runParallelCrawl], or the
    [wg.Wait(); close(resultsChan)] that follows it. *)
Definition dispatcherStep (p : Par) : option Par :=
  match dispatcher p with
  | Dispatching =>
      let '((url, depth, hasNext), cs) := GetNextURL (psession p) in
      let continue cs' ts :=
        Some (mkPar cs' (pbrowser p) (pcaptures p) ts (resultsChan p)
                    Dispatching) in
      if negb hasNext then
        Some (mkPar cs (pbrowser p) (pcaptures p) (tasks p) (resultsChan p)
                    Waiting)
      else if (depth >? config.MaxDepth cfg)%Z then continue cs (tasks p)
      else
        let normalizedURL := NormalizeURL url in
        if IsVisited cs normalizedURL || IsExisting cs normalizedURL
        then continue cs (tasks p)
        else if ShouldSkipURL ToLower url (config.SkipPatterns cfg)
        then continue cs (tasks p)
        else continue (MarkVisited cs normalizedURL)
                      (tasks p ++ [mkTask url depth AwaitSlot])
  | Waiting =>
      if forallb isFinished (tasks p)
      then Some (mkPar (psession p) (pbrowser p) (pcaptures p) (tasks p)
                       (resultsChan p) Returned)
      else None
  | Returned => None
  end.

(** One step of the goroutine launched for task [i]. *)
Definition workerStep (i : nat) (p : Par) : option Par :=
  t ← tasks p !! i;
  let goto cs b log chan pc' :=
    Some (mkPar cs b log
            (<[i := mkTask (pageURL t) (pageDepth t) pc']> (tasks p))
            chan (dispatcher p)) in
  match pc t with
  | AwaitSlot =>
      if (slotsHeld (tasks p) <? config.ParallelWorkers cfg)%Z
      then goto (psession p) (pbrowser p) (pcaptures p) (resultsChan p)
                Capturing
      else None
  | Capturing =>
      let '(result, b) := CaptureScreenshot (pbrowser p) (pageURL t) in
      goto (psession p) b (pcaptures p ++ [(pageURL t, pageDepth t)])
           (resultsChan p) (Sending result)
  | Sending result =>
      if (length (resultsChan p) <? resultsChanCap)%nat
      then goto (psession p) (pbrowser p) (pcaptures p)
                (resultsChan p ++ [result]) (Extracting result)
      else None
  | Extracting result =>
      if Success result && (pageDepth t <? config.MaxDepth cfg)%Z then
        let '(links, b) := ExtractLinks (pbrowser p) (pageURL t) in
        goto (psession p) b (pcaptures p) (resultsChan p)
             (match links with
              | Some links => Adding links
              | None => Finished
              end)
      else goto (psession p) (pbrowser p) (pcaptures p) (resultsChan p)
                Finished
  | Adding [] =>
      goto (psession p) (pbrowser p) (pcaptures p) (resultsChan p) Finished
  | Adding (link :: links) =>
      goto (addLink (psession p) link (pageDepth t + 1)) (pbrowser p)
           (pcaptures p) (resultsChan p) (Adding links)
  | Finished => None
  end.

(** One round of the goroutine that drains [resultsChan]. *)
Definition collectorStep (p : Par) : option Par :=
  match resultsChan p with
  | [] => None
  | result :: chan =>
      Some (mkPar (AddResult (psession p) result) (pbrowser p) (pcaptures p)
                  (tasks p) chan (dispatcher p))
  end.

Inductive Actor : Type :=
  | TheDispatcher
  | Worker (i : nat)
  | Collector.

Definition parStep (who : Actor) (p : Par) : option Par :=
  match who with
  | TheDispatcher => dispatcherStep p
  | Worker i => workerStep i p
  | Collector => collectorStep p
  end.

(** An execution: the actors move in the order of the schedule, each
    move being enabled when it is made. *)
Fixpoint parRun (schedule : list Actor) (p : Par) : option Par :=
  match schedule with
  | [] => Some p
  | who :: schedule' => p' ← parStep who p; parRun schedule' p'
  end.

(** State in which [runParallelCrawl] is entered. *)
Definition parStart (cs : CrawlSession) (b : Browser) : Par :=
  mkPar cs b [] [] [] Dispatching.

(** [CrawlWebsite] up to the choice of the mode: the seed is enqueued
    at depth 0. *)
Definition seedSession (cs : CrawlSession) : CrawlSession :=
  AddURL cs (config.BaseURL cfg) 0.

(** *** Start-up and link extraction *)

(** What [Initialize] does to the session once the output directory
    and the connection test have passed: every key of the map that
    [GetExistingURLs] returned is marked existing.  The order in which
    [range] visits the keys is not fixed; the marks commute. *)
Definition Initialize (cs : CrawlSession) (existingURLs : gmap string bool)
  : CrawlSession :=
  map_fold (fun url _ cs => MarkExisting cs url) cs existingURLs.

(** The loop of [BrowserService.ExtractLinks] over the links the page
    evaluation returned; the state is [validLinks] and [seenLinks]. *)
Definition keepLink (st : list string * gmap string bool) (link : string)
  : list string * gmap string bool :=
  let '(validLinks, seenLinks) := st in
  if IsValidURL ToLower link (config.BaseURL cfg)
     && negb (readBool seenLinks link) then
    let normalizedLink := NormalizeURL link in
    if negb (readBool seenLinks normalizedLink)
    then (validLinks ++ [link], <[normalizedLink := true]> seenLinks)
    else st
  else st.

Definition validLinks (links : list string) : list string :=
  (fold_left keepLink links ([], ∅)).1.

(** [CrawlWebsite] chooses the parallel loop when more than one worker
    is configured. *)
Definition runsParallel : bool := (config.ParallelWorkers cfg >? 1)%Z.

End Scheduler.

End services.

(* ================================================================== *)
(** ** [src/services/report.go]: the report merger *)
(* ================================================================== *)

Module report.
Import models.

(** Two's-complement wrap-around of [int64] arithmetic. *)
Definition wrap64 (z : Z) : Z := ((z + 2 ^ 63) mod 2 ^ 64 - 2 ^ 63)%Z.

(** The four accumulators of the loop over [allResults].  The counters
    are Go [int]s bounded by the length of a slice, which cannot wrap;
    the two sums are [int64] additions and wrap. *)
Record Totals : Type := mkTotals {
  successCount : Z;
  failCount : Z;
  totalDuration : Z;
  totalFileSize : Z
}.

Definition accumulate (t : Totals) (result : ScreenshotResult) : Totals :=
  mkTotals
    (if Success result then successCount t + 1 else successCount t)%Z
    (if negb (Success result) then failCount t + 1 else failCount t)%Z
    (wrap64 (totalDuration t + Duration result))
    (if Success result
     then wrap64 (totalFileSize t + FileSize result)
     else totalFileSize t).

Definition totals (allResults : list ScreenshotResult) : Totals :=
  fold_left accumulate allResults (mkTotals 0 0 0 0).

(** [allResults] as [GenerateReport] assembles it. *)
Definition mergeResults (existingReport : option Report)
  (sessionResults : list ScreenshotResult) : list ScreenshotResult :=
  match existingReport with
  | Some r => [] ++ Results r
  | None => []
  end ++ sessionResults.

(** The [models.Report] value that [GenerateReport] builds and then
    hands to [saveJSONReport] and [generateSummary]; [timestamp] is the
    [time.Now()] it reads.  Go's [/] on [int64] truncates: [Z.quot]. *)
Definition GenerateReport (cfg : config.Config) (session : CrawlSession)
  (existingReport : option Report) (timestamp : Z) : Report :=
  let sessionResults := GetResults session in
  let allResults := mergeResults existingReport sessionResults in
  let t := totals allResults in
  let averagePageSize :=
    if (successCount t >? 0)%Z
    then Z.quot (totalFileSize t) (successCount t)
    else 0%Z in
  let lastUpdate :=
    if (0 <? length sessionResults)%nat then Some timestamp else None in
  mkReport (config.BaseURL cfg)
           (Z.of_nat (length allResults))
           (successCount t)
           (failCount t)
           timestamp
           lastUpdate
           (Z.of_nat (length sessionResults))
           (totalDuration t)
           averagePageSize
           allResults.

(** The total successful byte size as a mathematical integer, and the
    number of successful entries: the quantities the aggregates of the
    report are specified against. *)
Definition successfulBytes (rs : list ScreenshotResult) : Z :=
  fold_right (fun r acc => if Success r then FileSize r + acc else acc)%Z
             0%Z rs.

Definition successes (rs : list ScreenshotResult) : Z :=
  Z.of_nat (length (List.filter Success rs)).

(** [GetExistingURLs] on a loaded report: the successful URLs. *)
Definition GetExistingURLs (existingReport : option Report)
  : gmap string bool :=
  match existingReport with
  | None => ∅
  | Some r =>
      fold_left
        (fun m result => if Success result then <[URL result := true]> m else m)
        (Results r) ∅
  end.

(** The number of failed entries, the sum of all durations as a
    mathematical integer, and whether some successful entry has the
    given URL. *)
Definition failures (rs : list ScreenshotResult) : Z :=
  Z.of_nat (length (List.filter (fun r => negb (Success r)) rs)).

Definition durations (rs : list ScreenshotResult) : Z :=
  fold_right (fun r acc => Duration r + acc)%Z 0%Z rs.

Definition succeeded (rs : list ScreenshotResult) (url : string) : bool :=
  existsb (fun r => Success r && String.eqb (URL r) url) rs.

End report.

(* ================================================================== *)
(** ** [src/main.go]: reading the configuration *)
(* ================================================================== *)

Module main.
Import GoBytes GoStrings.

(** [strconv.Atoi]: an optional sign and decimal digits, within the
    range of [int] (64 bits); [None] for either error. *)
Fixpoint digitsValue (acc : Z) (s : string) : option Z :=
  match s with
  | EmptyString => Some acc
  | String ch s' =>
      if isDigit ch
      then digitsValue (acc * 10 + Z.of_N (code ch - code "0"))%Z s'
      else None
  end.

Definition Atoi (s : string) : option Z :=
  match s with
  | EmptyString => None
  | String s0 s' =>
      let digits := if eqb s0 "-" || eqb s0 "+" then s' else s in
      if isEmpty digits then None
      else
        n ← digitsValue 0 digits;
        let n := if eqb s0 "-" then (- n)%Z else n in
        if (- 2 ^ 63 <=? n)%Z && (n <? 2 ^ 63)%Z then Some n else None
  end.

(** [regexp.MatchString(config.DOMAIN_REGEX, host)] for
    [^[a-zA-Z0-9.-]+\.[a-zA-Z]{2,}$]: some dot of the host has before
    it one or more bytes of the class, back to the start, and after it
    two or more letters, up to the end.  [seen] is the number of class
    bytes passed. *)
Definition domainByte (c : ascii) : bool := isAlnum c || oneOf ".-" c.

Fixpoint matchDomainFrom (seen : nat) (s : string) : bool :=
  match s with
  | EmptyString => false
  | String c s' =>
      (eqb c "." && (0 <? seen)%nat && (2 <=? len s')%nat && all isAlpha s')
      || (domainByte c && matchDomainFrom (S seen) s')
  end.

Definition matchDomain (host : string) : bool := matchDomainFrom 0 host.

(** The errors [collectUserInput] can return, by the place they are
    raised at. *)
Inductive ConfigError : Type :=
  | ReadFailed
  | EmptyURL
  | InvalidURLFormat
  | MissingHost
  | InvalidDomain
  | InvalidDepth
  | DepthTooSmall
  | DepthTooLarge
  | InvalidWorkerCount
  | WorkerCountTooSmall
  | WorkerCountTooLarge.

Inductive Result (A : Type) : Type :=
  | Ok (a : A)
  | Err (e : ConfigError).

Arguments Ok {A} a.
Arguments Err {A} e.

(** Standard input: the lines still to be read, each as
    [ReadString('\n')] returns it.  Reading past the last line is the
    error [io.EOF]. *)
Definition Reader : Type := list string.

Definition withCheckSitemap (cfg : config.Config) (b : bool) : config.Config :=
  config.mkConfig (config.BaseURL cfg) (config.MaxDepth cfg)
    (config.ParallelWorkers cfg) (config.ScreenshotDelay cfg)
    (config.RequestDelay cfg) (config.ViewportWidth cfg)
    (config.ViewportHeight cfg) (config.Quality cfg) b
    (config.CheckRobots cfg) (config.SkipPatterns cfg)
    (config.UserAgent cfg) (config.OutputDir cfg).

Definition withCheckRobots (cfg : config.Config) (b : bool) : config.Config :=
  config.mkConfig (config.BaseURL cfg) (config.MaxDepth cfg)
    (config.ParallelWorkers cfg) (config.ScreenshotDelay cfg)
    (config.RequestDelay cfg) (config.ViewportWidth cfg)
    (config.ViewportHeight cfg) (config.Quality cfg)
    (config.CheckSitemap cfg) b (config.SkipPatterns cfg)
    (config.UserAgent cfg) (config.OutputDir cfg).

Definition withMaxDepth (cfg : config.Config) (depth : Z) : config.Config :=
  config.mkConfig (config.BaseURL cfg) depth
    (config.ParallelWorkers cfg) (config.ScreenshotDelay cfg)
    (config.RequestDelay cfg) (config.ViewportWidth cfg)
    (config.ViewportHeight cfg) (config.Quality cfg)
    (config.CheckSitemap cfg) (config.CheckRobots cfg)
    (config.SkipPatterns cfg) (config.UserAgent cfg) (config.OutputDir cfg).

Definition withParallelWorkers (cfg : config.Config) (workers : Z)
  : config.Config :=
  config.mkConfig (config.BaseURL cfg) (config.MaxDepth cfg) workers
    (config.ScreenshotDelay cfg) (config.RequestDelay cfg)
    (config.ViewportWidth cfg) (config.ViewportHeight cfg)
    (config.Quality cfg) (config.CheckSitemap cfg) (config.CheckRobots cfg)
    (config.SkipPatterns cfg) (config.UserAgent cfg) (config.OutputDir cfg).

Definition withSkipPatterns (cfg : config.Config) (patterns : list string)
  : config.Config :=
  config.mkConfig (config.BaseURL cfg) (config.MaxDepth cfg)
    (config.ParallelWorkers cfg) (config.ScreenshotDelay cfg)
    (config.RequestDelay cfg) (config.ViewportWidth cfg)
    (config.ViewportHeight cfg) (config.Quality cfg)
    (config.CheckSitemap cfg) (config.CheckRobots cfg) patterns
    (config.UserAgent cfg) (config.OutputDir cfg).

Section Input.

(** [strings.TrimSpace] and [strings.ToLower] go by Unicode tables
    that are not part of this development: they are parameters. *)
Variable TrimSpace : string → string.
Variable ToLower : string → string.

Definition readInput (reader : Reader) : option string * Reader :=
  match reader with
  | [] => (None, [])
  | line :: rest => (Some (TrimSpace line), rest)
  end.

Definition parseYesNo (input : string) (defaultYes : bool) : bool :=
  let response := ToLower input in
  if defaultYes
  then negb (String.eqb response "n" || String.eqb response "no")
  else String.eqb response "y" || String.eqb response "yes".

Definition getTargetURL (reader : Reader) : Result string * Reader :=
  match readInput reader with
  | (None, reader) => (Err ReadFailed, reader)
  | (Some input, reader) =>
      let targetURL := TrimSpace input in
      if isEmpty targetURL then (Err EmptyURL, reader)
      else
        let targetURL := utils.AddHTTPSIfMissing targetURL in
        match GoURL.Parse targetURL with
        | None => (Err InvalidURLFormat, reader)
        | Some u =>
            let host := GoURL.Host u in
            if isEmpty host then (Err MissingHost, reader)
            else if negb (matchDomain host) then (Err InvalidDomain, reader)
            else (Ok targetURL, reader)
        end
  end.

Definition configureSitemap (reader : Reader) (cfg : config.Config)
  : Result config.Config * Reader :=
  match readInput reader with
  | (None, reader) => (Err ReadFailed, reader)
  | (Some input, reader) =>
      (Ok (withCheckSitemap cfg (parseYesNo input true)), reader)
  end.

Definition configureRobots (reader : Reader) (cfg : config.Config)
  : Result config.Config * Reader :=
  match readInput reader with
  | (None, reader) => (Err ReadFailed, reader)
  | (Some input, reader) =>
      (Ok (withCheckRobots cfg (parseYesNo input true)), reader)
  end.

Definition configureDepth (reader : Reader) (cfg : config.Config)
  : Result config.Config * Reader :=
  match readInput reader with
  | (None, reader) => (Err ReadFailed, reader)
  | (Some input, reader) =>
      if negb (isEmpty input) then
        match Atoi input with
        | None => (Err InvalidDepth, reader)
        | Some depth =>
            if (depth <? 1)%Z then (Err DepthTooSmall, reader)
            else if (depth >? 10)%Z then (Err DepthTooLarge, reader)
            else (Ok (withMaxDepth cfg depth), reader)
        end
      else (Ok cfg, reader)
  end.

Definition configureWorkerCount (reader : Reader) (cfg : config.Config)
  : Result config.Config * Reader :=
  match readInput reader with
  | (None, reader) => (Err ReadFailed, reader)
  | (Some input, reader) =>
      if negb (isEmpty input) then
        match Atoi input with
        | None => (Err InvalidWorkerCount, reader)
        | Some workers =>
            if (workers <? 1)%Z then (Err WorkerCountTooSmall, reader)
            else if (workers >? 10)%Z then (Err WorkerCountTooLarge, reader)
            else (Ok (withParallelWorkers cfg workers), reader)
        end
      else (Ok cfg, reader)
  end.

Definition configureParallel (reader : Reader) (cfg : config.Config)
  : Result config.Config * Reader :=
  match readInput reader with
  | (None, reader) => (Err ReadFailed, reader)
  | (Some input, reader) =>
      if parseYesNo input false then configureWorkerCount reader cfg
      else (Ok (withParallelWorkers cfg 1), reader)
  end.

(** The loop of [configureSkipPatterns] over the pieces of the input. *)
Definition addPattern (patterns : list string) (pattern : string)
  : list string :=
  let trimmed := TrimSpace pattern in
  if negb (isEmpty trimmed) then patterns ++ [trimmed] else patterns.

Definition configureSkipPatterns (reader : Reader) (cfg : config.Config)
  : Result config.Config * Reader :=
  match readInput reader with
  | (None, reader) => (Err ReadFailed, reader)
  | (Some input, reader) =>
      if negb (isEmpty input) then
        let patterns := Split input "," in
        (Ok (withSkipPatterns cfg
               (fold_left addPattern patterns (config.SkipPatterns cfg))),
         reader)
      else (Ok cfg, reader)
  end.

(** Running one step of [collectUserInput] and giving up at its
    error. *)
Definition andThen (r : Result config.Config * Reader)
  (step : Reader → config.Config → Result config.Config * Reader)
  : Result config.Config * Reader :=
  match r with
  | (Ok cfg, reader) => step reader cfg
  | (Err e, reader) => (Err e, reader)
  end.

Definition collectUserInput (reader : Reader) : Result config.Config * Reader :=
  match getTargetURL reader with
  | (Err e, reader) => (Err e, reader)
  | (Ok baseURL, reader) =>
      andThen
        (andThen
           (andThen
              (andThen (configureSitemap reader (config.NewConfig baseURL))
                       configureRobots)
              configureDepth)
           configureParallel)
        configureSkipPatterns
  end.

End Input.

End main.

(* ================================================================== *)
(** ** Web URLs *)
(* ================================================================== *)

(** The URLs a crawl of a web site meets: a host name, possibly with a
    port, and no userinfo.  The predicates are stated on the result of
    [url.Parse]. *)

Module weburl.
Import GoBytes GoStrings.

(** The 256 bytes. *)
Definition allBytes : list ascii :=
  List.map (fun n => ascii_of_N (N.of_nat n)) (List.seq 0 256).

(** A scheme as [Parse] stores it: a letter, then letters, digits,
    [+], [-] and [.], with the letters in lower case. *)
Definition schemeByte (c : ascii) : bool :=
  isLower c || isDigit c || oneOf "+-." c.

Definition validScheme (s : string) : bool :=
  match s with
  | EmptyString => false
  | String c s' => isLower c && all schemeByte s'
  end.

(** The bytes [getScheme] lets into a scheme. *)
Definition rawSchemeByte (c : ascii) : bool :=
  isAlpha c || isDigit c || oneOf "+-." c.

Definition validRawScheme (s : string) : bool :=
  match s with
  | EmptyString => false
  | String c s' => isAlpha c && all rawSchemeByte s'
  end.

(** What [URL.String] writes for the scheme. *)
Definition schemeText (scheme : string) : string :=
  if isEmpty scheme then "" else scheme +:+ ":".

(** Bytes that may stand in the text of a path without ending it. *)
Definition pathClean (c : ascii) : bool :=
  negb ((code c <? 32)%N || (code c =? 127)%N)
  && negb (eqb c "?") && negb (eqb c "#").

(** What a scheme byte is not. *)
Definition schemeByteFacts (c : ascii) : bool :=
  pathClean c && negb (isUpper c) && negb (eqb c ":")
  && (isAlpha c || isDigit c || oneOf "+-." c).

(** Bytes of the text of an authority; of a printed host; of a printed
    user name or password. *)
Definition authClean (c : ascii) : bool := pathClean c && negb (eqb c "/").

Definition hostTextByte (c : ascii) : bool := authClean c && negb (eqb c "@").

Definition userTextByte (c : ascii) : bool :=
  authClean c && negb (eqb c "@") && negb (eqb c ":")
  && (isAlnum c || oneOf "-._:~!$&'()*+,;=%@" c).

(** The bytes a host returned by [Parse] is made of: those left alone
    in a host, and those that are written escaped there, [%] and the
    bytes from 0x80 on. *)
Definition parsedHostByte (c : ascii) : bool :=
  negb (GoURL.shouldEscape c GoURL.encodeHost)
  || (128 <=? code c)%N || eqb c "%".

Definition single (c : ascii) : string := String c "".

(** Escaping one byte and unescaping the result gives the byte back. *)
Definition roundTrips (mode : GoURL.encoding) (c : ascii) : bool :=
  GoURL.unescapeOK mode (GoURL.escape (single c) mode)
  && String.eqb (GoURL.unescapeDecode mode (GoURL.escape (single c) mode))
                (single c).

(** What [URL.String] writes between [//] and the path. *)
Definition authorityText (user : option GoURL.Userinfo) (host : string)
  : string :=
  match user with
  | Some ui => GoURL.UserinfoString ui +:+ "@"
  | None => ""
  end +:+ GoURL.escape host GoURL.encodeHost.

Definition rawSchemeByteFacts (c : ascii) : bool :=
  schemeByte (lower c) && negb (eqb c "/") && negb (eqb c ":")
  && implb (isAlpha c) (isLower (lower c)).

Ltac bools :=
  repeat match goal with
         | H : _ && _ = true |- _ => apply andb_true_iff in H as [? ?]
         | H : negb _ = true |- _ => apply negb_true_iff in H
         | H : _ || _ = false |- _ => apply orb_false_iff in H as [? ?]
         end.

End weburl.

(* ================================================================== *)
(** ** Invariants of the two scheduling loops *)
(* ================================================================== *)

Module safety.
Import models utils services.

Section Invariants.

Context {Browser : Type}.
Variable ToLower : string → string.
Variable cfg : config.Config.

(** The normal form under which the scheduler marks an entry of the
    capture history. *)
Definition identity (e : string * Z) : string := NormalizeURL e.1.

(** A history of capture calls is sound for a session entered with the
    visited set [visited0]: each URL captured has its normal form in
    the visited set now and had it outside [visited0], no two share a
    normal form, none was dequeued deeper than [MaxDepth], none matches
    a skip pattern. *)
Record SoundHistory (visited0 : gmap string bool) (cs : CrawlSession)
  (history : list (string * Z)) : Prop := mkSound {
  sound_grows : ∀ x, readBool visited0 x = true → IsVisited cs x = true;
  sound_marked : ∀ e, e ∈ history → IsVisited cs (identity e) = true;
  sound_fresh : ∀ e, e ∈ history → readBool visited0 (identity e) = false;
  sound_once : NoDup (identity <$> history);
  sound_depth : ∀ e, e ∈ history → (e.2 ≤ config.MaxDepth cfg)%Z;
  sound_noskip : ∀ e, e ∈ history →
                 ShouldSkipURL ToLower e.1 (config.SkipPatterns cfg) = false
}.

(** The entry a task was dispatched with, and the entries of the tasks
    whose capture call has been made. *)
Definition entry (t : Task) : string * Z := (pageURL t, pageDepth t).

Definition hasCaptured (t : Task) : bool :=
  match pc t with
  | AwaitSlot | Capturing => false
  | Sending _ | Extracting _ | Adding _ | Finished => true
  end.

Definition capturedEntries (ts : list Task) : list (string * Z) :=
  entry <$> List.filter hasCaptured ts.

(** Invariant of the parallel scheduler: the dispatched tasks form a
    sound history, the capture calls made are those of the tasks past
    their capture, and a task adds links only below [MaxDepth]. *)
Record ParInvariant (visited0 : gmap string bool) (p : @Par Browser)
  : Prop := mkParInv {
  par_sound : SoundHistory visited0 (psession p) (entry <$> tasks p);
  par_log : pcaptures p ≡ₚ capturedEntries (tasks p);
  par_adding : ∀ t links, t ∈ tasks p → pc t = Adding links →
               (pageDepth t < config.MaxDepth cfg)%Z
}.

(** Where a URL of the queue or of the capture history comes from: the
    queue the loop was entered with, or a link that
    [addNewLinksToQueue] found valid for the base URL. *)
Definition fromSite (queue0 : list string) (u : string) : Prop :=
  u ∈ queue0 ∨ IsValidURL ToLower u (config.BaseURL cfg) = true.

(** What [IsValidURL] accepts is on the site: it parses, and to the
    host and the scheme of the base URL. *)
Definition sameSite (u : string) : Prop :=
  ∃ pu pb, GoURL.Parse u = Some pu
           ∧ GoURL.Parse (config.BaseURL cfg) = Some pb
           ∧ GoURL.Host pu = GoURL.Host pb
           ∧ GoURL.Scheme pu = GoURL.Scheme pb.

(** The loops leave the existing set as they found it, queue only
    URLs of the site, and capture only such URLs, none of them
    existing under its normal form. *)
Record Provenance (cs0 cs : CrawlSession) (history : list (string * Z))
  : Prop := mkProv {
  prov_existing : existingURLs cs = existingURLs cs0;
  prov_queue : ∀ u, u ∈ urlQueue cs → fromSite (urlQueue cs0) u;
  prov_history : ∀ e, e ∈ history →
                 fromSite (urlQueue cs0) e.1
                 ∧ IsExisting cs0 (identity e) = false
}.

Record ParProvenance (cs0 : CrawlSession) (p : @Par Browser) : Prop :=
  mkParProv {
  pprov_session : Provenance cs0 (psession p) (entry <$> tasks p);
  pprov_log : ∀ e, e ∈ pcaptures p → e ∈ entry <$> tasks p
}.

(** The results of capture calls that have not reached the session
    yet: those a worker is about to send and those in the channel. *)
Definition isSending (t : Task) : bool :=
  match pc t with Sending _ => true | _ => false end.

Definition inFlight (p : @Par Browser) : nat :=
  length (List.filter isSending (tasks p)) + length (resultsChan p).

(** The result a worker holds at [resultsChan <- result], and those
    of all workers. *)
Definition pending (t : Task) : list ScreenshotResult :=
  match pc t with Sending result => [result] | _ => [] end.

Definition sending (ts : list Task) : list ScreenshotResult :=
  flat_map pending ts.

(** Invariant of the parallel scheduler on its resources: the
    semaphore and the channel stay within their capacities, and every
    capture call accounts for one result, in flight or in the
    session. *)
Record ParResources (results0 : nat) (p : @Par Browser) : Prop := mkParRes {
  res_slots : (slotsHeld (tasks p) ≤ Z.max 0 (config.ParallelWorkers cfg))%Z;
  res_chan : (length (resultsChan p) ≤ resultsChanCap)%nat;
  res_results : (length (results (psession p)) + inFlight p
                 = results0 + length (pcaptures p))%nat
}.

(** The normal forms in [universe] that are not visited yet. *)
Definition unvisited (universe : gset string) (cs : CrawlSession)
  : gset string :=
  filter (fun x => IsVisited cs x = false) universe.

End Invariants.

End safety.

(* ================================================================== *)
(** ** Concrete configurations used to exercise the model *)
(* ================================================================== *)

Module examples.
Import models.

Definition shot (url : string) (ok : bool) (size : Z) : ScreenshotResult :=
  mkResult url "page.png" ok (if ok then "" else "timeout") 0 size 10.

Definition cfg : config.Config := config.NewConfig "https://example.com".

(** A session that captured two pages and failed on a third. *)
Definition ranSession : CrawlSession :=
  AddResult
    (AddResult
       (AddResult (NewCrawlSession "https://example.com" 0)
                  (shot "https://example.com" true 2048))
       (shot "https://example.com/about" true 1025))
    (shot "https://example.com/slow" false 0).

Definition previousReport : Report :=
  report.GenerateReport cfg
    (AddResult (NewCrawlSession "https://example.com" 0)
               (shot "https://example.com/old" true 4096))
    None 0.

(** A session in which [/about] has been visited, under its normal
    form as the scheduler marks it. *)
Definition visitedAbout : CrawlSession :=
  MarkVisited (NewCrawlSession "https://example.com" 0)
              (utils.NormalizeURL "https://example.com/about/").

(** A two-page site: the root links to [/about]; every capture
    succeeds.  The browser has no state of its own. *)
Definition siteCapture (b : unit) (url : string) : ScreenshotResult * unit :=
  (shot url true 1024, b).

Definition siteLinks (b : unit) (url : string)
  : option (list string) * unit :=
  (Some (if String.eqb url "https://example.com"
         then ["https://example.com/about"] else []), b).

Definition lower : string → string := GoStrings.ToLowerASCII.

(** The session as [CrawlWebsite] hands it to either loop. *)
Definition seeded : CrawlSession :=
  services.seedSession cfg (NewCrawlSession "https://example.com" 0).

Definition seqStart : @services.App unit := services.mkApp seeded tt [].

Definition parStart : @services.Par unit := services.parStart seeded tt.

(** The dispatcher dequeues the root, finds the queue empty on its next
    round and leaves the loop; the worker then captures the root and
    enqueues [/about]; the dispatcher returns. *)
Definition earlyExit : list services.Actor :=
  [ services.TheDispatcher; services.TheDispatcher;
    services.Worker 0; services.Worker 0; services.Worker 0;
    services.Worker 0; services.Worker 0; services.Worker 0;
    services.TheDispatcher ].

(** A queue holding one URL under [/wp-admin], queued at the given
    depth. *)
Definition adminQueued (depth : Z) : CrawlSession :=
  AddURL (NewCrawlSession "https://example.com" 0)
         "https://example.com/wp-admin/login" depth.

(** The session [CrawlWebsite] starts from when the sitemap lists
    [/wp-admin/login]: [DiscoverURLs] queues it at depth 1, then the
    root is enqueued. *)
Definition adminDiscovered : CrawlSession :=
  services.seedSession cfg
    (services.DiscoverURLs (NewCrawlSession "https://example.com" 0)
                           [ "https://example.com/wp-admin/login" ]).

(** A run of the parallel loop to its end with every task and every
    result handled: the dispatcher takes the first two entries, the
    worker of the root runs to its return and enqueues [/about], the
    dispatcher launches [/about], its worker runs to its return, the
    dispatcher finds the queue empty, the results are collected, and
    the dispatcher returns. *)
Definition fullSchedule : list services.Actor :=
  [ services.TheDispatcher; services.TheDispatcher;
    services.Worker 0; services.Worker 0; services.Worker 0;
    services.Worker 0; services.Worker 0; services.Worker 0;
    services.TheDispatcher;
    services.Worker 1; services.Worker 1; services.Worker 1;
    services.Worker 1; services.Worker 1;
    services.TheDispatcher;
    services.Collector; services.Collector;
    services.TheDispatcher ].

(** A report as [LoadExistingReport] can read it from [report.json]:
    two successful entries of 2^62 bytes each. *)
Definition hugeReport : Report :=
  mkReport "https://example.com" 2 2 0 0 None 2 20 (2 ^ 62)
    [ shot "https://example.com/a" true (2 ^ 62);
      shot "https://example.com/b" true (2 ^ 62) ].

(** The two-page site with a renderer whose state is the list of the
    results it has returned. *)
Definition loggedCapture (b : list ScreenshotResult) (url : string)
  : ScreenshotResult * list ScreenshotResult :=
  let result := shot url true 1024 in (result, b ++ [result]).

Definition loggedLinks (b : list ScreenshotResult) (url : string)
  : option (list string) * list ScreenshotResult :=
  ((siteLinks tt url).1, b).

End examples.

(** Answers typed at the prompts of [collectUserInput].  The lines are
    ASCII, on which [strings.TrimSpace] trims the six bytes below and
    [strings.ToLower] is [ToLowerASCII]. *)
Module inputs.
Import GoBytes GoStrings.

Definition nl : string := String "010" "".

Definition isSpace (c : ascii) : bool :=
  oneOf (String "009" (String "010" (String "011" (String "012"
           (String "013" (String " " ""))))))
        c.

Fixpoint trimLeft (s : string) : string :=
  match s with
  | EmptyString => EmptyString
  | String c s' => if isSpace c then trimLeft s' else s
  end.

Fixpoint trimRight (s : string) : string :=
  match s with
  | EmptyString => EmptyString
  | String c s' =>
      match trimRight s' with
      | EmptyString => if isSpace c then EmptyString else String c EmptyString
      | t => String c t
      end
  end.

Definition TrimSpace (s : string) : string := trimLeft (trimRight s).

Definition collect : main.Reader → main.Result config.Config * main.Reader :=
  main.collectUserInput TrimSpace ToLowerASCII.

(** A site, sitemap yes, robots by default, depth 3, four workers, two
    more patterns to skip. *)
Definition answers : main.Reader :=
  [ " example.com/docs " +:+ nl; "Y" +:+ nl; nl; "3" +:+ nl; "yes" +:+ nl;
    "4" +:+ nl; "/login, ,/logout," +:+ nl ].

(** The configuration those answers give. *)
Definition configured : config.Config :=
  main.withSkipPatterns
    (main.withParallelWorkers
       (main.withMaxDepth (config.NewConfig "https://example.com/docs") 3) 4)
    [ "/wp-admin"; "/login"; "/logout" ].

End inputs.

(* ================================================================== *)
(** ** Properties *)
(* ================================================================== *)

(** *** The normaliser on unparseable input *)

Section Unparseable.
Import models utils.

(** C10. [NormalizeURL] is a total function; on every string that
    [url.Parse] rejects it returns the string itself, so that looking
    such a URL up in the visited or the existing set by its normal
    form is looking it up by the string. *)
Theorem NormalizeURL_unparseable_identity (urlStr : string) :
  GoURL.Parse urlStr = None →
  NormalizeURL urlStr = urlStr
  ∧ ∀ cs : CrawlSession,
      IsVisited cs (NormalizeURL urlStr) = IsVisited cs urlStr
      ∧ IsExisting cs (NormalizeURL urlStr) = IsExisting cs urlStr.
Proof.
  intros Hparse.
  assert (Hid : NormalizeURL urlStr = urlStr)
    by (unfold NormalizeURL; now rewrite Hparse).
  split; [exact Hid|]. intros cs. now rewrite Hid.
Qed.

Lemma NormalizeURL_unparseable_identity_witness :
  GoURL.Parse "http://exa mple.com/%zz" = None
  ∧ NormalizeURL "http://exa mple.com/%zz" = "http://exa mple.com/%zz".
Proof.
  split; [vm_compute; reflexivity|].
  apply (NormalizeURL_unparseable_identity "http://exa mple.com/%zz").
  vm_compute; reflexivity.
Defined.

End Unparseable.

(** *** The report merger *)

Section ReportMerge.
Import models report.

(** C7. Without a previous report the merged list is this run's
    results; with one it is the previous list followed by this run's
    results, nothing removed; the new-pages count is the length of this
    run's results. *)
Theorem GenerateReport_merge (cfg : config.Config) (session : CrawlSession)
  (previous : Report) (timestamp : Z) :
  Results (GenerateReport cfg session None timestamp) = GetResults session
  ∧ Results (GenerateReport cfg session (Some previous) timestamp)
    = Results previous ++ GetResults session
  ∧ NewPagesInThisRun (GenerateReport cfg session None timestamp)
    = Z.of_nat (length (GetResults session))
  ∧ NewPagesInThisRun (GenerateReport cfg session (Some previous) timestamp)
    = Z.of_nat (length (GetResults session)).
Proof. repeat split. Qed.

Lemma wrap64_idemp_add (a b : Z) : wrap64 (wrap64 a + b) = wrap64 (a + b).
Proof.
  unfold wrap64.
  replace ((a + 2 ^ 63) `mod` 2 ^ 64 - 2 ^ 63 + b + 2 ^ 63)%Z
    with ((a + 2 ^ 63) `mod` 2 ^ 64 + b)%Z by lia.
  rewrite Zplus_mod_idemp_l. f_equal. f_equal. lia.
Qed.

Lemma wrap64_small (z : Z) : (- 2 ^ 63 ≤ z < 2 ^ 63)%Z → wrap64 z = z.
Proof. intros H. unfold wrap64. rewrite Z.mod_small; lia. Qed.

Lemma fold_accumulate (rs : list ScreenshotResult) (t : Totals) (x : Z) :
  totalFileSize t = wrap64 x →
  successCount (fold_left accumulate rs t) = (successCount t + successes rs)%Z
  ∧ totalFileSize (fold_left accumulate rs t)
    = wrap64 (x + successfulBytes rs).
Proof.
  revert t x. induction rs as [|r rs IH]; intros t x Hx; simpl.
  - unfold successes; simpl. rewrite Hx. split; [lia | f_equal; lia].
  - destruct (Success r) eqn:Hr.
    + destruct (IH (accumulate t r) (x + FileSize r)%Z) as [IH1 IH2].
      { unfold accumulate; simpl. rewrite Hr, Hx. apply wrap64_idemp_add. }
      rewrite IH1, IH2. unfold accumulate at 1; simpl. rewrite Hr.
      unfold successes; simpl. rewrite Hr; simpl.
      split; [lia | f_equal; lia].
    + destruct (IH (accumulate t r) x) as [IH1 IH2].
      { unfold accumulate; simpl. now rewrite Hr. }
      rewrite IH1, IH2. unfold accumulate at 1; simpl. rewrite Hr.
      unfold successes; simpl. rewrite Hr. split; reflexivity.
Qed.

(** C8, as the code has it. The average page size is the truncating
    quotient of the [int64] total of the successful sizes by the number
    of successful entries, and 0 when there is none; multiplied back by
    that number it misses the [int64] total by less than the number,
    and is 0 when the number is 0.  The [int64] total is the total
    successful byte size whenever that sum fits [int64]; otherwise it
    is that sum wrapped around. *)
Theorem GenerateReport_average (cfg : config.Config) (session : CrawlSession)
  (previous : option Report) (timestamp : Z) :
  let rep := GenerateReport cfg session previous timestamp in
  let n := successes (Results rep) in
  let total := wrap64 (successfulBytes (Results rep)) in
  SuccessfulScreenshots rep = n
  ∧ (n = 0 → AveragePageSize rep = 0)%Z
  ∧ (0 < n → AveragePageSize rep = Z.quot total n)%Z
  ∧ (Z.abs (total - AveragePageSize rep * n) < Z.max n 1)%Z
  ∧ (n = 0 → AveragePageSize rep * n = 0)%Z
  ∧ ((- 2 ^ 63 ≤ successfulBytes (Results rep) < 2 ^ 63)%Z →
     total = successfulBytes (Results rep)).
Proof.
  intros rep n total.
  destruct (fold_accumulate (Results rep) (mkTotals 0 0 0 0) 0 eq_refl)
    as [Hc Hs].
  change (fold_left accumulate (Results rep) (mkTotals 0 0 0 0))
    with (totals (Results rep)) in Hc, Hs.
  change (successCount (mkTotals 0 0 0 0)) with 0%Z in Hc.
  rewrite Z.add_0_l in Hc, Hs. fold n in Hc. fold total in Hs.
  assert (Hn : (0 ≤ n)%Z) by (unfold n, successes; lia).
  assert (Hcount : SuccessfulScreenshots rep = n) by exact Hc.
  assert (Havg : AveragePageSize rep
                 = if (n >? 0)%Z then Z.quot total n else 0%Z).
  { rewrite <- Hc, <- Hs. reflexivity. }
  split; [exact Hcount|].
  split; [intros ->; now rewrite Havg|].
  split; [intros Hpos; rewrite Havg;
          destruct (Z.gtb_spec n 0); [reflexivity|lia]|].
  split.
  - rewrite Havg. destruct (Z.gtb_spec n 0) as [Hpos|Hz].
    + pose proof (Z.quot_rem' total n) as Hqr.
      pose proof (Z.rem_bound_abs total n ltac:(lia)) as Hb.
      replace (total - total ÷ n * n)%Z with (Z.rem total n) by lia.
      lia.
    + assert (n = 0%Z) as Hn0 by lia.
      assert (successfulBytes (Results rep) = 0%Z) as Hz0.
      { clear -Hn0. unfold n, successes in Hn0.
        induction (Results rep) as [|r rs IH]; simpl in *; [reflexivity|].
        destruct (Success r); simpl in *; [lia | auto]. }
      unfold total. rewrite Hz0, Hn0. vm_compute. reflexivity.
  - split; [intros ->; lia|]. intros Hfit. unfold total. now apply wrap64_small.
Qed.

Lemma GenerateReport_average_witness :
  AveragePageSize
    (GenerateReport examples.cfg examples.ranSession
       (Some examples.previousReport) 0) = 2389%Z.
Proof.
  destruct (GenerateReport_average examples.cfg examples.ranSession
              (Some examples.previousReport) 0)
    as (_ & _ & Havg & _ & _ & Hfit).
  rewrite Havg; [|vm_compute; reflexivity].
  rewrite Hfit; [vm_compute; reflexivity|].
  vm_compute. split; [discriminate | reflexivity].
Defined.

(** C8 as stated fails. A report loaded from [report.json] with two
    successful entries of 2^62 bytes each: the accumulator wraps to
    -2^63, the average is -2^62, not 2^62, and multiplied back by the
    count it misses the total successful byte size by 2^64. *)
Lemma AveragePageSize_wraps :
  ¬ (∀ (cfg : config.Config) (session : CrawlSession)
       (previous : option Report) (timestamp : Z),
       let rep := GenerateReport cfg session previous timestamp in
       let n := successes (Results rep) in
       (0 < n)%Z →
       (Z.abs (successfulBytes (Results rep) - AveragePageSize rep * n)
        < n)%Z).
Proof.
  intros H.
  specialize (H examples.cfg (NewCrawlSession "https://example.com" 0)
                (Some examples.hugeReport) 0%Z).
  cbv zeta in H. vm_compute in H. specialize (H eq_refl). discriminate H.
Qed.

End ReportMerge.

(** *** The frontier *)

Section Frontier.
Import models utils.

Lemma AddURL_visited cs url depth : visitedURLs (AddURL cs url depth) = visitedURLs cs.
Proof. unfold AddURL. now destruct (_ && _). Qed.

Lemma AddURL_existing cs url depth :
  existingURLs (AddURL cs url depth) = existingURLs cs.
Proof. unfold AddURL. now destruct (_ && _). Qed.

Lemma AddURL_results cs url depth : results (AddURL cs url depth) = results cs.
Proof. unfold AddURL. now destruct (_ && _). Qed.

Lemma AddURL_accepted cs url depth :
  IsVisited cs url = false → IsExisting cs url = false →
  urlQueue (AddURL cs url depth) = urlQueue cs ++ [url]
  ∧ depthMap (AddURL cs url depth) = <[url := depth]> (depthMap cs).
Proof.
  unfold IsVisited, IsExisting, AddURL. intros -> ->. simpl. now split.
Qed.

Lemma AddURL_rejected cs url depth :
  IsVisited cs url = true ∨ IsExisting cs url = true →
  AddURL cs url depth = cs.
Proof.
  unfold IsVisited, IsExisting, AddURL. intros [-> | ->]; simpl;
    [reflexivity | now rewrite andb_false_r].
Qed.

(** The queue only grows under [AddURL], by at most the given string. *)
Lemma AddURL_queue cs url depth :
  urlQueue (AddURL cs url depth) = urlQueue cs
  ∨ (urlQueue (AddURL cs url depth) = urlQueue cs ++ [url]
     ∧ IsVisited cs url = false ∧ IsExisting cs url = false).
Proof.
  unfold AddURL, IsVisited, IsExisting.
  destruct (readBool (visitedURLs cs) url), (readBool (existingURLs cs) url);
    simpl; auto.
Qed.

(** C4, as the code has it. The depth handed out with a dequeued URL is
    the one stored by the most recent accepted [AddURL] of that string:
    after enqueueing [url] at [d1], anything else, and [url] again at
    [d2], every dequeue of [url] returns [d2]. *)
Theorem AddURL_last_depth_wins (cs : CrawlSession) (url : string)
  (d1 d2 : Z) (between : list (string * Z)) (n : nat) :
  IsVisited cs url = false → IsExisting cs url = false →
  let cs' := AddURL (enqueueMany (AddURL cs url d1) between) url d2 in
  readInt (depthMap cs') url = d2
  ∧ ∀ u d, (u, d) ∈ dequeueMany n cs' → u = url → d = d2.
Proof.
  intros Hv He cs'.
  assert (Hmany : ∀ es c, visitedURLs (enqueueMany c es) = visitedURLs c
                          ∧ existingURLs (enqueueMany c es) = existingURLs c).
  { induction es as [|e es IH]; intros c; simpl; [now split|].
    destruct (IH (AddURL c e.1 e.2)) as [-> ->].
    now rewrite AddURL_visited, AddURL_existing. }
  assert (Hd : readInt (depthMap cs') url = d2).
  { unfold cs'. destruct (Hmany between (AddURL cs url d1)) as [Hv' He'].
    destruct (AddURL_accepted (enqueueMany (AddURL cs url d1) between) url d2)
      as [_ ->].
    - unfold IsVisited. rewrite Hv', AddURL_visited. exact Hv.
    - unfold IsExisting. rewrite He', AddURL_existing. exact He.
    - unfold readInt. now rewrite lookup_insert_eq. }
  split; [exact Hd|].
  assert (Hdq : ∀ k c u d, (u, d) ∈ dequeueMany k c →
                           d = readInt (depthMap c) u).
  { induction k as [|k IH]; intros c u d; simpl; [now rewrite elem_of_nil|].
    unfold GetNextURL. destruct (urlQueue c) as [|x q] eqn:Hq; simpl;
      [now rewrite elem_of_nil|].
    rewrite elem_of_cons. intros [Heq | Hin].
    - now inversion Heq.
    - now apply IH in Hin. }
  intros u d Hin ->. apply Hdq in Hin. now rewrite Hin.
Qed.

Lemma AddURL_last_depth_wins_witness :
  let cs := NewCrawlSession "https://example.com" 0 in
  let a := "https://example.com/a" in
  IsVisited cs a = false ∧ IsExisting cs a = false
  ∧ readInt
      (depthMap (AddURL (enqueueMany (AddURL cs a 1)
                                     [("https://example.com/b", 1%Z)]) a 2))
      a = 2%Z.
Proof.
  split; [vm_compute; reflexivity|]. split; [vm_compute; reflexivity|].
  apply (AddURL_last_depth_wins (NewCrawlSession "https://example.com" 0)
           "https://example.com/a" 1 2 [("https://example.com/b", 1%Z)] 0);
    vm_compute; reflexivity.
Defined.

(** C4 as stated fails: a URL enqueued at depth 1 and again at depth 3
    is dequeued at depth 3. *)
Lemma first_depth_does_not_win :
  ¬ (∀ (cs : CrawlSession) (url : string) (d1 d2 : Z),
       IsVisited cs url = false → IsExisting cs url = false →
       ∀ u d, (u, d) ∈ dequeueMany 1 (AddURL (AddURL cs url d1) url d2) →
              u = url → d = d1).
Proof.
  intros H.
  specialize (H (NewCrawlSession "https://example.com" 0)
                "https://example.com/a" 1%Z 3%Z eq_refl eq_refl
                "https://example.com/a" 3%Z).
  assert (3 = 1)%Z as Habs; [|discriminate Habs].
  apply H; [|reflexivity]. vm_compute. apply list_elem_of_here.
Qed.

(** C2 as stated fails: with the normal form of [/about/] visited,
    [AddURL] still enqueues the string [/about/]. *)
Lemma AddURL_does_not_normalize :
  ¬ (∀ (cs : CrawlSession) (url : string) (depth : Z),
       IsVisited cs (NormalizeURL url) = true
       ∨ IsExisting cs (NormalizeURL url) = true →
       AddURL cs url depth = cs).
Proof.
  intros H.
  specialize (H examples.visitedAbout "https://example.com/about/" 1%Z).
  assert (urlQueue (AddURL examples.visitedAbout
                           "https://example.com/about/" 1)
          = urlQueue examples.visitedAbout) as Habs.
  { rewrite H; [reflexivity|]. left. vm_compute. reflexivity. }
  vm_compute in Habs. discriminate Habs.
Qed.

End Frontier.

Section Enqueue.
Import models utils services.

Variable ToLower : string → string.
Variable cfg : config.Config.

Lemma addLink_sets cs link depth :
  visitedURLs (addLink ToLower cfg cs link depth) = visitedURLs cs
  ∧ existingURLs (addLink ToLower cfg cs link depth) = existingURLs cs
  ∧ results (addLink ToLower cfg cs link depth) = results cs.
Proof.
  unfold addLink.
  repeat match goal with |- context [if ?b then _ else _] => destruct b end;
    rewrite ?AddURL_visited, ?AddURL_existing, ?AddURL_results; auto.
Qed.

Lemma addNewLinksToQueue_sets links : ∀ cs depth,
  visitedURLs (addNewLinksToQueue ToLower cfg cs links depth) = visitedURLs cs
  ∧ existingURLs (addNewLinksToQueue ToLower cfg cs links depth)
    = existingURLs cs
  ∧ results (addNewLinksToQueue ToLower cfg cs links depth) = results cs.
Proof.
  induction links as [|l links IH]; intros cs depth; simpl; [auto|].
  destruct (IH (addLink ToLower cfg cs l depth) depth) as (-> & -> & ->).
  apply addLink_sets.
Qed.

(** What [addLink] appends, and under which tests. *)
Lemma addLink_queue cs link depth :
  addLink ToLower cfg cs link depth = cs
  ∨ ∃ u, urlQueue (addLink ToLower cfg cs link depth) = urlQueue cs ++ [u]
         ∧ depthMap (addLink ToLower cfg cs link depth)
           = <[u := depth]> (depthMap cs)
         ∧ u = FixRelativeURL link (config.BaseURL cfg)
         ∧ IsVisited cs (NormalizeURL u) = false
         ∧ IsExisting cs (NormalizeURL u) = false
         ∧ IsVisited cs u = false ∧ IsExisting cs u = false
         ∧ ShouldSkipURL ToLower u (config.SkipPatterns cfg) = false.
Proof.
  unfold addLink.
  destruct (IsValidURL _ _ _); [|now left].
  destruct (IsVisited cs (NormalizeURL _)) eqn:Hv; [now left|].
  destruct (IsExisting cs (NormalizeURL _)) eqn:He; [now left|].
  destruct (ShouldSkipURL _ _ _) eqn:Hs; [now left|]. simpl.
  destruct (IsVisited cs (FixRelativeURL link (config.BaseURL cfg))) eqn:Hv';
    [left; apply AddURL_rejected; now left|].
  destruct (IsExisting cs (FixRelativeURL link (config.BaseURL cfg))) eqn:He';
    [left; apply AddURL_rejected; now right|].
  right. eexists. destruct (AddURL_accepted cs _ depth Hv' He') as [-> ->].
  repeat split; auto.
Qed.

(** Every string [addNewLinksToQueue] appends is stored at the depth
    it was called with. *)
Lemma addNewLinksToQueue_depths links depth : ∀ cs,
  ∃ added,
    urlQueue (addNewLinksToQueue ToLower cfg cs links depth)
    = urlQueue cs ++ added
    ∧ (∀ u, u ∈ added →
         depthMap (addNewLinksToQueue ToLower cfg cs links depth) !! u
         = Some depth)
    ∧ (∀ u, depthMap cs !! u = Some depth →
         depthMap (addNewLinksToQueue ToLower cfg cs links depth) !! u
         = Some depth).
Proof.
  induction links as [|l links IH]; intros cs; simpl.
  - exists []. rewrite app_nil_r. split; [reflexivity|]. split; [|auto].
    intros u Hu. now apply elem_of_nil in Hu.
  - destruct (IH (addLink ToLower cfg cs l depth)) as (added & Hq & Hin & Hkeep).
    destruct (addLink_queue cs l depth) as [Hno | (u & Hu & Hd & _)].
    + rewrite Hno in Hq, Hin, Hkeep. exists added. rewrite Hno. auto.
    + exists (u :: added). rewrite Hq, Hu, <- app_assoc.
      split; [reflexivity|]. split.
      * intros v Hv. apply elem_of_cons in Hv as [-> | Hv]; [|now apply Hin].
        apply Hkeep. rewrite Hd. apply lookup_insert_eq.
      * intros v Hv. apply Hkeep. rewrite Hd, lookup_insert.
        destruct (decide (u = v)); [reflexivity | exact Hv].
Qed.

(** C2, as the code has it. [AddURL] tests the URL string it is given,
    not its normal form: it leaves the session alone when that string
    is visited or existing, and otherwise appends the string to the
    queue and stores its depth.  The normal form is tested by the
    caller: every string [addNewLinksToQueue] appends has, besides
    itself, its normal form in neither set, and matches no skip
    pattern. *)
Theorem AddURL_membership_by_string (cs : CrawlSession) (url : string)
  (depth : Z) (links : list string) :
  (IsVisited cs url = true ∨ IsExisting cs url = true →
   AddURL cs url depth = cs)
  ∧ (IsVisited cs url = false → IsExisting cs url = false →
     urlQueue (AddURL cs url depth) = urlQueue cs ++ [url]
     ∧ depthMap (AddURL cs url depth) = <[url := depth]> (depthMap cs)
     ∧ visitedURLs (AddURL cs url depth) = visitedURLs cs
     ∧ existingURLs (AddURL cs url depth) = existingURLs cs)
  ∧ ∃ added,
      urlQueue (addNewLinksToQueue ToLower cfg cs links depth)
      = urlQueue cs ++ added
      ∧ ∀ u, u ∈ added →
          IsVisited cs (NormalizeURL u) = false
          ∧ IsExisting cs (NormalizeURL u) = false
          ∧ IsVisited cs u = false ∧ IsExisting cs u = false
          ∧ ShouldSkipURL ToLower u (config.SkipPatterns cfg) = false.
Proof.
  split; [apply AddURL_rejected|].
  split.
  { intros Hv He. destruct (AddURL_accepted cs url depth Hv He) as [-> ->].
    now rewrite AddURL_visited, AddURL_existing. }
  revert cs. induction links as [|l links IH]; intros cs; simpl.
  - exists []. rewrite app_nil_r. split; [reflexivity|].
    intros u Hu. now apply elem_of_nil in Hu.
  - destruct (IH (addLink ToLower cfg cs l depth)) as (added & Hq & Hadded).
    destruct (addLink_sets cs l depth) as (Hvis & Hex & _).
    assert (Hsame : ∀ u, IsVisited (addLink ToLower cfg cs l depth) u
                         = IsVisited cs u
                         ∧ IsExisting (addLink ToLower cfg cs l depth) u
                           = IsExisting cs u).
    { intros u. unfold IsVisited, IsExisting. now rewrite Hvis, Hex. }
    assert (Htail : ∀ u, u ∈ added →
              IsVisited cs (NormalizeURL u) = false
              ∧ IsExisting cs (NormalizeURL u) = false
              ∧ IsVisited cs u = false ∧ IsExisting cs u = false
              ∧ ShouldSkipURL ToLower u (config.SkipPatterns cfg) = false).
    { intros u Hu. destruct (Hadded u Hu) as (H1 & H2 & H3 & H4 & H5).
      destruct (Hsame u) as [E1 E2].
      destruct (Hsame (NormalizeURL u)) as [E3 E4].
      rewrite <- E1, <- E2, <- E3, <- E4. auto. }
    destruct (addLink_queue cs l depth) as [Hno | (u & Hu & _ & _ & Hfresh)].
    + exists added. rewrite Hq, Hno. split; [reflexivity | exact Htail].
    + exists (u :: added). rewrite Hq, Hu, <- app_assoc. split; [reflexivity|].
      intros v Hv. apply elem_of_cons in Hv as [-> | Hv]; [|now apply Htail].
      tauto.
Qed.

End Enqueue.

(** *** Invariance of the capture history *)

Section History.
Import models utils services safety.

Context {Browser : Type}.
Variable ToLower : string → string.
Variable CaptureScreenshot : Browser → string → ScreenshotResult * Browser.
Variable ExtractLinks : Browser → string → option (list string) * Browser.
Variable cfg : config.Config.

Local Abbreviation Sound := (SoundHistory ToLower cfg).
Local Abbreviation seqIter :=
  (sequentialIteration ToLower CaptureScreenshot ExtractLinks cfg).
Local Abbreviation seqRun :=
  (runSequentialCrawl ToLower CaptureScreenshot ExtractLinks cfg).
Local Abbreviation ParInv := (@ParInvariant Browser ToLower cfg).
Local Abbreviation step :=
  (parStep ToLower CaptureScreenshot ExtractLinks cfg).
Local Abbreviation run :=
  (parRun ToLower CaptureScreenshot ExtractLinks cfg).

Lemma IsVisited_MarkVisited cs k x :
  IsVisited (MarkVisited cs k) x
  = if decide (k = x) then true else IsVisited cs x.
Proof.
  unfold IsVisited, MarkVisited, readBool; simpl.
  rewrite lookup_insert. now destruct (decide (k = x)).
Qed.

Lemma GetNextURL_spec cs :
  match urlQueue cs with
  | [] => GetNextURL cs = (("", 0%Z, false), cs)
  | url :: rest =>
      ∃ cs', GetNextURL cs = ((url, readInt (depthMap cs) url, true), cs')
             ∧ urlQueue cs' = rest
             ∧ visitedURLs cs' = visitedURLs cs
             ∧ existingURLs cs' = existingURLs cs
             ∧ depthMap cs' = depthMap cs
             ∧ results cs' = results cs
  end.
Proof.
  unfold GetNextURL. destruct (urlQueue cs); [reflexivity|].
  eexists; repeat split.
Qed.

Lemma Sound_start (cs : CrawlSession) : Sound (visitedURLs cs) cs [].
Proof.
  split; try (intros e He; now apply elem_of_nil in He).
  - auto.
  - constructor.
Qed.

(** The history stays sound when the visited set only grows. *)
Lemma Sound_weaken v0 cs cs' h :
  Sound v0 cs h →
  (∀ x, IsVisited cs x = true → IsVisited cs' x = true) →
  Sound v0 cs' h.
Proof. intros [] Hmono. split; auto. Qed.

(** Marking and recording an eligible entry keeps the history sound. *)
Lemma Sound_dispatch v0 cs cs' h url depth :
  Sound v0 cs h →
  IsVisited cs (NormalizeURL url) = false →
  (depth ≤ config.MaxDepth cfg)%Z →
  ShouldSkipURL ToLower url (config.SkipPatterns cfg) = false →
  (∀ x, IsVisited cs' x = IsVisited (MarkVisited cs (NormalizeURL url)) x) →
  Sound v0 cs' (h ++ [(url, depth)]).
Proof.
  intros [Hg Hm Hf Ho Hd Hs] Hnew Hdepth Hskip Hcs'.
  assert (Hin : ∀ e, e ∈ h ++ [(url, depth)] → e ∈ h ∨ e = (url, depth)).
  { intros e He. apply elem_of_app in He as [He | He]; [now left|].
    apply list_elem_of_singleton in He. now right. }
  split.
  - intros x Hx. rewrite Hcs', IsVisited_MarkVisited.
    destruct (decide _); auto.
  - intros e He. rewrite Hcs', IsVisited_MarkVisited.
    destruct (decide _); [reflexivity|].
    destruct (Hin e He) as [He' | ->]; [auto | now unfold identity in *].
  - intros e He. destruct (Hin e He) as [He' | ->]; [auto|].
    destruct (readBool v0 (identity (url, depth))) eqn:Hv0; [|reflexivity].
    apply Hg in Hv0. unfold identity in Hv0; simpl in Hv0. congruence.
  - rewrite fmap_app. apply NoDup_app. split; [exact Ho|]. split.
    + intros x Hx Hx'. apply list_elem_of_singleton in Hx'. subst x.
      apply list_elem_of_fmap in Hx as (e & Heq & He).
      apply Hm in He. rewrite <- Heq in He.
      unfold identity in He at 1; simpl in He. congruence.
    + apply NoDup_singleton.
  - intros e He. destruct (Hin e He) as [He' | ->]; auto.
  - intros e He. destruct (Hin e He) as [He' | ->]; auto.
Qed.

Lemma IsVisited_addNewLinksToQueue cs links depth x :
  IsVisited (addNewLinksToQueue ToLower cfg cs links depth) x = IsVisited cs x.
Proof.
  unfold IsVisited.
  now destruct (addNewLinksToQueue_sets ToLower cfg links cs depth) as [-> _].
Qed.

(** One round of the sequential loop keeps the history sound. *)
Lemma sequentialIteration_sound v0 a a' :
  seqIter a = Some a' →
  Sound v0 (session a) (captures a) →
  Sound v0 (session a') (captures a').
Proof.
  unfold sequentialIteration. intros Hstep Hinv.
  pose proof (GetNextURL_spec (session a)) as Hnext.
  destruct (urlQueue (session a)) as [|url rest].
  { rewrite Hnext in Hstep. discriminate Hstep. }
  destruct Hnext as (cs & Hnext & _ & Hvis & _).
  rewrite Hnext in Hstep; simpl in Hstep.
  assert (Hsame : ∀ x, IsVisited cs x = IsVisited (session a) x)
    by (intros x; unfold IsVisited; now rewrite Hvis).
  assert (Hcs : Sound v0 cs (captures a)).
  { apply (Sound_weaken _ _ _ _ Hinv). intros x. now rewrite Hsame. }
  assert (Hmark : ∀ k, Sound v0 (MarkVisited cs k) (captures a)).
  { intros k. apply (Sound_weaken _ _ _ _ Hcs). intros x Hx.
    rewrite IsVisited_MarkVisited. now destruct (decide _). }
  set (depth := readInt (depthMap (session a)) url) in *.
  destruct (Z.gtb_spec depth (config.MaxDepth cfg)) as [Hdeep | Hdepth].
  { inversion Hstep; subst a'; exact Hcs. }
  destruct (IsVisited cs (NormalizeURL url)) eqn:Hv.
  { inversion Hstep; subst a'; exact Hcs. }
  destruct (IsExisting cs (NormalizeURL url)).
  { inversion Hstep; subst a'; apply Hmark. }
  destruct (ShouldSkipURL ToLower url (config.SkipPatterns cfg)) eqn:Hskip.
  { inversion Hstep; subst a'; apply Hmark. }
  destruct (CaptureScreenshot (browser a) url) as [result b].
  assert (Hnew : ∀ cs', (∀ x, IsVisited cs' x
                              = IsVisited (MarkVisited cs (NormalizeURL url)) x) →
                        Sound v0 cs' (captures a ++ [(url, depth)])).
  { intros cs'. now apply Sound_dispatch. }
  destruct (Success result && (depth <? config.MaxDepth cfg)%Z).
  - destruct (ExtractLinks b url) as [[links|] b'];
      inversion Hstep; subst a'; simpl; apply Hnew; intros x;
      rewrite ?IsVisited_addNewLinksToQueue; reflexivity.
  - inversion Hstep; subst a'; simpl. apply Hnew. reflexivity.
Qed.

Lemma runSequentialCrawl_sound v0 fuel : ∀ a,
  Sound v0 (session a) (captures a) →
  Sound v0 (session (seqRun fuel a).1) (captures (seqRun fuel a).1).
Proof.
  induction fuel as [|fuel IH]; intros a Hinv; simpl; [exact Hinv|].
  destruct (seqIter a) as [a'|] eqn:Hstep; [|exact Hinv].
  apply IH. now apply (sequentialIteration_sound v0 a a').
Qed.

(** Parallel mode. *)

Lemma capturedEntries_app (l1 l2 : list Task) :
  capturedEntries (l1 ++ l2) = capturedEntries l1 ++ capturedEntries l2.
Proof. unfold capturedEntries. now rewrite List.filter_app, fmap_app. Qed.

Lemma capturedEntries_sublist (ts : list Task) :
  capturedEntries ts `sublist_of` entry <$> ts.
Proof.
  induction ts as [|t ts IH]; [constructor|].
  unfold capturedEntries; simpl. destruct (hasCaptured t); simpl.
  - now apply sublist_skip.
  - now apply sublist_cons.
Qed.

Lemma tasks_split (ts : list Task) i t t' :
  ts !! i = Some t →
  ∃ l1 l2, ts = l1 ++ t :: l2 ∧ <[i := t']> ts = l1 ++ t' :: l2.
Proof.
  intros Hi. exists (take i ts), (drop (S i) ts). split.
  - symmetry. now apply take_drop_middle.
  - apply insert_take_drop. now apply lookup_lt_Some in Hi.
Qed.

(** A worker step replaces task [i] by one with the same entry; it may
    change the session without touching the visited set, and it may
    add the entry to the capture log when the task captures. *)
Lemma worker_update v0 (p : @Par Browser) i t pc' cs' b' log' chan' :
  ParInv v0 p →
  tasks p !! i = Some t →
  (∀ x, IsVisited cs' x = IsVisited (psession p) x) →
  (∀ links, pc' = Adding links → (pageDepth t < config.MaxDepth cfg)%Z) →
  let t' := mkTask (pageURL t) (pageDepth t) pc' in
  (hasCaptured t' = hasCaptured t ∧ log' = pcaptures p)
  ∨ (hasCaptured t = false ∧ hasCaptured t' = true
     ∧ log' = pcaptures p ++ [entry t]) →
  ParInv v0 (mkPar cs' b' log' (<[i := t']> (tasks p)) chan' (dispatcher p)).
Proof.
  intros [Hsound Hlog Hadd] Hi Hvis Hpc t' Hcases.
  destruct (tasks_split (tasks p) i t t' Hi) as (l1 & l2 & Hts & Hins).
  assert (Hentries : entry <$> <[i := t']> (tasks p) = entry <$> tasks p).
  { rewrite Hins, Hts, !fmap_app. reflexivity. }
  split; simpl.
  - rewrite Hentries. apply (Sound_weaken _ _ _ _ Hsound).
    intros x. now rewrite Hvis.
  - rewrite Hins, capturedEntries_app. rewrite Hts, capturedEntries_app in Hlog.
    unfold capturedEntries in *; simpl in *.
    destruct Hcases as [[Hc ->] | (Hc & Hc' & ->)].
    + rewrite Hc. rewrite Hlog. destruct (hasCaptured t); reflexivity.
    + rewrite Hc'. rewrite Hc in Hlog. rewrite Hlog. simpl.
      rewrite <- app_assoc. apply Permutation_app_head.
      change (entry t') with (entry t).
      symmetry. apply Permutation_cons_append.
  - intros t0 links Hin Hpc0. rewrite Hins in Hin.
    apply elem_of_app in Hin as [Hin | Hin].
    + apply (Hadd t0 links); [|exact Hpc0]. rewrite Hts.
      apply elem_of_app. now left.
    + apply elem_of_cons in Hin as [-> | Hin].
      * simpl in Hpc0. now apply (Hpc links).
      * apply (Hadd t0 links); [|exact Hpc0]. rewrite Hts.
        apply elem_of_app. right. now apply list_elem_of_further.
Qed.

Lemma addLink_IsVisited cs link depth x :
  IsVisited (addLink ToLower cfg cs link depth) x = IsVisited cs x.
Proof.
  unfold IsVisited. now destruct (addLink_sets ToLower cfg cs link depth) as [-> _].
Qed.

Lemma workerStep_invariant v0 i (p p' : @Par Browser) :
  workerStep ToLower CaptureScreenshot ExtractLinks cfg i p = Some p' →
  ParInv v0 p → ParInv v0 p'.
Proof.
  unfold workerStep. intros Hstep Hinv.
  destruct (tasks p !! i) as [t|] eqn:Hi; [|discriminate Hstep].
  simpl in Hstep.
  assert (Hin : t ∈ tasks p) by now apply list_elem_of_lookup_2 in Hi.
  destruct (pc t) as [| |result|result|[|link links]|] eqn:Hpc.
  - destruct (_ <? _)%Z; [|discriminate Hstep].
    inversion Hstep; subst p'. apply worker_update; auto; [discriminate|].
    left. unfold hasCaptured; simpl. now rewrite Hpc.
  - destruct (CaptureScreenshot (pbrowser p) (pageURL t)) as [result b].
    inversion Hstep; subst p'. apply worker_update; auto; [discriminate|].
    right. unfold hasCaptured; simpl. now rewrite Hpc.
  - destruct (_ <? _)%nat; [|discriminate Hstep].
    inversion Hstep; subst p'. apply worker_update; auto; [discriminate|].
    left. unfold hasCaptured; simpl. now rewrite Hpc.
  - destruct (Success result && (pageDepth t <? config.MaxDepth cfg)%Z)
      eqn:Hgo.
    + destruct (ExtractLinks (pbrowser p) (pageURL t)) as [[links|] b];
        inversion Hstep; subst p'; apply worker_update; auto;
        try discriminate;
        try (left; unfold hasCaptured; simpl; now rewrite Hpc).
      intros _ _. apply andb_true_iff in Hgo as [_ Hgo]. lia.
    + inversion Hstep; subst p'. apply worker_update; auto; [discriminate|].
      left. unfold hasCaptured; simpl. now rewrite Hpc.
  - inversion Hstep; subst p'. apply worker_update; auto; [discriminate|].
    left. unfold hasCaptured; simpl. now rewrite Hpc.
  - inversion Hstep; subst p'. apply worker_update; auto.
    + intros x. apply addLink_IsVisited.
    + intros _ _. destruct Hinv as [_ _ Hadd]. now apply (Hadd t (link :: links)).
    + left. unfold hasCaptured; simpl. now rewrite Hpc.
  - discriminate Hstep.
Qed.

Lemma collectorStep_invariant v0 (p p' : @Par Browser) :
  collectorStep p = Some p' → ParInv v0 p → ParInv v0 p'.
Proof.
  unfold collectorStep. destruct (resultsChan p); [discriminate|].
  intros Hstep [Hsound Hlog Hadd]. inversion Hstep; subst p'.
  split; simpl; auto.
  apply (Sound_weaken _ _ _ _ Hsound). auto.
Qed.

Lemma dispatcherStep_invariant v0 (p p' : @Par Browser) :
  dispatcherStep ToLower cfg p = Some p' → ParInv v0 p → ParInv v0 p'.
Proof.
  unfold dispatcherStep. intros Hstep [Hsound Hlog Hadd].
  destruct (dispatcher p).
  - pose proof (GetNextURL_spec (psession p)) as Hnext.
    destruct (urlQueue (psession p)) as [|url rest].
    { rewrite Hnext in Hstep; simpl in Hstep.
      inversion Hstep; subst p'. split; auto. }
    destruct Hnext as (cs & Hnext & _ & Hvis & _).
    rewrite Hnext in Hstep; simpl in Hstep.
    assert (Hsame : ∀ x, IsVisited cs x = IsVisited (psession p) x)
      by (intros x; unfold IsVisited; now rewrite Hvis).
    assert (Hcs : Sound v0 cs (entry <$> tasks p)).
    { apply (Sound_weaken _ _ _ _ Hsound). intros x. now rewrite Hsame. }
    set (depth := readInt (depthMap (psession p)) url) in *.
    destruct (Z.gtb_spec depth (config.MaxDepth cfg)) as [Hdeep | Hdepth].
    { inversion Hstep; subst p'. split; auto. }
    destruct (IsVisited cs (NormalizeURL url)) eqn:Hv; simpl in Hstep.
    { inversion Hstep; subst p'. split; auto. }
    destruct (IsExisting cs (NormalizeURL url)).
    { inversion Hstep; subst p'. split; auto. }
    destruct (ShouldSkipURL ToLower url (config.SkipPatterns cfg)) eqn:Hskip.
    { inversion Hstep; subst p'. split; auto. }
    inversion Hstep; subst p'. split; simpl.
    + rewrite fmap_app. simpl. change (entry _) with (url, depth).
      now apply (Sound_dispatch v0 cs).
    + rewrite capturedEntries_app. unfold capturedEntries at 2; simpl.
      now rewrite app_nil_r.
    + intros t links Hin Hpc.
      apply elem_of_app in Hin as [Hin | Hin]; [now apply (Hadd t links)|].
      apply list_elem_of_singleton in Hin. subst t. discriminate Hpc.
  - destruct (forallb isFinished (tasks p)); [|discriminate Hstep].
    inversion Hstep; subst p'. split; auto.
  - discriminate Hstep.
Qed.

Lemma parStep_invariant v0 who (p p' : @Par Browser) :
  step who p = Some p' → ParInv v0 p → ParInv v0 p'.
Proof.
  destruct who; simpl.
  - apply dispatcherStep_invariant.
  - apply workerStep_invariant.
  - apply collectorStep_invariant.
Qed.

Lemma parRun_invariant v0 schedule : ∀ (p p' : @Par Browser),
  run schedule p = Some p' → ParInv v0 p → ParInv v0 p'.
Proof.
  induction schedule as [|who schedule IH]; intros p p' Hrun Hinv; simpl in Hrun.
  - now inversion Hrun; subst.
  - destruct (step who p) as [q|] eqn:Hstep; [|discriminate Hrun].
    simpl in Hrun. apply (IH q p' Hrun). now apply (parStep_invariant v0 who p).
Qed.

Lemma parStart_invariant (cs : CrawlSession) (b : Browser) :
  ParInv (visitedURLs cs) (parStart cs b).
Proof.
  split; simpl.
  - apply Sound_start.
  - reflexivity.
  - intros t links Hin. now apply elem_of_nil in Hin.
Qed.

(** In a state satisfying the invariant the capture log is a sound
    history too. *)
Lemma ParInv_log v0 (p : @Par Browser) :
  ParInv v0 p → Sound v0 (psession p) (pcaptures p).
Proof.
  intros [[Hg Hm Hf Ho Hd Hs] Hlog _].
  assert (Hsub : ∀ e, e ∈ pcaptures p → e ∈ entry <$> tasks p).
  { intros e He. rewrite Hlog in He.
    eapply elem_of_sublist; [exact He | apply capturedEntries_sublist]. }
  split; auto.
  rewrite Hlog.
  apply (sublist_NoDup _ (identity <$> (entry <$> tasks p)));
    [exact Ho | apply fmap_sublist, capturedEntries_sublist].
Qed.

End History.

(** *** The scheduler *)

Section Claims.
Import models utils services safety.

Context {Browser : Type}.
Variable ToLower : string → string.
Variable CaptureScreenshot : Browser → string → ScreenshotResult * Browser.
Variable ExtractLinks : Browser → string → option (list string) * Browser.
Variable cfg : config.Config.

Local Abbreviation seqIter :=
  (sequentialIteration ToLower CaptureScreenshot ExtractLinks cfg).
Local Abbreviation seqRun :=
  (runSequentialCrawl ToLower CaptureScreenshot ExtractLinks cfg).
Local Abbreviation dispatch := (@dispatcherStep Browser ToLower cfg).
Local Abbreviation work :=
  (workerStep ToLower CaptureScreenshot ExtractLinks cfg).
Local Abbreviation run :=
  (parRun ToLower CaptureScreenshot ExtractLinks cfg).
Local Abbreviation skips :=
  (fun url => ShouldSkipURL ToLower url (config.SkipPatterns cfg)).

Lemma seqRun_history fuel (a : App) :
  captures a = [] →
  SoundHistory ToLower cfg (visitedURLs (session a))
    (session (seqRun fuel a).1) (captures (seqRun fuel a).1).
Proof.
  intros Hlog. apply runSequentialCrawl_sound. rewrite Hlog. apply Sound_start.
Qed.

Lemma run_history schedule cs (b : Browser) p :
  run schedule (parStart cs b) = Some p →
  ParInvariant ToLower cfg (visitedURLs cs) p.
Proof.
  intros Hrun.
  apply (parRun_invariant ToLower CaptureScreenshot ExtractLinks cfg
           (visitedURLs cs) schedule (parStart cs b) p Hrun).
  apply parStart_invariant.
Qed.

(** C1. In a run of either loop no two capture calls are made for URLs
    with the same normal form, and none for a URL whose normal form was
    already visited when the loop was entered: each URL captured was
    unvisited then and is visited now.  In parallel mode the same holds
    of the tasks launched. *)
Theorem no_url_captured_twice :
  (∀ fuel (a : App),
     captures a = [] →
     let a' := (seqRun fuel a).1 in
     NoDup (identity <$> captures a')
     ∧ ∀ e, e ∈ captures a' →
         IsVisited (session a) (identity e) = false
         ∧ IsVisited (session a') (identity e) = true)
  ∧ (∀ schedule cs (b : Browser) p,
       run schedule (parStart cs b) = Some p →
       NoDup (identity <$> (entry <$> tasks p))
       ∧ NoDup (identity <$> pcaptures p)
       ∧ ∀ e, e ∈ pcaptures p →
           IsVisited cs (identity e) = false
           ∧ IsVisited (psession p) (identity e) = true).
Proof.
  split.
  - intros fuel a Hlog a'.
    destruct (seqRun_history fuel a Hlog) as [_ Hm Hf Ho _ _].
    split; [exact Ho|]. intros e He. split; [exact (Hf e He) | exact (Hm e He)].
  - intros schedule cs b p Hrun.
    pose proof (run_history schedule cs b p Hrun) as Hinv.
    destruct (ParInv_log ToLower cfg _ p Hinv) as [_ Hm Hf Ho _ _].
    destruct Hinv as [[_ _ _ Hot _ _] _ _].
    split; [exact Hot|]. split; [exact Ho|].
    intros e He. split; [exact (Hf e He) | exact (Hm e He)].
Qed.

(** A too-deep entry is dropped by the sequential loop: nothing but
    the queue changes. *)
Lemma sequentialIteration_too_deep (a : App) url rest :
  urlQueue (session a) = url :: rest →
  (readInt (depthMap (session a)) url > config.MaxDepth cfg)%Z →
  ∃ a', seqIter a = Some a'
        ∧ captures a' = captures a ∧ browser a' = browser a
        ∧ visitedURLs (session a') = visitedURLs (session a)
        ∧ results (session a') = results (session a)
        ∧ urlQueue (session a') = rest.
Proof.
  intros Hq Hdeep. unfold sequentialIteration, GetNextURL. rewrite Hq; simpl.
  destruct (Z.gtb_spec (readInt (depthMap (session a)) url)
                       (config.MaxDepth cfg)); [|lia].
  eexists; repeat split.
Qed.

(** What a round of the sequential loop appends to the queue. *)
Lemma sequentialIteration_enqueues (a a' : App) url rest :
  seqIter a = Some a' →
  urlQueue (session a) = url :: rest →
  ∃ added,
    urlQueue (session a') = rest ++ added
    ∧ (added ≠ [] →
       (readInt (depthMap (session a)) url < config.MaxDepth cfg)%Z)
    ∧ ∀ u, u ∈ added →
        depthMap (session a') !! u
        = Some (readInt (depthMap (session a)) url + 1)%Z.
Proof.
  intros Hstep Hq. unfold sequentialIteration, GetNextURL in Hstep.
  rewrite Hq in Hstep; simpl in Hstep.
  set (depth := readInt (depthMap (session a)) url) in *.
  assert (Hnone : ∀ cs, urlQueue cs = rest →
            ∃ added, urlQueue cs = rest ++ added
                     ∧ (added ≠ [] → (depth < config.MaxDepth cfg)%Z)
                     ∧ ∀ u, u ∈ added → depthMap cs !! u = Some (depth + 1)%Z).
  { intros cs Hcs. exists []. rewrite app_nil_r. split; [exact Hcs|].
    split; [congruence|]. intros u Hu. now apply elem_of_nil in Hu. }
  destruct (depth >? config.MaxDepth cfg)%Z.
  { inversion Hstep; subst a'. now apply Hnone. }
  destruct (IsVisited _ _).
  { inversion Hstep; subst a'. now apply Hnone. }
  destruct (IsExisting _ _).
  { inversion Hstep; subst a'. now apply Hnone. }
  destruct (ShouldSkipURL _ _ _).
  { inversion Hstep; subst a'. now apply Hnone. }
  destruct (CaptureScreenshot (browser a) url) as [result b].
  destruct (Success result && (depth <? config.MaxDepth cfg)%Z) eqn:Hgo.
  - apply andb_true_iff in Hgo as [_ Hlt]. apply Z.ltb_lt in Hlt.
    destruct (ExtractLinks b url) as [[links|] b'];
      inversion Hstep; subst a'; [|now apply Hnone].
    simpl.
    match goal with
    | |- context [addNewLinksToQueue _ _ ?cs _ _] =>
        destruct (addNewLinksToQueue_depths ToLower cfg links (depth + 1) cs)
          as (added & Hadd & Hin & _)
    end.
    exists added. split; [exact Hadd|]. split; [auto | exact Hin].
  - inversion Hstep; subst a'. now apply Hnone.
Qed.

(** A too-deep entry is dropped by the dispatcher: no task is
    launched, nothing but the queue changes. *)
Lemma dispatcherStep_too_deep (p : @Par Browser) url rest :
  dispatcher p = Dispatching →
  urlQueue (psession p) = url :: rest →
  (readInt (depthMap (psession p)) url > config.MaxDepth cfg)%Z →
  ∃ p', dispatch p = Some p'
        ∧ tasks p' = tasks p ∧ pcaptures p' = pcaptures p
        ∧ pbrowser p' = pbrowser p
        ∧ visitedURLs (psession p') = visitedURLs (psession p)
        ∧ urlQueue (psession p') = rest.
Proof.
  intros Hd Hq Hdeep. unfold dispatcherStep, GetNextURL. rewrite Hd, Hq; simpl.
  destruct (Z.gtb_spec (readInt (depthMap (psession p)) url)
                       (config.MaxDepth cfg)); [|lia].
  eexists; repeat split.
Qed.

(** The dispatcher and the collector never append to the queue. *)
Lemma dispatcherStep_queue (p p' : @Par Browser) :
  dispatch p = Some p' →
  urlQueue (psession p') = urlQueue (psession p)
  ∨ ∃ url, urlQueue (psession p) = url :: urlQueue (psession p').
Proof.
  unfold dispatcherStep, GetNextURL. intros Hstep.
  destruct (dispatcher p).
  - destruct (urlQueue (psession p)) as [|url rest] eqn:Hq; simpl in Hstep.
    + inversion Hstep; subst p'. now left.
    + right. exists url.
      repeat match type of Hstep with
             | context [if ?b then _ else _] => destruct b
             end; inversion Hstep; subst p'; reflexivity.
  - destruct (forallb _ _); [|discriminate]. inversion Hstep; subst p'. now left.
  - discriminate.
Qed.

(** A worker appends to the queue only from a page below [MaxDepth],
    one string at a time, stored one level below the page. *)
Lemma workerStep_enqueues v0 i (p p' : @Par Browser) :
  ParInvariant ToLower cfg v0 p →
  work i p = Some p' →
  ∃ t, tasks p !! i = Some t
       ∧ (urlQueue (psession p') = urlQueue (psession p)
          ∨ ((pageDepth t < config.MaxDepth cfg)%Z
             ∧ ∃ u, urlQueue (psession p') = urlQueue (psession p) ++ [u]
                    ∧ depthMap (psession p') !! u
                      = Some (pageDepth t + 1)%Z)).
Proof.
  intros Hinv Hstep.
  assert (Hadd : ∀ t links, t ∈ tasks p → pc t = Adding links →
                            (pageDepth t < config.MaxDepth cfg)%Z).
  { destruct Hinv as [_ _ H]; exact H. }
  unfold workerStep in Hstep.
  destruct (tasks p !! i) as [t|] eqn:Hi; [|discriminate Hstep].
  simpl in Hstep. exists t. split; [reflexivity|].
  destruct (pc t) as [| |result|result|[|link links]|] eqn:Hpc;
    repeat match type of Hstep with
           | context [if ?b then _ else _] => destruct b
           | context [let '(_, _) := ?x in _] => destruct x as [[?|] ?]
           | context [let '(_, _) := ?x in _] => destruct x
           end;
    try discriminate Hstep; inversion Hstep; subst p'; simpl;
    try (left; reflexivity).
  destruct (addLink_queue ToLower cfg (psession p) link (pageDepth t + 1))
    as [-> | (u & Hu & Hd & _)]; [now left|].
  right. split.
  - apply (Hadd t (link :: links)); [|exact Hpc].
    now apply list_elem_of_lookup_2 in Hi.
  - exists u. split; [exact Hu|]. rewrite Hd. apply lookup_insert_eq.
Qed.

(** C5. No capture call is made for an entry dequeued deeper than
    [MaxDepth], in either loop.  Such an entry is dropped with the
    visited set, the capture history and the set of tasks untouched;
    and strings are appended to the queue only by a page dequeued
    strictly below [MaxDepth], stored one level below it. *)
Theorem no_capture_beyond_MaxDepth :
  (∀ fuel (a : App),
     captures a = [] →
     ∀ e, e ∈ captures (seqRun fuel a).1 → (e.2 ≤ config.MaxDepth cfg)%Z)
  ∧ (∀ schedule cs (b : Browser) p,
       run schedule (parStart cs b) = Some p →
       (∀ t, t ∈ tasks p → (pageDepth t ≤ config.MaxDepth cfg)%Z)
       ∧ (∀ e, e ∈ pcaptures p → (e.2 ≤ config.MaxDepth cfg)%Z))
  ∧ (∀ (a : App) url rest,
       urlQueue (session a) = url :: rest →
       (readInt (depthMap (session a)) url > config.MaxDepth cfg)%Z →
       ∃ a', seqIter a = Some a'
             ∧ captures a' = captures a ∧ browser a' = browser a
             ∧ visitedURLs (session a') = visitedURLs (session a)
             ∧ results (session a') = results (session a)
             ∧ urlQueue (session a') = rest)
  ∧ (∀ (p : @Par Browser) url rest,
       dispatcher p = Dispatching →
       urlQueue (psession p) = url :: rest →
       (readInt (depthMap (psession p)) url > config.MaxDepth cfg)%Z →
       ∃ p', dispatch p = Some p'
             ∧ tasks p' = tasks p ∧ pcaptures p' = pcaptures p
             ∧ pbrowser p' = pbrowser p
             ∧ visitedURLs (psession p') = visitedURLs (psession p)
             ∧ urlQueue (psession p') = rest)
  ∧ (∀ (a a' : App) url rest,
       seqIter a = Some a' →
       urlQueue (session a) = url :: rest →
       ∃ added,
         urlQueue (session a') = rest ++ added
         ∧ (added ≠ [] →
            (readInt (depthMap (session a)) url < config.MaxDepth cfg)%Z)
         ∧ ∀ u, u ∈ added →
             depthMap (session a') !! u
             = Some (readInt (depthMap (session a)) url + 1)%Z)
  ∧ (∀ schedule cs (b : Browser) p i p',
       run schedule (parStart cs b) = Some p →
       work i p = Some p' →
       ∃ t, tasks p !! i = Some t
            ∧ (urlQueue (psession p') = urlQueue (psession p)
               ∨ ((pageDepth t < config.MaxDepth cfg)%Z
                  ∧ ∃ u, urlQueue (psession p')
                         = urlQueue (psession p) ++ [u]
                         ∧ depthMap (psession p') !! u
                           = Some (pageDepth t + 1)%Z)))
  ∧ (∀ (p p' : @Par Browser),
       dispatch p = Some p' ∨ collectorStep p = Some p' →
       urlQueue (psession p') = urlQueue (psession p)
       ∨ ∃ url, urlQueue (psession p) = url :: urlQueue (psession p')).
Proof.
  split.
  { intros fuel a Hlog e He.
    destruct (seqRun_history fuel a Hlog) as [_ _ _ _ Hd _]. exact (Hd e He). }
  split.
  { intros schedule cs b p Hrun.
    pose proof (run_history schedule cs b p Hrun) as Hinv.
    destruct (ParInv_log ToLower cfg _ p Hinv) as [_ _ _ _ Hd _].
    destruct Hinv as [[_ _ _ _ Hdt _] _ _].
    split; [|exact Hd]. intros t Ht.
    apply (Hdt (entry t)). now apply list_elem_of_fmap_2. }
  split; [exact sequentialIteration_too_deep|].
  split; [exact dispatcherStep_too_deep|].
  split; [exact sequentialIteration_enqueues|].
  split.
  { intros schedule cs b p i p' Hrun Hstep.
    apply (workerStep_enqueues (visitedURLs cs) i p p'); [|exact Hstep].
    exact (run_history schedule cs b p Hrun). }
  intros p p' [Hstep | Hstep]; [now apply dispatcherStep_queue|].
  unfold collectorStep in Hstep. destruct (resultsChan p); [discriminate|].
  inversion Hstep; subst p'. now left.
Qed.

(** A dequeued entry that matches a skip pattern: the sequential loop
    drops it without a browser call, and marks it unless it is too
    deep. *)
Lemma sequentialIteration_skip (a : App) url rest :
  urlQueue (session a) = url :: rest →
  skips url = true →
  ∃ a', seqIter a = Some a'
        ∧ captures a' = captures a ∧ browser a' = browser a
        ∧ results (session a') = results (session a)
        ∧ urlQueue (session a') = rest
        ∧ ((readInt (depthMap (session a)) url ≤ config.MaxDepth cfg)%Z →
           IsVisited (session a') (NormalizeURL url) = true).
Proof.
  intros Hq Hskip. unfold sequentialIteration, GetNextURL. rewrite Hq; simpl.
  destruct (Z.gtb_spec (readInt (depthMap (session a)) url)
                       (config.MaxDepth cfg)) as [Hdeep | Hok].
  { eexists; repeat split. simpl. lia. }
  match goal with
  | |- context [IsVisited ?cs (NormalizeURL url)] =>
      destruct (IsVisited cs (NormalizeURL url)) eqn:Hv;
      [eexists; repeat split; simpl; intros _; exact Hv|];
      destruct (IsExisting cs (NormalizeURL url))
  end.
  - eexists; repeat split. simpl. intros _.
    rewrite IsVisited_MarkVisited. now destruct (decide _).
  - simpl in Hskip. rewrite Hskip.
    eexists; repeat split. simpl. intros _.
    rewrite IsVisited_MarkVisited. now destruct (decide _).
Qed.

(** The dispatcher drops such an entry without launching a task. *)
Lemma dispatcherStep_skip (p : @Par Browser) url rest :
  dispatcher p = Dispatching →
  urlQueue (psession p) = url :: rest →
  skips url = true →
  ∃ p', dispatch p = Some p'
        ∧ tasks p' = tasks p ∧ pcaptures p' = pcaptures p
        ∧ pbrowser p' = pbrowser p
        ∧ results (psession p') = results (psession p)
        ∧ urlQueue (psession p') = rest.
Proof.
  intros Hd Hq Hskip. unfold dispatcherStep, GetNextURL. rewrite Hd, Hq; simpl.
  simpl in Hskip. rewrite Hskip.
  repeat match goal with
         | |- context [if ?b then _ else _] => destruct b
         end; eexists; repeat split.
Qed.

(** Skip patterns in the two loops.  A dequeued URL that matches a
    skip pattern is dropped without a capture call in both loops, and
    no URL that matches one is ever captured.  The sequential loop
    leaves its normal form visited when the entry is within
    [MaxDepth], the depth test coming first. *)
Theorem skip_pattern_never_captured :
  (∀ (a : App) url rest,
     urlQueue (session a) = url :: rest →
     skips url = true →
     ∃ a', seqIter a = Some a'
           ∧ captures a' = captures a ∧ browser a' = browser a
           ∧ results (session a') = results (session a)
           ∧ urlQueue (session a') = rest
           ∧ ((readInt (depthMap (session a)) url ≤ config.MaxDepth cfg)%Z →
              IsVisited (session a') (NormalizeURL url) = true))
  ∧ (∀ (p : @Par Browser) url rest,
       dispatcher p = Dispatching →
       urlQueue (psession p) = url :: rest →
       skips url = true →
       ∃ p', dispatch p = Some p'
             ∧ tasks p' = tasks p ∧ pcaptures p' = pcaptures p
             ∧ pbrowser p' = pbrowser p
             ∧ results (psession p') = results (psession p)
             ∧ urlQueue (psession p') = rest)
  ∧ (∀ fuel (a : App),
       captures a = [] →
       ∀ e, e ∈ captures (seqRun fuel a).1 → skips e.1 = false)
  ∧ (∀ schedule cs (b : Browser) p,
       run schedule (parStart cs b) = Some p →
       (∀ t, t ∈ tasks p → skips (pageURL t) = false)
       ∧ (∀ e, e ∈ pcaptures p → skips e.1 = false)).
Proof.
  split; [exact sequentialIteration_skip|].
  split; [exact dispatcherStep_skip|].
  split.
  { intros fuel a Hlog e He.
    destruct (seqRun_history fuel a Hlog) as [_ _ _ _ _ Hs]. exact (Hs e He). }
  intros schedule cs b p Hrun.
  pose proof (run_history schedule cs b p Hrun) as Hinv.
  destruct (ParInv_log ToLower cfg _ p Hinv) as [_ _ _ _ _ Hs].
  destruct Hinv as [[_ _ _ _ _ Hst] _ _].
  split; [|exact Hs]. intros t Ht.
  apply (Hst (entry t)). now apply list_elem_of_fmap_2.
Qed.

End Claims.

Lemma no_url_captured_twice_witness :
  NoDup (safety.identity <$>
         services.captures
           (services.runSequentialCrawl examples.lower examples.siteCapture
              examples.siteLinks examples.cfg 10 examples.seqStart).1)
  ∧ NoDup (safety.identity <$>
           services.pcaptures
             (default examples.parStart
                (services.parRun examples.lower examples.siteCapture
                   examples.siteLinks examples.cfg examples.earlyExit
                   examples.parStart))).
Proof.
  destruct (no_url_captured_twice examples.lower examples.siteCapture
              examples.siteLinks examples.cfg) as [Hseq Hpar].
  split.
  - apply (Hseq 10%nat examples.seqStart). reflexivity.
  - destruct (services.parRun examples.lower examples.siteCapture
                examples.siteLinks examples.cfg examples.earlyExit
                examples.parStart) as [p|] eqn:Hrun.
    + apply (Hpar examples.earlyExit examples.seeded tt p Hrun).
    + vm_compute in Hrun. discriminate Hrun.
Defined.

Lemma no_capture_beyond_MaxDepth_witness :
  services.captures
    (services.runSequentialCrawl examples.lower examples.siteCapture
       examples.siteLinks examples.cfg 10 examples.seqStart).1
  !! 1%nat = Some ("https://example.com/about", 1%Z)
  ∧ (1 ≤ config.MaxDepth examples.cfg)%Z.
Proof.
  assert (Hlog : services.captures
            (services.runSequentialCrawl examples.lower examples.siteCapture
               examples.siteLinks examples.cfg 10 examples.seqStart).1
          !! 1%nat = Some ("https://example.com/about", 1%Z))
    by (vm_compute; reflexivity).
  split; [exact Hlog|].
  destruct (no_capture_beyond_MaxDepth examples.lower examples.siteCapture
              examples.siteLinks examples.cfg) as [Hseq _].
  apply (Hseq 10%nat examples.seqStart eq_refl
              ("https://example.com/about", 1%Z)).
  apply (list_elem_of_lookup_2 _ 1%nat). exact Hlog.
Defined.

Lemma skip_pattern_never_captured_witness :
  utils.ShouldSkipURL examples.lower "https://example.com/wp-admin/login"
    (config.SkipPatterns examples.cfg) = true
  ∧ ∃ a', services.sequentialIteration examples.lower examples.siteCapture
            examples.siteLinks examples.cfg
            (services.mkApp (examples.adminQueued 1) tt []) = Some a'
          ∧ services.captures a' = [].
Proof.
  split; [vm_compute; reflexivity|].
  destruct (skip_pattern_never_captured examples.lower examples.siteCapture
              examples.siteLinks examples.cfg) as [Hseq _].
  destruct (Hseq (services.mkApp (examples.adminQueued 1) tt [])
                 "https://example.com/wp-admin/login" [])
    as (a' & Hstep & Hlog & _).
  - vm_compute; reflexivity.
  - vm_compute; reflexivity.
  - exists a'. split; [exact Hstep | exact Hlog].
Defined.

(** C6 on the code. The sitemap lists [/wp-admin/login], which
    [DiscoverURLs] queues at depth 1, within [MaxDepth]; the default
    skip pattern [/wp-admin] matches it.  Neither loop captures it.
    The sequential loop marks its normal form visited, as claimed.  The
    dispatcher of the parallel loop leaves the visited set as it is
    whenever it drops an entry on a skip pattern, so the URL is not
    visited after that round, nor at the end of a run in which every
    task has finished and every result has been collected. *)
Theorem parallel_skip_leaves_unvisited :
  (∀ (p p' : @services.Par unit) url rest,
     services.dispatcher p = services.Dispatching →
     models.urlQueue (services.psession p) = url :: rest →
     utils.ShouldSkipURL examples.lower url
       (config.SkipPatterns examples.cfg) = true →
     services.dispatcherStep examples.lower examples.cfg p = Some p' →
     models.visitedURLs (services.psession p')
     = models.visitedURLs (services.psession p)
     ∧ services.tasks p' = services.tasks p)
  ∧ models.urlQueue examples.adminDiscovered
    = [ "https://example.com/wp-admin/login"; "https://example.com" ]
  ∧ models.depthMap examples.adminDiscovered
      !! "https://example.com/wp-admin/login" = Some 1%Z
  ∧ utils.ShouldSkipURL examples.lower "https://example.com/wp-admin/login"
      (config.SkipPatterns examples.cfg) = true
  ∧ (∃ p,
       services.parRun examples.lower examples.siteCapture examples.siteLinks
         examples.cfg examples.fullSchedule
         (services.parStart examples.adminDiscovered tt) = Some p
       ∧ services.dispatcher p = services.Returned
       ∧ models.urlQueue (services.psession p) = []
       ∧ services.resultsChan p = []
       ∧ services.pcaptures p
         = [("https://example.com", 0%Z); ("https://example.com/about", 1%Z)]
       ∧ models.IsVisited (services.psession p)
           (utils.NormalizeURL "https://example.com/wp-admin/login") = false)
  ∧ let '(a, drained) :=
      services.runSequentialCrawl examples.lower examples.siteCapture
        examples.siteLinks examples.cfg 4
        (services.mkApp examples.adminDiscovered tt []) in
    drained = true
    ∧ services.captures a
      = [("https://example.com", 0%Z); ("https://example.com/about", 1%Z)]
    ∧ models.IsVisited (services.session a)
        (utils.NormalizeURL "https://example.com/wp-admin/login") = true.
Proof.
  split.
  { intros p p' url rest Hd Hq Hskip.
    unfold services.dispatcherStep, models.GetNextURL. rewrite Hd, Hq.
    cbn [negb]. rewrite Hskip.
    repeat match goal with
           | |- context [if ?b then _ else _] => destruct b
           end; intros H; inversion H; subst p'; split; reflexivity. }
  split; [vm_compute; reflexivity|]. split; [vm_compute; reflexivity|].
  split; [vm_compute; reflexivity|].
  split.
  { eexists. split; [vm_compute; reflexivity|].
    repeat split; vm_compute; reflexivity. }
  vm_compute. repeat split; reflexivity.
Qed.

Lemma AddURL_membership_by_string_witness :
  models.IsVisited examples.visitedAbout "https://example.com/about" = true
  ∧ models.AddURL examples.visitedAbout "https://example.com/about" 1
    = examples.visitedAbout.
Proof.
  split; [vm_compute; reflexivity|].
  destruct (AddURL_membership_by_string examples.lower examples.cfg
              examples.visitedAbout "https://example.com/about" 1 [])
    as [Hrejected _].
  apply Hrejected. left. vm_compute; reflexivity.
Defined.

(** C3 on the code. With the root page linking to [/about], the
    dispatcher of the parallel loop finds the queue empty while the
    root is still being captured, leaves the loop, and returns once the
    worker is done: [/about], enqueued by that worker, stays in the
    queue and is never captured.  The sequential loop captures both
    pages on the same site. *)
Theorem parallel_loop_leaves_work_queued :
  ∃ p,
    services.parRun examples.lower examples.siteCapture examples.siteLinks
      examples.cfg examples.earlyExit examples.parStart = Some p
    ∧ services.dispatcher p = services.Returned
    ∧ forallb services.isFinished (services.tasks p) = true
    ∧ models.urlQueue (services.psession p) = ["https://example.com/about"]
    ∧ services.pcaptures p = [("https://example.com", 0%Z)]
    ∧ services.dispatcherStep examples.lower examples.cfg p = None
    ∧ (∀ i, services.workerStep examples.lower examples.siteCapture
              examples.siteLinks examples.cfg i p = None)
    ∧ let '(a, drained) :=
        services.runSequentialCrawl examples.lower examples.siteCapture
          examples.siteLinks examples.cfg 3 examples.seqStart in
      drained = true
      ∧ services.captures a
        = [("https://example.com", 0%Z); ("https://example.com/about", 1%Z)].
Proof.
  eexists. split; [vm_compute; reflexivity|].
  split; [reflexivity|]. split; [reflexivity|]. split; [reflexivity|].
  split; [reflexivity|]. split; [vm_compute; reflexivity|].
  split; [intros [|i]; vm_compute; reflexivity|].
  vm_compute. split; reflexivity.
Qed.

(** *** Idempotence of the normaliser *)

Section Bytes.
Import GoBytes GoStrings weburl.

Local Arguments String.append !_ _ / : simpl nomatch.

Lemma allBytes_complete (c : ascii) : In c allBytes.
Proof.
  unfold allBytes. apply in_map_iff. exists (nat_of_ascii c). split.
  - apply ascii_nat_embedding.
  - apply in_seq. pose proof (nat_ascii_bounded c). lia.
Qed.

(** A property of bytes holds of all of them once it is checked on the
    256 of them. *)
Lemma byte_forall (P : ascii → bool) :
  forallb P allBytes = true → ∀ c, P c = true.
Proof.
  intros H c. rewrite forallb_forall in H. apply H, allBytes_complete.
Qed.

Lemma byte_implies (P Q : ascii → bool) :
  forallb (fun c => implb (P c) (Q c)) allBytes = true →
  ∀ c, P c = true → Q c = true.
Proof.
  intros H c HP. pose proof (byte_forall _ H c) as Hc; simpl in Hc.
  now rewrite HP in Hc.
Qed.

Lemma append_assoc (a b c : string) : (a +:+ b) +:+ c = a +:+ b +:+ c.
Proof. induction a as [|x a IH]; simpl; [reflexivity | f_equal; exact IH]. Qed.

Lemma append_nil_r (a : string) : a +:+ "" = a.
Proof. induction a as [|x a IH]; simpl; [reflexivity | f_equal; exact IH]. Qed.

Lemma all_app (P : ascii → bool) (a b : string) :
  all P (a +:+ b) = all P a && all P b.
Proof.
  induction a as [|x a IH]; simpl; [reflexivity|].
  now rewrite IH, andb_assoc.
Qed.

Lemma all_impl (P Q : ascii → bool) (s : string) :
  (∀ c, P c = true → Q c = true) → all P s = true → all Q s = true.
Proof.
  intros HPQ. induction s as [|x s IH]; simpl; [reflexivity|].
  intros H. apply andb_true_iff in H as [Hx Hs].
  now rewrite (HPQ x Hx), IH.
Qed.

Lemma take_app (a b : string) : take (len a) (a +:+ b) = a.
Proof.
  induction a as [|x a IH]; simpl; [now destruct b | f_equal; exact IH].
Qed.

Lemma drop_app (a b : string) : drop (len a) (a +:+ b) = b.
Proof. induction a as [|x a IH]; simpl; [reflexivity | exact IH]. Qed.

Lemma len_app (a b : string) : len (a +:+ b) = len a + len b.
Proof.
  induction a as [|x a IH]; simpl; [reflexivity | f_equal; exact IH].
Qed.

(** A byte that does not occur is not found. *)
Lemma Index_absent (d : ascii) (s : string) :
  all (fun c => negb (eqb c d)) s = true → Index s (String d "") = None.
Proof.
  induction s as [|x s IH]; simpl; [reflexivity|].
  intros H. apply andb_true_iff in H as [Hx Hs].
  apply negb_true_iff in Hx. rewrite Hx; simpl. now rewrite (IH Hs).
Qed.

Lemma LastIndex_absent (d : ascii) (s : string) :
  all (fun c => negb (eqb c d)) s = true → LastIndex s (String d "") = None.
Proof.
  induction s as [|x s IH]; simpl; [reflexivity|].
  intros H. apply andb_true_iff in H as [Hx Hs].
  apply negb_true_iff in Hx. rewrite (IH Hs), Hx. reflexivity.
Qed.

Lemma CountByte_absent (d : ascii) (s : string) :
  all (fun c => negb (eqb c d)) s = true → CountByte s d = 0.
Proof.
  induction s as [|x s IH]; simpl; [reflexivity|].
  intros H. apply andb_true_iff in H as [Hx Hs].
  apply negb_true_iff in Hx. now rewrite Hx, (IH Hs).
Qed.

Lemma CountByte_app (d : ascii) (a b : string) :
  CountByte (a +:+ b) d = CountByte a d + CountByte b d.
Proof. induction a as [|x a IH]; simpl; [reflexivity | rewrite IH; lia]. Qed.

Lemma HasSuffix_absent (d : ascii) (s : string) :
  all (fun c => negb (eqb c d)) s = true → HasSuffix s (String d "") = false.
Proof.
  induction s as [|x s IH]; simpl; [reflexivity|].
  intros H. apply andb_true_iff in H as [Hx Hs].
  apply negb_true_iff in Hx. rewrite (IH Hs), orb_false_r.
  destruct s as [|y s]; [|now destruct (Ascii.eqb x d)].
  unfold eqb in Hx. now rewrite Hx.
Qed.

Lemma HasSuffix_app (a b : string) : HasSuffix (a +:+ b) b = true.
Proof.
  induction a as [|x a IH]; simpl.
  - destruct b; simpl; [reflexivity|]. now rewrite Ascii.eqb_refl, String.eqb_refl.
  - rewrite IH. apply orb_true_r.
Qed.

(** The first occurrence of a byte lies after a prefix free of it. *)
Lemma Index_first (d : ascii) (a b : string) :
  all (fun c => negb (eqb c d)) a = true →
  Index (a +:+ String d b) (String d "") = Some (len a).
Proof.
  induction a as [|x a IH]; simpl.
  - intros _. unfold eqb. now rewrite Ascii.eqb_refl.
  - intros H. apply andb_true_iff in H as [Hx Hs].
    apply negb_true_iff in Hx. rewrite Hx; simpl. rewrite (IH Hs). reflexivity.
Qed.

End Bytes.

Section NetURL.
Import GoBytes GoStrings weburl.

Local Arguments String.append !_ _ / : simpl nomatch.

Lemma schemeByte_facts c : schemeByte c = true → schemeByteFacts c = true.
Proof. revert c. apply byte_implies. vm_compute. reflexivity. Qed.

Lemma isLower_facts c :
  isLower c = true → isAlpha c && negb (eqb c "*") && schemeByte c = true.
Proof. revert c. apply byte_implies. vm_compute. reflexivity. Qed.

Lemma validEncodedByte_clean c :
  GoURL.validEncodedByte c GoURL.encodePath = true → pathClean c = true.
Proof. revert c. apply byte_implies. vm_compute. reflexivity. Qed.

(** No mode leaves [%] unescaped. *)
Lemma unescaped_not_percent (m : GoURL.encoding) (c : ascii) :
  GoURL.shouldEscape c m = false → eqb c "%" = false.
Proof.
  intros H. destruct (eqb c "%") eqn:Hc; [|reflexivity].
  apply Ascii.eqb_eq in Hc. subst c. destruct m; discriminate H.
Qed.

Lemma escape_cons (m : GoURL.encoding) (c : ascii) (s : string) :
  GoURL.escape (String c s) m = GoURL.escape (single c) m +:+ GoURL.escape s m.
Proof.
  unfold single. simpl.
  destruct (eqb c " " && _); [reflexivity|].
  destruct (GoURL.shouldEscape c m); reflexivity.
Qed.

(** [unescape] reads the escaped form of a byte, then the rest. *)
Lemma unescape_single (m : GoURL.encoding) (c : ascii) (rest : string) :
  GoURL.unescapeOK m (GoURL.escape (single c) m +:+ rest)
  = GoURL.unescapeOK m (GoURL.escape (single c) m) && GoURL.unescapeOK m rest
  ∧ GoURL.unescapeDecode m (GoURL.escape (single c) m +:+ rest)
    = GoURL.unescapeDecode m (GoURL.escape (single c) m)
      +:+ GoURL.unescapeDecode m rest.
Proof.
  unfold single. simpl.
  destruct (eqb c " " && _).
  { simpl. split; reflexivity. }
  destruct (GoURL.shouldEscape c m) eqn:Hesc.
  - simpl.
    repeat match goal with
           | |- context [if ?b then _ else _] => destruct b
           end; simpl; split; reflexivity.
  - pose proof (unescaped_not_percent m c Hesc) as Hp.
    cbn [String.append GoURL.unescapeOK GoURL.unescapeDecode].
    rewrite Hp.
    repeat match goal with
           | |- context [if ?b then _ else _] => destruct b
           end; simpl; split; reflexivity.
Qed.

Lemma unescape_escape (m : GoURL.encoding) (s : string) :
  all (roundTrips m) s = true →
  GoURL.unescape (GoURL.escape s m) m = Some s.
Proof.
  intros Hs. unfold GoURL.unescape.
  assert (GoURL.unescapeOK m (GoURL.escape s m) = true
          ∧ GoURL.unescapeDecode m (GoURL.escape s m) = s) as [-> ->];
    [|reflexivity].
  induction s as [|c s IH]; [now split|].
  simpl in Hs. apply andb_true_iff in Hs as [Hc Hs].
  destruct (IH Hs) as [IH1 IH2].
  unfold roundTrips in Hc. apply andb_true_iff in Hc as [Hok Hdec].
  apply String.eqb_eq in Hdec.
  rewrite escape_cons.
  destruct (unescape_single m c (GoURL.escape s m)) as [-> ->].
  rewrite Hok, IH1, Hdec, IH2. split; reflexivity.
Qed.

(** A property of the escaped form of each byte holds of the escaped
    form of the string. *)
Lemma all_escape (m : GoURL.encoding) (P Q : ascii → bool) (s : string) :
  (∀ c, Q c = true → all P (GoURL.escape (single c) m) = true) →
  all Q s = true → all P (GoURL.escape s m) = true.
Proof.
  intros HPQ. induction s as [|c s IH]; [reflexivity|]. intros Hs.
  simpl in Hs. apply andb_true_iff in Hs as [Hc Hs].
  rewrite escape_cons, all_app, (HPQ c Hc), (IH Hs). reflexivity.
Qed.

Lemma all_true (P : ascii → bool) (s : string) :
  (∀ c, P c = true) → all P s = true.
Proof.
  intros HP. induction s as [|c s IH]; simpl; [reflexivity|].
  now rewrite HP, IH.
Qed.

Lemma roundTrips_path c : roundTrips GoURL.encodePath c = true.
Proof. revert c. apply byte_forall. vm_compute. reflexivity. Qed.

Lemma roundTrips_user c : roundTrips GoURL.encodeUserPassword c = true.
Proof. revert c. apply byte_forall. vm_compute. reflexivity. Qed.

Lemma roundTrips_host c :
  parsedHostByte c = true → roundTrips GoURL.encodeHost c = true.
Proof. revert c. apply byte_implies. vm_compute. reflexivity. Qed.

Lemma escaped_path_clean c :
  all pathClean (GoURL.escape (single c) GoURL.encodePath) = true.
Proof. revert c. apply byte_forall. vm_compute. reflexivity. Qed.

Lemma escaped_user_clean c :
  all userTextByte (GoURL.escape (single c) GoURL.encodeUserPassword) = true.
Proof. revert c. apply byte_forall. vm_compute. reflexivity. Qed.

Lemma escaped_host_clean c :
  parsedHostByte c = true →
  all hostTextByte (GoURL.escape (single c) GoURL.encodeHost) = true.
Proof. revert c. apply byte_implies. vm_compute. reflexivity. Qed.

Lemma escaped_host_bracket c :
  parsedHostByte c = true → eqb c "[" = false →
  HasPrefix (GoURL.escape (single c) GoURL.encodeHost) "[" = false.
Proof.
  intros H1 H2. revert c H1 H2.
  assert (∀ c, implb (parsedHostByte c && negb (eqb c "["))
                 (negb (HasPrefix (GoURL.escape (single c) GoURL.encodeHost) "["))
               = true) as H
    by (apply byte_forall; vm_compute; reflexivity).
  intros c H1 H2. specialize (H c). rewrite H1, H2 in H. simpl in H.
  now apply negb_true_iff in H.
Qed.

(** Escaping a path and unescaping it again gives the path back. *)
Lemma unescape_escape_path (s : string) :
  GoURL.unescape (GoURL.escape s GoURL.encodePath) GoURL.encodePath = Some s.
Proof. apply unescape_escape, all_true, roundTrips_path. Qed.

(** The escaped form of a path holds no control byte, [?] or [#]. *)
Lemma escape_path_clean (s : string) :
  all pathClean (GoURL.escape s GoURL.encodePath) = true.
Proof.
  apply (all_escape _ _ (fun _ => true)); [|now apply all_true].
  intros c _. apply escaped_path_clean.
Qed.

Lemma validEncoded_clean (s : string) :
  GoURL.validEncoded s GoURL.encodePath = true → all pathClean s = true.
Proof. apply all_impl, validEncodedByte_clean. Qed.

Lemma escape_path_slash (s : string) :
  HasPrefix s "/" = true →
  HasPrefix (GoURL.escape s GoURL.encodePath) "/" = true.
Proof.
  destruct s as [|c s]; simpl; [discriminate|]. rewrite andb_true_r.
  intros Hc. apply Ascii.eqb_eq in Hc. subst c. reflexivity.
Qed.

Lemma getSchemeFrom_run (rest : string) : ∀ (s pre : string) (i : nat),
  i = len pre → i ≠ 0 → all schemeByte s = true →
  GoURL.getSchemeFrom i (s +:+ String ":" rest)
    (pre +:+ s +:+ String ":" rest) = Some (pre +:+ s, rest).
Proof.
  induction s as [|c s IH]; intros pre i Hi Hpos Hs; simpl.
  - destruct i as [|i]; [congruence|]. rewrite Hi, take_app.
    now rewrite append_nil_r.
  - simpl in Hs. apply andb_true_iff in Hs as [Hc Hs].
    pose proof (schemeByte_facts c Hc) as Hf. unfold schemeByteFacts in Hf.
    bools.
    assert (Hrec : GoURL.getSchemeFrom (S i) (s +:+ String ":" rest)
                     (pre +:+ String c (s +:+ String ":" rest))
                   = Some (pre +:+ String c s, rest)).
    { replace (pre +:+ String c (s +:+ String ":" rest))
        with ((pre +:+ String c "") +:+ s +:+ String ":" rest)
        by (now rewrite append_assoc).
      replace (pre +:+ String c s) with ((pre +:+ String c "") +:+ s)
        by (now rewrite append_assoc).
      apply IH; [|lia|exact Hs]. rewrite len_app, Hi. simpl. lia. }
    destruct (isAlpha c); [exact Hrec|].
    match goal with H : _ || _ = true |- _ => simpl in H; rewrite H end.
    match goal with H : eqb c ":" = false |- _ => rewrite ?H end.
    destruct i as [|i]; [congruence | exact Hrec].
Qed.

Lemma getScheme_valid (sch rest : string) :
  validScheme sch = true →
  GoURL.getScheme (sch +:+ String ":" rest) = Some (sch, rest).
Proof.
  destruct sch as [|c s]; simpl; [discriminate|]. intros H.
  apply andb_true_iff in H as [Hc Hs].
  pose proof (isLower_facts c Hc) as Hf. bools.
  unfold GoURL.getScheme. simpl.
  match goal with H : isAlpha c = true |- _ => rewrite H end.
  apply (getSchemeFrom_run rest s (String c "") 1); auto.
Qed.

Lemma ToLowerASCII_scheme (s : string) :
  all schemeByte s = true → ToLowerASCII s = s.
Proof.
  induction s as [|c s IH]; simpl; [reflexivity|]. intros H.
  apply andb_true_iff in H as [Hc Hs].
  pose proof (schemeByte_facts c Hc) as Hf. unfold schemeByteFacts in Hf.
  bools. unfold lower.
  match goal with H : isUpper c = false |- _ => rewrite H end.
  f_equal. exact (IH Hs).
Qed.

Lemma validScheme_bytes (s : string) :
  validScheme s = true → all schemeByte s = true ∧ isEmpty s = false
                         ∧ String.eqb s "*" = false.
Proof.
  destruct s as [|c s]; simpl; [discriminate|]. intros H.
  apply andb_true_iff in H as [Hc Hs].
  pose proof (isLower_facts c Hc) as Hf. bools.
  match goal with H : schemeByte c = true |- _ => rewrite H end.
  match goal with H : eqb c "*" = false |- _ =>
    unfold eqb in H; rewrite H end.
  auto.
Qed.

Lemma schemeText_facts (sch : string) :
  isEmpty sch || validScheme sch = true →
  all schemeByte sch = true
  ∧ all pathClean (schemeText sch) = true
  ∧ (∀ rest, HasPrefix rest "/" = true →
       GoURL.getScheme (schemeText sch +:+ rest) = Some (sch, rest)
       ∧ String.eqb (schemeText sch +:+ rest) "*" = false).
Proof.
  destruct sch as [|c s]; intros H.
  - split; [reflexivity|]. split; [reflexivity|]. intros rest Hrest.
    destruct rest as [|r rest]; [discriminate Hrest|]. simpl in Hrest.
    rewrite andb_true_r in Hrest. apply Ascii.eqb_eq in Hrest. subst r.
    now split.
  - simpl in H. pose proof H as Hvalid.
    destruct (validScheme_bytes (String c s) Hvalid) as (Hsb & _ & _).
    split; [exact Hsb|]. split.
    + unfold schemeText. cbn [isEmpty]. rewrite all_app.
      apply andb_true_iff. split; [|reflexivity].
      eapply all_impl; [|exact Hsb]. intros x Hx.
      pose proof (schemeByte_facts x Hx) as Hf. unfold schemeByteFacts in Hf.
      now bools.
    + intros rest _. unfold schemeText. cbn [isEmpty].
      rewrite append_assoc. split; [now apply getScheme_valid|].
      apply andb_true_iff in H as [Hc _].
      pose proof (isLower_facts c Hc) as Hf. bools. simpl.
      match goal with H : eqb c "*" = false |- _ =>
        unfold eqb in H; rewrite H end.
      reflexivity.
Qed.

Lemma slash_not_star (P : string) :
  HasPrefix P "/" = true → String.eqb P "*" = false.
Proof.
  destruct P as [|c P]; simpl; [discriminate|]. rewrite andb_true_r.
  intros Hc. apply Ascii.eqb_eq in Hc. now subst c.
Qed.

(** The path text printed for a URL whose path starts with a slash:
    it starts with a slash, is free of [?], [#] and control bytes,
    parses back to the path, and is printed again after that. *)
Lemma EscapedPath_web (q : GoURL.URL) :
  HasPrefix (GoURL.Path q) "/" = true →
  isEmpty (GoURL.RawPath q) || HasPrefix (GoURL.RawPath q) "/" = true →
  HasPrefix (GoURL.EscapedPath q) "/" = true
  ∧ all pathClean (GoURL.EscapedPath q) = true
  ∧ ∃ R', GoURL.setPath (GoURL.EscapedPath q) = Some (GoURL.Path q, R')
          ∧ ∀ q', GoURL.Path q' = GoURL.Path q → GoURL.RawPath q' = R' →
                  GoURL.EscapedPath q' = GoURL.EscapedPath q.
Proof.
  intros HP HR. pose proof (slash_not_star _ HP) as Hstar.
  assert (Hdefault : ∀ q', GoURL.Path q' = GoURL.Path q →
                           GoURL.RawPath q' = "" →
                           GoURL.EscapedPath q'
                           = GoURL.escape (GoURL.Path q) GoURL.encodePath).
  { intros q' HP' HR'. unfold GoURL.EscapedPath.
    rewrite HR', HP', Hstar. reflexivity. }
  unfold GoURL.EscapedPath at 1 2 3 5.
  destruct (negb (isEmpty (GoURL.RawPath q))
            && GoURL.validEncoded (GoURL.RawPath q) GoURL.encodePath
            && match GoURL.unescape (GoURL.RawPath q) GoURL.encodePath with
               | Some p => String.eqb p (GoURL.Path q)
               | None => false
               end) eqn:Hraw.
  - apply andb_true_iff in Hraw as [Hraw Hun].
    apply andb_true_iff in Hraw as [Hne Hvalid].
    apply negb_true_iff in Hne. rewrite Hne in HR. simpl in HR.
    destruct (GoURL.unescape (GoURL.RawPath q) GoURL.encodePath)
      as [P0|] eqn:Hdec; [|discriminate Hun].
    apply String.eqb_eq in Hun. subst P0.
    split; [exact HR|]. split; [now apply validEncoded_clean|].
    unfold GoURL.setPath. rewrite Hdec. simpl.
    eexists. split; [reflexivity|].
    intros q' HP' HR'.
    destruct (String.eqb (GoURL.RawPath q)
                (GoURL.escape (GoURL.Path q) GoURL.encodePath)) eqn:Heq.
    + apply String.eqb_eq in Heq. rewrite (Hdefault q' HP' HR').
      symmetry. exact Heq.
    + unfold GoURL.EscapedPath. rewrite HR', HP', Hne, Hvalid, Hdec.
      now rewrite String.eqb_refl.
  - rewrite Hstar.
    split; [now apply escape_path_slash|].
    split; [apply escape_path_clean|].
    unfold GoURL.setPath. rewrite unescape_escape_path. simpl.
    rewrite String.eqb_refl.
    eexists. split; [reflexivity|]. apply Hdefault.
Qed.

Lemma HasSuffix_slash_split (s : string) :
  HasSuffix s "/" = true → s = take (len s - 1) s +:+ "/".
Proof.
  induction s as [|c s IH]; [discriminate|]. intros H.
  change (HasSuffix (String c s) "/")
    with (String.eqb (String c s) "/" || HasSuffix s "/") in H.
  destruct s as [|d s].
  - simpl in H. destruct (Ascii.eqb_spec c "/"); [|discriminate H].
    now subst c.
  - assert (String.eqb (String c (String d s)) "/" = false) as Hlong
      by (simpl; now destruct (Ascii.eqb c "/")).
    rewrite Hlong, orb_false_l in H. specialize (IH H).
    replace (len (String c (String d s)) - 1)
      with (S (len (String d s) - 1)) by (simpl; lia).
    change (take (S (len (String d s) - 1)) (String c (String d s)))
      with (String c (take (len (String d s) - 1) (String d s))).
    change (String c (take (len (String d s) - 1) (String d s)) +:+ "/")
      with (String c (take (len (String d s) - 1) (String d s) +:+ "/")).
    now rewrite <- IH.
Qed.

(** The path [NormalizeURL] arrives at, for a path that is empty or
    starts with a slash and does not end in two: it starts with a
    slash, and normalising it again changes nothing. *)
Lemma normalized_path (P : string) :
  isEmpty P || HasPrefix P "/" = true →
  HasSuffix P "//" = false →
  let P1 := TrimSuffix (if isEmpty P then "/" else P) "/" in
  let P' := if isEmpty P1 then "/" else P1 in
  HasPrefix P' "/" = true
  ∧ (let Q1 := TrimSuffix (if isEmpty P' then "/" else P') "/" in
     if isEmpty Q1 then "/" else Q1) = P'.
Proof.
  intros Hshape Hdouble.
  destruct P as [|c P]; [now split|].
  simpl in Hshape. rewrite andb_true_r in Hshape.
  apply Ascii.eqb_eq in Hshape. subst c.
  cbv zeta. change (isEmpty (String "/" P)) with false. cbv iota.
  assert (Hcases : TrimSuffix (String "/" P) "/" = ""
                   ∨ ∃ T, TrimSuffix (String "/" P) "/" = String "/" T
                          ∧ HasSuffix (String "/" T) "/" = false).
  { unfold TrimSuffix.
    destruct (HasSuffix (String "/" P) "/") eqn:Hsuf; [|right; eauto].
    pose proof (HasSuffix_slash_split _ Hsuf) as Hsplit.
    change (len "/") with 1.
    destruct (take (len (String "/" P) - 1) (String "/" P)) as [|t T] eqn:Ht;
      [now left|right].
    assert (t = "/"%char) as -> by (simpl in Hsplit; congruence).
    exists T. split; [reflexivity|].
    destruct (HasSuffix (String "/" T) "/") eqn:Hsuf2; [|reflexivity].
    exfalso. pose proof (HasSuffix_slash_split _ Hsuf2) as Hsplit2.
    rewrite Hsplit2, append_assoc in Hsplit.
    change ("/" +:+ "/") with "//" in Hsplit.
    rewrite Hsplit, HasSuffix_app in Hdouble. discriminate Hdouble. }
  destruct Hcases as [-> | (T & -> & Hsuf)].
  - now split.
  - cbn [isEmpty]. split; [reflexivity|].
    unfold TrimSuffix. now rewrite Hsuf.
Qed.

Lemma rawSchemeByte_facts c :
  rawSchemeByte c = true → rawSchemeByteFacts c = true.
Proof. revert c. apply byte_implies. vm_compute. reflexivity. Qed.

Lemma isAlpha_raw c : isAlpha c = true → rawSchemeByte c = true.
Proof. unfold rawSchemeByte. now intros ->. Qed.

(** The scheme [getScheme] returns is empty or well formed. *)
Lemma getSchemeFrom_shape : ∀ (rest pre raw sch r : string),
  pre = "" ∨ validRawScheme pre = true →
  GoURL.getSchemeFrom (len pre) rest (pre +:+ rest) = Some (sch, r) →
  sch = "" ∨ validRawScheme sch = true.
Proof.
  induction rest as [|c rest IH]; intros pre raw sch r Hpre Hget.
  { simpl in Hget. inversion Hget. now left. }
  assert (Hnext : rawSchemeByte c = true →
                  (pre = "" → isAlpha c = true) →
                  GoURL.getSchemeFrom (S (len pre)) rest
                    (pre +:+ String c rest) = Some (sch, r) →
                  sch = "" ∨ validRawScheme sch = true).
  { intros Hc Hfirst Hrec.
    apply (IH (pre +:+ String c "") raw sch r).
    - right. destruct Hpre as [-> | Hvalid].
      + simpl. now rewrite (Hfirst eq_refl).
      + destruct pre as [|x pre]; [discriminate Hvalid|]. simpl in *.
        apply andb_true_iff in Hvalid as [-> Hall]. simpl.
        rewrite all_app, Hall. simpl. now rewrite Hc.
    - rewrite len_app, append_assoc. simpl.
      replace (len pre + 1) with (S (len pre)) by lia. exact Hrec. }
  cbn [GoURL.getSchemeFrom] in Hget.
  destruct (isAlpha c) eqn:Halpha.
  { apply Hnext; auto. now apply isAlpha_raw. }
  destruct (isDigit c || oneOf "+-." c) eqn:Hdigit.
  { destruct pre as [|x pre]; simpl in Hget; [inversion Hget; now left|].
    apply Hnext; [|discriminate|exact Hget].
    unfold rawSchemeByte. rewrite Halpha. exact Hdigit. }
  destruct (eqb c ":").
  - destruct pre as [|x pre]; simpl in Hget; [discriminate Hget|].
    inversion Hget; subst sch r.
    change (String x (take (len pre) (pre +:+ String c rest)))
      with (take (len (String x pre)) (String x pre +:+ String c rest)).
    rewrite take_app. destruct Hpre as [Hnil | Hvalid];
      [discriminate Hnil | now right].
  - inversion Hget. now left.
Qed.

Lemma ToLowerASCII_valid (s : string) :
  validRawScheme s = true → validScheme (ToLowerASCII s) = true.
Proof.
  destruct s as [|c s]; simpl; [discriminate|]. intros H.
  apply andb_true_iff in H as [Hc Hs].
  pose proof (rawSchemeByte_facts c (isAlpha_raw c Hc)) as Hf.
  unfold rawSchemeByteFacts in Hf. rewrite Hc in Hf. simpl in Hf. bools.
  apply andb_true_iff. split; [assumption|].
  clear -Hs. induction s as [|x s IH]; simpl in *; [reflexivity|].
  apply andb_true_iff in Hs as [Hx Hs].
  pose proof (rawSchemeByte_facts x Hx) as Hf.
  unfold rawSchemeByteFacts in Hf. bools.
  apply andb_true_iff. split; [assumption | now apply IH].
Qed.

Lemma Index_prefix (sep : string) : ∀ (s : string) (i : nat),
  Index s sep = Some i → HasPrefix (drop i s) sep = true.
Proof.
  induction s as [|c s IH]; intros i; simpl.
  - destruct (HasPrefix "" sep) eqn:Hp; [|discriminate].
    intros Hi. inversion Hi; subst i. exact Hp.
  - destruct (HasPrefix (String c s) sep) eqn:Hp.
    + intros Hi. inversion Hi; subst i. exact Hp.
    + destruct (Index s sep) as [j|] eqn:Hj; [|discriminate].
      intros Hi. inversion Hi; subst i. simpl. now apply IH.
Qed.

(** [setPath] keeps the leading slash. *)
Lemma setPath_shape (r path raw : string) :
  GoURL.setPath r = Some (path, raw) →
  isEmpty r || HasPrefix r "/" = true →
  isEmpty path || HasPrefix path "/" = true
  ∧ isEmpty raw || HasPrefix raw "/" = true.
Proof.
  unfold GoURL.setPath, GoURL.unescape. intros Hset Hr.
  destruct (GoURL.unescapeOK GoURL.encodePath r); [|discriminate Hset].
  simpl in Hset. inversion Hset; subst path raw. clear Hset. split.
  - destruct r as [|c r]; [reflexivity|]. simpl in Hr.
    rewrite andb_true_r in Hr. apply Ascii.eqb_eq in Hr. subst c. reflexivity.
  - destruct (String.eqb r _); [reflexivity | exact Hr].
Qed.

(** In a host, an escape that passes the check of [unescape] stands
    for [%] or a byte from 0x80 on, and an unescaped byte that passes
    it is one a host is made of. *)
Lemma host_escape_decodes (a b : ascii) :
  GoURL.unescapeOK GoURL.encodeHost (String "%" (String a (String b "")))
  = true →
  parsedHostByte (GoURL.hexByte a b) = true.
Proof.
  revert b. revert a.
  assert (H : forallb (fun a => forallb (fun b =>
              implb (GoURL.unescapeOK GoURL.encodeHost
                       (String "%" (String a (String b ""))))
                    (parsedHostByte (GoURL.hexByte a b))) allBytes) allBytes
              = true) by (vm_compute; reflexivity).
  intros a b Hab. rewrite forallb_forall in H.
  specialize (H a (allBytes_complete a)). rewrite forallb_forall in H.
  specialize (H b (allBytes_complete b)). now rewrite Hab in H.
Qed.

Lemma host_raw_byte (c : ascii) :
  eqb c "%" = false →
  GoURL.unescapeOK GoURL.encodeHost (single c) = true →
  parsedHostByte c = true.
Proof.
  intros H1 H2. revert c H1 H2.
  assert (∀ c, implb (negb (eqb c "%")
                      && GoURL.unescapeOK GoURL.encodeHost (single c))
                 (parsedHostByte c) = true) as H
    by (apply byte_forall; vm_compute; reflexivity).
  intros c H1 H2. specialize (H c). now rewrite H1, H2 in H.
Qed.

(** The two loops of [unescape] on the three shapes of a string. *)
Lemma unescapeOK_escape (m : GoURL.encoding) (a b : ascii) (rest : string) :
  GoURL.unescapeOK m (String "%" (String a (String b rest)))
  = GoURL.unescapeOK m (String "%" (String a (String b "")))
    && GoURL.unescapeOK m rest.
Proof.
  simpl.
  repeat match goal with
         | |- context [if ?b then _ else _] => destruct b
         end; reflexivity.
Qed.

Lemma unescapeOK_raw (m : GoURL.encoding) (c : ascii) (rest : string) :
  eqb c "%" = false →
  GoURL.unescapeOK m (String c rest)
  = GoURL.unescapeOK m (single c) && GoURL.unescapeOK m rest.
Proof.
  intros Hc. unfold single. cbn [GoURL.unescapeOK]. rewrite Hc.
  repeat match goal with
         | |- context [if ?b then _ else _] => destruct b
         end; reflexivity.
Qed.

Lemma unescapeDecode_host : ∀ (n : nat) (raw : string),
  (len raw ≤ n)%nat →
  GoURL.unescapeOK GoURL.encodeHost raw = true →
  all parsedHostByte (GoURL.unescapeDecode GoURL.encodeHost raw) = true.
Proof.
  induction n as [|n IH]; intros raw Hlen Hok.
  { destruct raw; [reflexivity | simpl in Hlen; lia]. }
  destruct raw as [|c raw]; [reflexivity|].
  destruct (eqb c "%") eqn:Hc.
  - apply Ascii.eqb_eq in Hc. subst c.
    destruct raw as [|a [|b rest]]; try discriminate Hok.
    rewrite unescapeOK_escape in Hok.
    apply andb_true_iff in Hok as [Hab Hrest].
    cbn [GoURL.unescapeDecode]. change (eqb "%" "%") with true. cbv iota.
    cbn [all]. rewrite (host_escape_decodes a b Hab). simpl.
    apply IH; [simpl in Hlen |- *; lia | exact Hrest].
  - rewrite (unescapeOK_raw _ _ _ Hc) in Hok.
    apply andb_true_iff in Hok as [Hraw Hrest].
    pose proof (host_raw_byte c Hc Hraw) as Hbyte.
    assert (Hnext : all parsedHostByte
                      (GoURL.unescapeDecode GoURL.encodeHost raw) = true)
      by (apply IH; [simpl in Hlen; lia | exact Hrest]).
    cbn [GoURL.unescapeDecode]. rewrite Hc.
    destruct (eqb c "+") eqn:Hplus.
    + apply Ascii.eqb_eq in Hplus. subst c. cbn [all].
      now rewrite Hbyte, Hnext.
    + cbn [all]. now rewrite Hbyte, Hnext.
Qed.

Lemma unescape_host_bytes (raw h : string) :
  GoURL.unescape raw GoURL.encodeHost = Some h →
  all parsedHostByte h = true.
Proof.
  unfold GoURL.unescape.
  destruct (GoURL.unescapeOK GoURL.encodeHost raw) eqn:Hok; [|discriminate].
  intros Hh. inversion Hh; subst h.
  now apply (unescapeDecode_host (len raw)).
Qed.

Lemma unescape_bracket (m : GoURL.encoding) (r h : string) :
  GoURL.unescape (String "[" r) m = Some h → HasPrefix h "[" = true.
Proof.
  unfold GoURL.unescape. destruct (GoURL.unescapeOK m _); [|discriminate].
  intros Hh. inversion Hh. reflexivity.
Qed.

(** A host that does not open with a bracket was read by [unescape]
    in host mode. *)
Lemma parseHost_bytes (raw h : string) :
  GoURL.parseHost raw = Some h →
  HasPrefix h "[" = false →
  all parsedHostByte h = true.
Proof.
  unfold GoURL.parseHost. intros Hparse Hb.
  destruct (HasPrefix raw "[") eqn:Hraw.
  - exfalso. destruct raw as [|c r]; [discriminate Hraw|].
    simpl in Hraw. rewrite andb_true_r in Hraw.
    apply Ascii.eqb_eq in Hraw. subst c.
    destruct (LastIndex (String "[" r) "]") as [i|]; [|discriminate Hparse].
    destruct (negb (GoURL.validOptionalPort _)); [discriminate Hparse|].
    destruct (Index (take i (String "[" r)) "%25") as [zone|] eqn:Hzone.
    + destruct zone as [|z].
      * apply Index_prefix in Hzone. simpl in Hzone.
        destruct i; simpl in Hzone; discriminate Hzone.
      * destruct i as [|i]; [discriminate Hzone|].
        change (take (S z) (String "[" r)) with (String "[" (take z r))
          in Hparse.
        destruct (GoURL.unescape (String "[" (take z r)) GoURL.encodeHost)
          as [h1|] eqn:H1; [|discriminate Hparse].
        apply unescape_bracket in H1.
        cbn [mbind option_bind] in Hparse.
        destruct (GoURL.unescape _ GoURL.encodeZone) as [h2|];
          [|discriminate Hparse].
        cbn [mbind option_bind] in Hparse.
        destruct (GoURL.unescape _ GoURL.encodeHost) as [h3|];
          [|discriminate Hparse].
        cbn [mbind option_bind] in Hparse. inversion Hparse; subst h.
        destruct h1 as [|x h1]; [discriminate H1|].
        simpl in H1, Hb. rewrite Hb in H1. discriminate H1.
    + apply unescape_bracket in Hparse. rewrite Hparse in Hb. discriminate Hb.
  - destruct (LastIndex raw ":") as [i|].
    + destruct (negb (GoURL.validOptionalPort _)); [discriminate Hparse|].
      now apply (unescape_host_bytes raw).
    + now apply (unescape_host_bytes raw).
Qed.

Lemma parseAuthority_bytes (authority : string) (user : option GoURL.Userinfo)
  (h : string) :
  GoURL.parseAuthority authority = Some (user, h) →
  HasPrefix h "[" = false →
  all parsedHostByte h = true.
Proof.
  unfold GoURL.parseAuthority. intros Hparse Hb.
  destruct (LastIndex authority "@") as [i|].
  - destruct (GoURL.parseHost (drop (S i) authority)) as [h0|] eqn:Hhost;
      [|discriminate Hparse].
    cbn [mbind option_bind] in Hparse.
    assert (h0 = h) as ->.
    { destruct (negb (GoURL.validUserinfo _)); [discriminate Hparse|].
      destruct (negb (Contains _ ":")).
      - destruct (GoURL.unescape _ _); [|discriminate Hparse].
        cbn [mbind option_bind] in Hparse. now inversion Hparse.
      - destruct (Cut _ ":") as [[uname pword] found].
        destruct (GoURL.unescape uname _); [|discriminate Hparse].
        cbn [mbind option_bind] in Hparse.
        destruct (GoURL.unescape pword _); [|discriminate Hparse].
        cbn [mbind option_bind] in Hparse. now inversion Hparse. }
    now apply (parseHost_bytes _ _ Hhost).
  - destruct (GoURL.parseHost authority) as [h0|] eqn:Hhost;
      [|discriminate Hparse].
    cbn [mbind option_bind] in Hparse. inversion Hparse; subst.
    now apply (parseHost_bytes _ _ Hhost).
Qed.

(** The last occurrence of a byte lies before a suffix free of it. *)
Lemma LastIndex_last (d : ascii) (a b : string) :
  all (fun c => negb (eqb c d)) b = true →
  LastIndex (a +:+ String d b) (String d "") = Some (len a).
Proof.
  intros Hb. induction a as [|x a IH]; simpl.
  - rewrite (LastIndex_absent d b Hb). unfold eqb. now rewrite Ascii.eqb_refl.
  - now rewrite IH.
Qed.

Lemma byte_class (P Q : ascii → bool) (s : string) :
  forallb (fun c => implb (P c) (Q c)) allBytes = true →
  all P s = true → all Q s = true.
Proof. intros H. apply all_impl. now apply byte_implies. Qed.

(** The printed form of a parsed host. *)
Lemma host_text (h : string) :
  isEmpty h = false → HasPrefix h "[" = false →
  all parsedHostByte h = true →
  all hostTextByte (GoURL.escape h GoURL.encodeHost) = true
  ∧ isEmpty (GoURL.escape h GoURL.encodeHost) = false
  ∧ (GoURL.parseHost (GoURL.escape h GoURL.encodeHost) = Some h
     ∨ GoURL.parseHost (GoURL.escape h GoURL.encodeHost) = None).
Proof.
  intros Hne Hb Hh.
  assert (Hclean : all hostTextByte (GoURL.escape h GoURL.encodeHost) = true)
    by (apply (all_escape _ _ parsedHostByte);
        [apply escaped_host_clean | exact Hh]).
  assert (Hun : GoURL.unescape (GoURL.escape h GoURL.encodeHost)
                  GoURL.encodeHost = Some h).
  { apply unescape_escape. eapply all_impl; [|exact Hh].
    apply roundTrips_host. }
  destruct h as [|c h]; [discriminate Hne|].
  simpl in Hh, Hb. apply andb_true_iff in Hh as [Hc Hh].
  rewrite andb_true_r in Hb.
  pose proof (escaped_host_bracket c Hc Hb) as Hfirst.
  assert (Hshape : isEmpty (GoURL.escape (String c h) GoURL.encodeHost) = false
                   ∧ HasPrefix (GoURL.escape (String c h) GoURL.encodeHost) "["
                     = false).
  { rewrite escape_cons.
    destruct (GoURL.escape (single c) GoURL.encodeHost) as [|x t] eqn:Ht.
    - exfalso. revert Ht. unfold single. simpl.
      destruct (_ && _); [discriminate|].
      destruct (GoURL.shouldEscape c _); discriminate.
    - simpl in Hfirst |- *. split; [reflexivity | exact Hfirst]. }
  destruct Hshape as [Hne' Hb'].
  split; [exact Hclean|]. split; [exact Hne'|].
  unfold GoURL.parseHost. rewrite Hb', Hun.
  destruct (LastIndex _ ":"); [|now left].
  destruct (negb (GoURL.validOptionalPort _)); [now right | now left].
Qed.

(** The printed form of a user name or a password. *)
Lemma user_text (s : string) :
  all userTextByte (GoURL.escape s GoURL.encodeUserPassword) = true
  ∧ GoURL.unescape (GoURL.escape s GoURL.encodeUserPassword)
      GoURL.encodeUserPassword = Some s.
Proof.
  split.
  - apply (all_escape _ _ (fun _ => true));
      [intros c _; apply escaped_user_clean | now apply all_true].
  - apply unescape_escape. apply all_true, roundTrips_user.
Qed.

(** The authority [URL.String] prints for a parsed host is clean, and
    read back, if at all, as an authority printed the same. *)
Lemma authority_round_trip (user : option GoURL.Userinfo) (h : string) :
  isEmpty h = false → HasPrefix h "[" = false →
  all parsedHostByte h = true →
  all authClean (authorityText user h) = true
  ∧ isEmpty (authorityText user h) = false
  ∧ (GoURL.parseAuthority (authorityText user h) = None
     ∨ ∃ user', GoURL.parseAuthority (authorityText user h) = Some (user', h)
                ∧ authorityText user' h = authorityText user h).
Proof.
  intros Hne Hb Hh.
  destruct (host_text h Hne Hb Hh) as (Hclean & Hne' & Hhost).
  set (Hx := GoURL.escape h GoURL.encodeHost) in *.
  assert (HcleanA : all authClean Hx = true).
  { eapply byte_class; [|exact Hclean]. vm_compute. reflexivity. }
  assert (Hat : all (fun c => negb (eqb c "@")) Hx = true).
  { eapply byte_class; [|exact Hclean]. vm_compute. reflexivity. }
  destruct user as [[name pass set]|]; unfold authorityText; fold Hx.
  2: { simpl. split; [exact HcleanA|]. split; [exact Hne'|].
       unfold GoURL.parseAuthority. rewrite (LastIndex_absent "@" Hx Hat).
       destruct Hhost as [-> | ->]; [right | now left].
       exists None. split; reflexivity. }
  unfold GoURL.UserinfoString. cbn [GoURL.username GoURL.password
                                     GoURL.passwordSet].
  destruct (user_text name) as [HN HNun]. destruct (user_text pass) as [HP HPun].
  set (N := GoURL.escape name GoURL.encodeUserPassword) in *.
  set (Pw := GoURL.escape pass GoURL.encodeUserPassword) in *.
  set (U := N +:+ (if set then ":" +:+ Pw else "")).
  assert (HU : all authClean U = true
               ∧ GoURL.validUserinfo U = true).
  { assert (all authClean N = true ∧ all authClean Pw = true) as [HNa HPa]
      by (split; eapply byte_class; try eassumption; vm_compute; reflexivity).
    assert (∀ s, all userTextByte s = true → GoURL.validUserinfo s = true)
      as Hvalid
      by (intros s; apply byte_class; vm_compute; reflexivity).
    pose proof (Hvalid N HN) as HvN. pose proof (Hvalid Pw HP) as HvPw.
    unfold GoURL.validUserinfo in *. unfold U.
    destruct set; rewrite !all_app; [|now rewrite HNa, HvN].
    change (":" +:+ Pw) with (String ":" Pw). cbn [all].
    rewrite HNa, HPa, HvN, HvPw. split; reflexivity. }
  destruct HU as [HUclean HUvalid].
  assert (Htext : (U +:+ "@") +:+ Hx = U +:+ String "@" Hx)
    by (now rewrite append_assoc).
  rewrite Htext.
  split; [rewrite all_app, HUclean; simpl; exact HcleanA|].
  split; [destruct U; reflexivity|].
  unfold GoURL.parseAuthority.
  rewrite (LastIndex_last "@" U Hx Hat).
  change (drop (S (len U)) (U +:+ String "@" Hx))
    with (drop (S (len U)) (U +:+ String "@" Hx)).
  assert (drop (S (len U)) (U +:+ String "@" Hx) = Hx) as ->.
  { clear. induction U as [|x U IH]; simpl; [reflexivity | exact IH]. }
  rewrite take_app, HUvalid.
  destruct Hhost as [-> | ->]; [|now left].
  cbn [mbind option_bind negb].
  assert (HNcolon : all (fun c => negb (eqb c ":")) N = true).
  { eapply byte_class; [|exact HN]. vm_compute. reflexivity. }
  right. unfold U. destruct set.
  - unfold Contains, Cut. change (":" +:+ Pw) with (String ":" Pw).
    rewrite (Index_first ":" N Pw HNcolon). cbn [negb].
    rewrite take_app.
    assert (drop (len N + len ":") (N +:+ String ":" Pw) = Pw) as ->.
    { clear. induction N as [|x N IH]; simpl; [reflexivity | exact IH]. }
    rewrite HNun, HPun. cbn [mbind option_bind].
    exists (Some (GoURL.mkUserinfo name pass true)). split; [reflexivity|].
    unfold authorityText, GoURL.UserinfoString. simpl.
    fold N Pw Hx. now rewrite !append_assoc.
  - rewrite append_nil_r. unfold Contains.
    rewrite (Index_absent ":" N HNcolon). cbn [negb].
    rewrite HNun. cbn [mbind option_bind].
    exists (Some (GoURL.mkUserinfo name "" false)). split; [reflexivity|].
    unfold authorityText, GoURL.UserinfoString. simpl.
    fold N Hx. now rewrite !append_assoc, ?append_nil_r.
Qed.

(** The text of a URL with an authority, as [URL.String] lays it out,
    parses back to its parts. *)
Lemma parse_text (sch A E : string) (fq : bool) (P R : string) :
  isEmpty sch || validScheme sch = true →
  isEmpty A = false →
  all authClean A = true →
  HasPrefix E "/" = true →
  all pathClean E = true →
  GoURL.setPath E = Some (P, R) →
  GoURL.Parse (schemeText sch +:+ String "/" (String "/"
                 (A +:+ E +:+ (if fq then "?" else ""))))
  = match GoURL.parseAuthority A with
    | Some (user, host) =>
        Some (GoURL.mkURL sch "" user host P R false fq "" "" "")
    | None => None
    end.
Proof.
  intros Hsch Hne HA Hslash Hclean Hpath.
  destruct (schemeText_facts sch Hsch) as (Hsb & Hs & Hscheme).
  remember (String "/" (String "/" (A +:+ E))) as X eqn:HeqX.
  remember (if fq then "?" else "") as tail eqn:Heqtail.
  assert (Hrest : String "/" (String "/" (A +:+ E +:+ tail)) = X +:+ tail).
  { rewrite HeqX. simpl. now rewrite append_assoc. }
  rewrite Hrest.
  assert (HA' : ∀ c, authClean c = true →
                     pathClean c = true ∧ eqb c "/" = false).
  { intros c Hc. unfold authClean in Hc. bools. now split. }
  assert (HX : all pathClean X = true).
  { rewrite HeqX. simpl. rewrite all_app, Hclean, andb_true_r.
    eapply all_impl; [|exact HA]. intros c Hc. now apply HA'. }
  assert (Hpre : HasPrefix (X +:+ tail) "/" = true) by (now rewrite HeqX).
  destruct (Hscheme (X +:+ tail) Hpre) as [Hget Hstar].
  assert (Hall : ∀ Q : ascii → bool,
            (∀ c, pathClean c = true → Q c = true) →
            Q "?"%char = true →
            all Q (schemeText sch +:+ X +:+ tail) = true).
  { intros Q HQ Hq. rewrite !all_app.
    rewrite (all_impl _ _ _ HQ Hs), (all_impl _ _ _ HQ HX).
    rewrite Heqtail. destruct fq; simpl; [now rewrite Hq | reflexivity]. }
  unfold GoURL.Parse, Cut.
  rewrite (Index_absent "#");
    [|apply Hall; [intros c Hc; unfold pathClean in Hc; bools;
                   apply negb_true_iff; assumption | reflexivity]].
  cbn [isEmpty].
  assert (Hparse :
    GoURL.parse (schemeText sch +:+ X +:+ tail)
    = match GoURL.parseAuthority A with
      | Some (user, host) =>
          Some (GoURL.mkURL sch "" user host P R false fq "" "" "")
      | None => None
      end).
  2: { rewrite Hparse. now destruct (GoURL.parseAuthority A) as [[? ?]|]. }
  unfold GoURL.parse.
  assert (GoURL.stringContainsCTLByte (schemeText sch +:+ X +:+ tail)
          = false) as ->.
  { unfold GoURL.stringContainsCTLByte. apply negb_false_iff.
    apply Hall; [|reflexivity]. intros c Hc. unfold pathClean in Hc.
    bools. apply negb_true_iff. apply orb_false_iff. now split. }
  rewrite Hstar, Hget. cbn [mbind option_bind].
  rewrite (ToLowerASCII_scheme sch Hsb).
  assert (HXq : all (fun c => negb (eqb c "?")) X = true).
  { eapply all_impl; [|exact HX]. intros c Hc. unfold pathClean in Hc.
    bools. apply negb_true_iff. assumption. }
  assert (Hsplit :
    (if HasSuffix (X +:+ tail) "?" && Nat.eqb (CountByte (X +:+ tail) "?") 1
     then (take (len (X +:+ tail) - 1) (X +:+ tail), true, "")
     else let '(before, after, _) := Cut (X +:+ tail) "?" in
          (before, false, after))
    = (X, fq, "")).
  { rewrite Heqtail. destruct fq.
    - rewrite HasSuffix_app, CountByte_app, (CountByte_absent "?" X HXq).
      simpl. rewrite len_app. simpl.
      replace (len X + 1 - 1) with (len X) by lia. now rewrite take_app.
    - rewrite append_nil_r, (HasSuffix_absent "?" X HXq). simpl.
      unfold Cut. now rewrite (Index_absent "?" X HXq). }
  rewrite Hsplit. cbv beta iota.
  assert (HasPrefix X "/" = true) as -> by (now rewrite HeqX).
  assert (HasPrefix X "//" = true) as -> by (now rewrite HeqX).
  assert (HasPrefix X "///" = false) as ->.
  { rewrite HeqX. destruct A as [|a0 A]; [discriminate Hne|].
    simpl in HA. apply andb_true_iff in HA as [Ha0 _].
    destruct (HA' a0 Ha0) as [_ Ha0']. simpl. now rewrite Ha0'. }
  assert (drop 2 X = A +:+ E) as -> by (now rewrite HeqX).
  rewrite orb_true_r. cbn [negb andb].
  destruct E as [|e E']; [discriminate Hslash|].
  simpl in Hslash. rewrite andb_true_r in Hslash.
  apply Ascii.eqb_eq in Hslash. subst e.
  rewrite (Index_first "/" A E').
  2: { eapply all_impl; [|exact HA]. intros c Hc.
       destruct (HA' c Hc) as [_ Hc']. now rewrite Hc'. }
  rewrite take_app, drop_app.
  destruct (GoURL.parseAuthority A) as [[user host]|]; [|reflexivity].
  cbn -[GoURL.setPath]. rewrite Hpath. reflexivity.
Qed.

(** The text [URL.String] gives a URL with a host, no query or
    fragment, and a path text starting with a slash. *)
Lemma String_text (q : GoURL.URL) :
  GoURL.Opaque q = "" →
  isEmpty (GoURL.Host q) = false →
  GoURL.RawQuery q = "" → GoURL.Fragment q = "" →
  HasPrefix (GoURL.EscapedPath q) "/" = true →
  GoURL.String q
  = schemeText (GoURL.Scheme q) +:+ String "/" (String "/"
      (authorityText (GoURL.User q) (GoURL.Host q) +:+ GoURL.EscapedPath q
       +:+ (if GoURL.ForceQuery q then "?" else ""))).
Proof.
  intros Hop Hh Hq Hf HE.
  unfold GoURL.String, GoURL.authorityString, schemeText, authorityText.
  rewrite Hop, Hq, Hf, Hh, HE.
  cbn [isEmpty negb andb orb].
  rewrite !orb_true_r, !andb_false_r. cbn [negb andb orb].
  set (user := match GoURL.User q with
               | Some ui => GoURL.UserinfoString ui +:+ "@"
               | None => ""
               end).
  set (host := GoURL.escape (GoURL.Host q) GoURL.encodeHost).
  assert (Hbuf : ∀ pre, isEmpty (pre +:+ "//" +:+ user +:+ host) = false)
    by (intros [|? ?]; reflexivity).
  rewrite Hbuf. cbn [andb].
  destruct (isEmpty (GoURL.Scheme q)); cbn [negb];
    destruct (GoURL.ForceQuery q); simpl;
    rewrite ?append_assoc; simpl; rewrite ?append_assoc, ?append_nil_r;
    reflexivity.
Qed.

(** What [Parse] returns when it returns a host. *)
Lemma parse_host_shape (s : string) (url : GoURL.URL) :
  GoURL.parse s = Some url →
  isEmpty (GoURL.Host url) = false →
  isEmpty (GoURL.Scheme url) || validScheme (GoURL.Scheme url) = true
  ∧ GoURL.Opaque url = ""
  ∧ isEmpty (GoURL.Path url) || HasPrefix (GoURL.Path url) "/" = true
  ∧ isEmpty (GoURL.RawPath url) || HasPrefix (GoURL.RawPath url) "/" = true
  ∧ (HasPrefix (GoURL.Host url) "[" = false →
     all parsedHostByte (GoURL.Host url) = true).
Proof.
  unfold GoURL.parse. intros Hparse Hhost.
  destruct (GoURL.stringContainsCTLByte s); [discriminate Hparse|].
  destruct (String.eqb s "*").
  { inversion Hparse; subst url. discriminate Hhost. }
  destruct (GoURL.getScheme s) as [[sch0 rest0]|] eqn:Hget;
    [|discriminate Hparse].
  cbn [mbind option_bind] in Hparse.
  assert (Hsch : isEmpty (ToLowerASCII sch0)
                 || validScheme (ToLowerASCII sch0) = true).
  { destruct (getSchemeFrom_shape s "" s sch0 rest0 (or_introl eq_refl) Hget)
      as [-> | Hvalid]; [reflexivity|].
    rewrite (ToLowerASCII_valid _ Hvalid). apply orb_true_r. }
  match type of Hparse with
  | context [match ?t with (_, _) => _ end] =>
      match t with
      | (if _ then _ else _) => destruct t as [[rest fq] rq]
      end
  end.
  destruct (negb (HasPrefix rest "/") && negb (isEmpty (ToLowerASCII sch0))).
  { inversion Hparse; subst url. discriminate Hhost. }
  destruct (negb (HasPrefix rest "/") && Contains (Cut rest "/").1.1 ":");
    [discriminate Hparse|].
  destruct ((negb (isEmpty (ToLowerASCII sch0))
             || negb (HasPrefix rest "///")) && HasPrefix rest "//").
  - remember (drop 2 rest) as authority0 eqn:Hauth. clear Hauth.
    assert (Hfinish : ∀ authority rest',
              isEmpty rest' || HasPrefix rest' "/" = true →
              (GoURL.parseAuthority authority
               ≫= (λ '(user, host),
                     GoURL.setPath rest'
                     ≫= λ '(path, rawPath),
                          Some (GoURL.mkURL (ToLowerASCII sch0) "" user host
                                  path rawPath false fq rq "" ""))) = Some url →
              isEmpty (GoURL.Scheme url) || validScheme (GoURL.Scheme url) = true
              ∧ GoURL.Opaque url = ""
              ∧ isEmpty (GoURL.Path url) || HasPrefix (GoURL.Path url) "/" = true
              ∧ isEmpty (GoURL.RawPath url)
                || HasPrefix (GoURL.RawPath url) "/" = true
              ∧ (HasPrefix (GoURL.Host url) "[" = false →
                 all parsedHostByte (GoURL.Host url) = true)).
    { intros authority rest' Hrest' Hrun.
      destruct (GoURL.parseAuthority authority) as [[user host]|] eqn:Hauth;
        [|discriminate Hrun].
      cbn [mbind option_bind] in Hrun.
      destruct (GoURL.setPath rest') as [[path raw]|] eqn:Hset;
        [|discriminate Hrun].
      cbn [mbind option_bind] in Hrun. inversion Hrun; subst url. simpl.
      destruct (setPath_shape rest' path raw Hset Hrest') as [H1 H2].
      repeat split; auto.
      now apply (parseAuthority_bytes authority user host). }
    destruct (Index authority0 "/") as [i|] eqn:Hi.
    + apply (Hfinish (take i authority0) (drop i authority0)); [|exact Hparse].
      rewrite (Index_prefix "/" _ i Hi). apply orb_true_r.
    + apply (Hfinish authority0 ""); [reflexivity | exact Hparse].
  - destruct (GoURL.setPath rest) as [[path raw]|]; [|discriminate Hparse].
    cbn [mbind option_bind] in Hparse. inversion Hparse; subst url.
    discriminate Hhost.
Qed.

Lemma Parse_host_shape (u : string) (p : GoURL.URL) :
  GoURL.Parse u = Some p →
  isEmpty (GoURL.Host p) = false →
  isEmpty (GoURL.Scheme p) || validScheme (GoURL.Scheme p) = true
  ∧ GoURL.Opaque p = ""
  ∧ isEmpty (GoURL.Path p) || HasPrefix (GoURL.Path p) "/" = true
  ∧ isEmpty (GoURL.RawPath p) || HasPrefix (GoURL.RawPath p) "/" = true
  ∧ (HasPrefix (GoURL.Host p) "[" = false →
     all parsedHostByte (GoURL.Host p) = true).
Proof.
  unfold GoURL.Parse. destruct (Cut u "#") as [[u0 frag] found].
  destruct (GoURL.parse u0) as [url|] eqn:Hparse; [|discriminate].
  cbn [mbind option_bind].
  destruct (isEmpty frag).
  - intros Hp. inversion Hp; subst p. now apply (parse_host_shape u0).
  - destruct (GoURL.setFragment frag) as [[f rawf]|]; [|discriminate].
    cbn [mbind option_bind]. intros Hp. inversion Hp; subst p. simpl.
    now apply (parse_host_shape u0).
Qed.

End NetURL.

Section Idempotence.
Import GoBytes GoStrings weburl utils.

(** C9, as the code has it. [NormalizeURL] trims one trailing slash.
    It is idempotent on every string that does not parse, and on every
    string that parses to a URL with a host that is not a bracketed IP
    literal, with or without userinfo, a port, a query and a fragment,
    whose path does not end in two slashes. *)
Theorem NormalizeURL_idempotent_with_host (u : string) :
  GoURL.Parse u = None
  ∨ (∃ p, GoURL.Parse u = Some p
          ∧ isEmpty (GoURL.Host p) = false
          ∧ HasPrefix (GoURL.Host p) "[" = false
          ∧ HasSuffix (GoURL.Path p) "//" = false) →
  NormalizeURL (NormalizeURL u) = NormalizeURL u.
Proof.
  intros [Hnone | (p & Hp & Hne & Hbracket & Hdouble)].
  { unfold NormalizeURL. rewrite Hnone. now rewrite Hnone. }
  destruct (Parse_host_shape u p Hp Hne)
    as (Hsch & Hopaque & Hpath & HrawPath & Hhost).
  specialize (Hhost Hbracket).
  destruct (normalized_path (GoURL.Path p) Hpath Hdouble) as [Hslash Hfix].
  cbv zeta in Hslash, Hfix.
  set (q := normalized p).
  assert (Hq : NormalizeURL u = GoURL.String q)
    by (unfold NormalizeURL; now rewrite Hp).
  destruct (EscapedPath_web q Hslash HrawPath)
    as (HE & Hclean & R' & Hset & Hagain).
  destruct (authority_round_trip (GoURL.User p) (GoURL.Host p)
              Hne Hbracket Hhost) as (HA & HAne & Hauth).
  assert (Htext : GoURL.String q
                  = schemeText (GoURL.Scheme p) +:+ String "/" (String "/"
                      (authorityText (GoURL.User p) (GoURL.Host p)
                       +:+ GoURL.EscapedPath q
                       +:+ (if GoURL.ForceQuery p then "?" else "")))).
  { apply (String_text q); auto. }
  rewrite Hq, Htext. unfold NormalizeURL at 1.
  rewrite (parse_text _ _ _ (GoURL.ForceQuery p) _ R'
             Hsch HAne HA HE Hclean Hset).
  destruct Hauth as [-> | (user' & -> & Hsame)]; [reflexivity|].
  set (q2 := normalized _).
  assert (Hq2 : GoURL.EscapedPath q2 = GoURL.EscapedPath q).
  { apply Hagain; [|reflexivity]. unfold q2, q; simpl. exact Hfix. }
  rewrite (String_text q2); auto.
  - unfold q2 at 1 2 3 5; simpl. now rewrite Hq2, Hsame.
  - now rewrite Hq2.
Qed.

End Idempotence.

Lemma NormalizeURL_idempotent_with_host_witness :
  utils.NormalizeURL
    (utils.NormalizeURL "https://ann:pw@example.com:8443/a%20b/docs/?page=2#top")
  = utils.NormalizeURL "https://ann:pw@example.com:8443/a%20b/docs/?page=2#top".
Proof.
  apply (NormalizeURL_idempotent_with_host
           "https://ann:pw@example.com:8443/a%20b/docs/?page=2#top").
  right. eexists. split; [vm_compute; reflexivity|].
  repeat split; vm_compute; reflexivity.
Defined.

(** C9 as stated fails: of two trailing slashes each application trims
    one. *)
Lemma NormalizeURL_not_idempotent :
  ¬ (∀ u : string,
       utils.NormalizeURL (utils.NormalizeURL u) = utils.NormalizeURL u).
Proof.
  intros H. specialize (H "https://example.com/docs//").
  vm_compute in H. discriminate H.
Qed.

(** The text of the first normal form, and of the second. *)
Example NormalizeURL_two_slashes :
  utils.NormalizeURL "https://example.com/docs//" = "https://example.com/docs/"
  ∧ utils.NormalizeURL "https://example.com/docs/" = "https://example.com/docs".
Proof. split; vm_compute; reflexivity. Qed.

(** Without a host the text printed can itself be read differently: a
    path that decodes to two leading slashes is printed as such, and
    parsed back as a host. *)
Example NormalizeURL_without_host :
  utils.NormalizeURL "/%2Fa/" = "//a" ∧ utils.NormalizeURL "//a" = "//a/".
Proof. split; vm_compute; reflexivity. Qed.

(** *** File names *)

Section FileNames.
Import GoBytes GoStrings utils.

Local Arguments String.append !_ _ / : simpl nomatch.

Local Abbreviation fileByte := (fun c : ascii => isAlnum c || oneOf "-_" c).

Lemma replaceInvalidFrom_bytes (s : string) : ∀ skip,
  all fileByte (replaceInvalidFrom skip s) = true.
Proof.
  induction s as [|c s IH]; intros skip; [reflexivity|].
  cbn [replaceInvalidFrom]. destruct skip as [|k]; [|apply IH].
  destruct (isAlnum c || oneOf "-_" c) eqn:Hc; cbn [all].
  - now rewrite Hc, IH.
  - now rewrite IH.
Qed.

Lemma collapseUnderscores_bytes (P : ascii → bool) (s : string) :
  all P s = true → all P (collapseUnderscores s) = true.
Proof.
  induction s as [|c s IH]; [reflexivity|]. cbn [all collapseUnderscores].
  intros H. apply andb_true_iff in H as [Hc Hs].
  destruct (eqb c "_" && HasPrefix s "_"); cbn [all]; [auto|].
  now rewrite Hc, IH.
Qed.

Lemma HasPrefix_byte (s : string) (c : ascii) :
  HasPrefix s (String c "")
  = match s with EmptyString => false | String d _ => eqb d c end.
Proof. destruct s; simpl; [reflexivity | apply andb_true_r]. Qed.

Lemma HasPrefix_two (s : string) (c d : ascii) :
  HasPrefix s (String c (String d ""))
  = match s with
    | EmptyString => false
    | String x s' => eqb x c && HasPrefix s' (String d "")
    end.
Proof. destruct s; reflexivity. Qed.

Lemma collapseUnderscores_head (s : string) :
  HasPrefix (collapseUnderscores s) "_" = HasPrefix s "_".
Proof.
  induction s as [|c s IH]; [reflexivity|]. cbn [collapseUnderscores].
  rewrite (HasPrefix_byte (String c s)).
  destruct (eqb c "_") eqn:Hc; cbn [andb].
  - destruct (HasPrefix s "_") eqn:Hs; [now rewrite IH|].
    now rewrite HasPrefix_byte.
  - now rewrite HasPrefix_byte.
Qed.

(** After the second replacement no two underscores are adjacent. *)
Lemma collapseUnderscores_single (s : string) :
  Contains (collapseUnderscores s) "__" = false.
Proof.
  unfold Contains.
  assert (H : Index (collapseUnderscores s) "__" = None); [|now rewrite H].
  induction s as [|c s IH]; [reflexivity|]. cbn [collapseUnderscores].
  destruct (eqb c "_" && HasPrefix s "_") eqn:Hc; [exact IH|].
  cbn [Index]. rewrite IH, HasPrefix_two, collapseUnderscores_head, Hc.
  reflexivity.
Qed.

Lemma Contains_app_l (a b sep : string) :
  Contains a sep = true → Contains (a +:+ b) sep = true.
Proof.
  unfold Contains.
  assert (Hp : ∀ p x, HasPrefix x p = true → HasPrefix (x +:+ b) p = true).
  { induction p as [|q p IHp]; intros [|y x]; simpl; auto; try discriminate.
    intros H. apply andb_true_iff in H as [-> H]. simpl. now apply IHp. }
  induction a as [|x a IH].
  - simpl. destruct (HasPrefix "" sep) eqn:Hs; [|discriminate].
    intros _. destruct sep; [|discriminate Hs]. now destruct b.
  - cbn [Index]. destruct (HasPrefix (String x a) sep) eqn:Hs.
    + intros _. change (String x a +:+ b) with (String x (a +:+ b)).
      cbn [Index].
      change (String x (a +:+ b)) with (String x a +:+ b).
      now rewrite (Hp _ _ Hs).
    + intros H. change (String x a +:+ b) with (String x (a +:+ b)).
      cbn [Index]. destruct (HasPrefix (String x (a +:+ b)) sep); [reflexivity|].
      destruct (Index a sep); [|discriminate H].
      specialize (IH eq_refl). now destruct (Index (a +:+ b) sep).
Qed.

Lemma Contains_app_r (a b sep : string) :
  Contains b sep = true → Contains (a +:+ b) sep = true.
Proof.
  unfold Contains. intros H. induction a as [|x a IH]; [exact H|].
  change (String x a +:+ b) with (String x (a +:+ b)). cbn [Index].
  destruct (HasPrefix (String x (a +:+ b)) sep); [reflexivity|].
  now destruct (Index (a +:+ b) sep).
Qed.

Lemma trimRightByte_prefix (s : string) (c : ascii) :
  ∃ b, s = trimRightByte s c +:+ b.
Proof.
  induction s as [|d s [b IH]]; [now exists ""|]. cbn [trimRightByte].
  destruct (trimRightByte s c) as [|y t] eqn:Ht.
  - destruct (eqb d c); [now exists (String d s)|].
    exists s. reflexivity.
  - exists b. simpl. simpl in IH. now rewrite <- IH.
Qed.

Lemma trimLeftByte_suffix (s : string) (c : ascii) :
  ∃ a, s = a +:+ trimLeftByte s c.
Proof.
  induction s as [|d s [a IH]]; [now exists ""|]. cbn [trimLeftByte].
  destruct (eqb d c); [|now exists ""].
  exists (String d a). simpl. now rewrite <- IH.
Qed.

Lemma trimLeftByte_head (s : string) (c : ascii) :
  HasPrefix (trimLeftByte s c) (String c "") = false.
Proof.
  induction s as [|d s IH]; [reflexivity|]. cbn [trimLeftByte].
  destruct (eqb d c) eqn:Hd; [exact IH|]. now rewrite HasPrefix_byte.
Qed.

Lemma take_drop (n : nat) : ∀ s, s = take n s +:+ drop n s.
Proof.
  induction n as [|n IH]; intros [|c s]; simpl; try reflexivity.
  now rewrite <- IH.
Qed.

Lemma take_len (n : nat) : ∀ s, (len (take n s) ≤ n)%nat.
Proof.
  unfold len.
  induction n as [|n IH]; intros [|c s]; simpl; try lia.
  specialize (IH s). lia.
Qed.

Lemma take_head (n : nat) (s : string) (c : ascii) :
  HasPrefix s (String c "") = false →
  HasPrefix (take n s) (String c "") = false.
Proof.
  rewrite !HasPrefix_byte. destruct n, s; simpl; auto.
Qed.

(** Parts of a string keep what holds of all its bytes and hold no
    substring it does not hold. *)
Lemma part_of (P : ascii → bool) (sep a s b : string) :
  all P (a +:+ s +:+ b) = true →
  Contains (a +:+ s +:+ b) sep = false →
  all P s = true ∧ Contains s sep = false.
Proof.
  intros Hall Hsep. rewrite !all_app in Hall.
  apply andb_true_iff in Hall as [_ Hall].
  apply andb_true_iff in Hall as [Hall _]. split; [exact Hall|].
  destruct (Contains s sep) eqn:Hs; [|reflexivity].
  rewrite <- Hsep. symmetry.
  apply Contains_app_r, Contains_app_l, Hs.
Qed.

Lemma prefix_of (P : ascii → bool) (sep s : string) (n : nat) :
  all P s = true → Contains s sep = false →
  all P (take n s) = true ∧ Contains (take n s) sep = false.
Proof.
  intros Hall Hsep. pose proof (take_drop n s) as E.
  apply (part_of P sep "" (take n s) (drop n s));
    change ("" +:+ take n s +:+ drop n s) with (take n s +:+ drop n s);
    now rewrite <- E.
Qed.

Lemma sanitizeFilename_facts (filename : string) :
  let name := sanitizeFilename filename in
  (len name ≤ 200)%nat
  ∧ all fileByte name = true
  ∧ Contains name "__" = false
  ∧ HasPrefix name "_" = false.
Proof.
  unfold sanitizeFilename.
  set (r1 := replaceInvalidFrom 0 filename).
  set (r2 := collapseUnderscores r1).
  assert (H2 : all fileByte r2 = true)
    by apply collapseUnderscores_bytes, replaceInvalidFrom_bytes.
  assert (D2 : Contains r2 "__" = false) by apply collapseUnderscores_single.
  unfold Trim.
  destruct (trimRightByte_prefix r2 "_") as [b Hb].
  destruct (trimLeftByte_suffix (trimRightByte r2 "_") "_") as [a Ha].
  set (r3 := trimLeftByte (trimRightByte r2 "_") "_") in *.
  assert (H3 : all fileByte r3 = true ∧ Contains r3 "__" = false).
  { apply (part_of fileByte "__" a r3 b).
    - rewrite <- append_assoc, <- Ha, <- Hb. exact H2.
    - rewrite <- append_assoc, <- Ha, <- Hb. exact D2. }
  assert (L3 : HasPrefix r3 "_" = false) by apply trimLeftByte_head.
  destruct H3 as [H3 D3]. cbv zeta.
  destruct (Nat.ltb_spec 200 (len r3)) as [Hlong | Hshort].
  - split; [apply take_len|].
    destruct (prefix_of fileByte "__" r3 200 H3 D3) as [H4 D4].
    split; [exact H4|]. split; [exact D4|]. now apply take_head.
  - auto.
Qed.

(** [sanitizeFilename] returns at most 200 bytes, all of them ASCII
    letters, digits, hyphens or underscores, never two underscores in a
    row, and never an underscore first.  (It can end in an underscore:
    the cut to 200 bytes comes after the trimming.) *)
Theorem sanitizeFilename_shape (filename : string) :
  let name := sanitizeFilename filename in
  (len name ≤ 200)%nat
  ∧ all (fun c => isAlnum c || oneOf "-_" c) name = true
  ∧ Contains name "__" = false
  ∧ HasPrefix name "_" = false.
Proof. apply sanitizeFilename_facts. Qed.

(** [GenerateFilename] on a URL that does not parse returns the
    time-stamp name, without extension.  On a URL that parses it
    returns a non-empty stem followed by [.png]; the stem is the
    time-stamp name or at most 200 bytes of letters, digits, hyphens
    and underscores, the first not an underscore; it is [homepage]
    for a URL without query whose path is empty or [/]. *)
Theorem GenerateFilename_shape (urlStr stamp : string) :
  match GoURL.Parse urlStr with
  | None => GenerateFilename urlStr stamp = "page_" +:+ stamp
  | Some u =>
      ∃ stem,
        GenerateFilename urlStr stamp = stem +:+ ".png"
        ∧ isEmpty stem = false
        ∧ (stem = "page_" +:+ stamp
           ∨ ((len stem ≤ 200)%nat
              ∧ all (fun c => isAlnum c || oneOf "-_" c) stem = true
              ∧ HasPrefix stem "_" = false))
        ∧ (isEmpty (GoURL.RawQuery u) = true →
           GoURL.Path u = "" ∨ GoURL.Path u = "/" →
           stem = "homepage")
  end.
Proof.
  unfold GenerateFilename. destruct (GoURL.Parse urlStr) as [u|]; [|reflexivity].
  cbv zeta.
  set (base := if isEmpty (ReplaceAll (GoURL.Path u) "/" "_")
                  || (ReplaceAll (GoURL.Path u) "/" "_" =? "_")%string
               then "homepage" else ReplaceAll (GoURL.Path u) "/" "_").
  set (full := if negb (isEmpty (GoURL.RawQuery u))
               then base +:+ "_" +:+
                    ReplaceAll (ReplaceAll (GoURL.RawQuery u) "=" "_") "&" "_"
               else base).
  destruct (sanitizeFilename_facts full) as (Hlen & Hbytes & _ & Hhead).
  cbv zeta in Hlen, Hbytes, Hhead.
  assert (Hhome : isEmpty (GoURL.RawQuery u) = true →
                  GoURL.Path u = "" ∨ GoURL.Path u = "/" →
                  sanitizeFilename full = "homepage").
  { intros Hq Hp. unfold full, base. rewrite Hq.
    destruct Hp as [-> | ->]; vm_compute; reflexivity. }
  destruct (isEmpty (sanitizeFilename full)) eqn:Hempty.
  - exists (generateTimestampFilename stamp). split; [reflexivity|].
    split; [reflexivity|]. split; [now left|].
    intros Hq Hp. rewrite (Hhome Hq Hp) in Hempty. discriminate Hempty.
  - exists (sanitizeFilename full). split; [reflexivity|].
    split; [exact Hempty|]. split; [right; auto | exact Hhome].
Qed.

End FileNames.

(** *** Schemes, skip patterns, fragments and queries *)

Section Absolute.
Import GoBytes GoStrings utils.

Local Arguments String.append !_ _ / : simpl nomatch.

Lemma Cut_cons (c d : ascii) (s : string) :
  eqb c d = false →
  Cut (String c s) (String d "")
  = let '(a, b, found) := Cut s (String d "") in (String c a, b, found).
Proof.
  intros Hc. unfold Cut. cbn [Index]. 
  assert (HasPrefix (String c s) (String d "") = false) as ->
    by (simpl; now rewrite Hc).
  destruct (Index s (String d "")) as [i|]; reflexivity.
Qed.

Lemma HasPrefix_split (s p : string) :
  HasPrefix s p = true → s = p +:+ drop (len p) s.
Proof.
  revert s. induction p as [|c p IH]; intros s; [reflexivity|].
  destruct s as [|d s]; [discriminate|]. cbn [HasPrefix].
  intros H. apply andb_true_iff in H as [Hc Hp].
  apply Ascii.eqb_eq in Hc. subst d. simpl. f_equal. now apply IH.
Qed.

(** Whatever [parse] returns for a text that starts with [https:] has
    the scheme [https]. *)
Lemma parse_https (r : string) (u : GoURL.URL) :
  GoURL.parse ("https:" +:+ r) = Some u → GoURL.Scheme u = "https".
Proof.
  unfold GoURL.parse.
  destruct (GoURL.stringContainsCTLByte _); [discriminate|].
  change (("https:" +:+ r =? "*")%string) with false. cbv iota.
  change (GoURL.getScheme ("https:" +:+ r)) with (Some ("https", r)).
  cbn [mbind option_bind].
  change (ToLowerASCII "https") with "https".
  match goal with
  | |- context [match ?t with (_, _) => _ end] =>
      match t with
      | (if _ then _ else _) => destruct t as [[rest fq] rq]
      end
  end.
  change (isEmpty "https") with false. cbn [negb andb orb].
  rewrite andb_true_r.
  destruct (negb (HasPrefix rest "/")).
  { intros H. now inversion H. }
  cbn [andb]. destruct (HasPrefix rest "//").
  - destruct (Index (drop 2 rest) "/") as [i|];
      (destruct (GoURL.parseAuthority _) as [[user host]|]; [|discriminate]);
      cbn [mbind option_bind];
      (destruct (GoURL.setPath _) as [[path raw]|]; [|discriminate]);
      cbn [mbind option_bind]; intros H; now inversion H.
  - destruct (GoURL.setPath rest) as [[path raw]|]; [|discriminate].
    cbn [mbind option_bind]. intros H. now inversion H.
Qed.

Lemma Parse_https (r : string) (u : GoURL.URL) :
  GoURL.Parse ("https:" +:+ r) = Some u → GoURL.Scheme u = "https".
Proof.
  unfold GoURL.Parse.
  change ("https:" +:+ r) with (String "h" (String "t" (String "t"
            (String "p" (String "s" (String ":" r)))))).
  rewrite !Cut_cons by reflexivity.
  destruct (Cut r "#") as [[a frag] found].
  change (String "h" (String "t" (String "t" (String "p" (String "s"
            (String ":" a)))))) with ("https:" +:+ a).
  destruct (GoURL.parse ("https:" +:+ a)) as [url|] eqn:Hparse; [|discriminate].
  apply parse_https in Hparse. cbn [mbind option_bind].
  destruct (isEmpty frag).
  - intros H. inversion H; now subst u.
  - destruct (GoURL.setFragment frag) as [[f rawf]|]; [|discriminate].
    cbn [mbind option_bind]. intros H. inversion H; subst u. exact Hparse.
Qed.

(** [AddHTTPSIfMissing] returns an absolute link: it starts with
    [http://] or [https://], the function leaves it as it is, and so
    does [FixRelativeURL], against any base.  Unless the input started
    with [http://], the result, when it parses at all, is an https
    URL. *)
Theorem AddHTTPSIfMissing_absolute (urlStr : string) :
  let target := AddHTTPSIfMissing urlStr in
  HasPrefix target "http://" || HasPrefix target "https://" = true
  ∧ AddHTTPSIfMissing target = target
  ∧ (∀ baseURL, FixRelativeURL target baseURL = target)
  ∧ (HasPrefix urlStr "http://" = false →
     IsHTTPS target = GoURL.isSome (GoURL.Parse target)).
Proof.
  cbv zeta.
  assert (Habs : HasPrefix (AddHTTPSIfMissing urlStr) "http://"
                 || HasPrefix (AddHTTPSIfMissing urlStr) "https://" = true).
  { unfold AddHTTPSIfMissing.
    destruct (HasPrefix urlStr "http://") eqn:H1; cbn [negb andb];
      [now rewrite H1|].
    destruct (HasPrefix urlStr "https://") eqn:H2; cbn [negb andb].
    - rewrite H2. apply orb_true_r.
    - reflexivity. }
  split; [exact Habs|]. split; [|split].
  - unfold AddHTTPSIfMissing at 1.
    apply orb_true_iff in Habs as [-> | ->]; [reflexivity|].
    now rewrite andb_false_r.
  - intros baseURL. unfold FixRelativeURL. now rewrite Habs.
  - intros Hhttp. unfold IsHTTPS.
    destruct (GoURL.Parse (AddHTTPSIfMissing urlStr)) as [u|] eqn:Hparse;
      [|reflexivity].
    assert (Hpre : ∃ r, AddHTTPSIfMissing urlStr = "https:" +:+ r).
    { unfold AddHTTPSIfMissing. rewrite Hhttp. cbn [negb andb].
      destruct (HasPrefix urlStr "https://") eqn:Hs; cbn [negb].
      - exists ("//" +:+ drop 8 urlStr).
        now rewrite (HasPrefix_split urlStr "https://" Hs) at 1.
      - now exists ("//" +:+ urlStr). }
    destruct Hpre as [r Hr]. rewrite Hr in Hparse.
    apply Parse_https in Hparse. now rewrite Hparse.
Qed.

End Absolute.

Section SkipPatterns.
Import GoBytes GoStrings utils.

(** Skip patterns add up: no pattern skips nothing, a URL is skipped
    under two lists of patterns exactly when it is under one of them,
    and an empty pattern skips every URL. *)
Theorem ShouldSkipURL_patterns (ToLower : string → string) (urlStr : string)
  (patterns more : list string) :
  ShouldSkipURL ToLower urlStr [] = false
  ∧ ShouldSkipURL ToLower urlStr (patterns ++ more)
    = ShouldSkipURL ToLower urlStr patterns
      || ShouldSkipURL ToLower urlStr more
  ∧ (ToLower "" = "" → ShouldSkipURL ToLower urlStr ("" :: patterns) = true).
Proof.
  unfold ShouldSkipURL. split; [reflexivity|]. split; [apply existsb_app|].
  intros Hempty. cbn [existsb]. rewrite Hempty.
  unfold Contains. now destruct (ToLower urlStr).
Qed.

End SkipPatterns.

Section QueryAndFragment.
Import GoBytes GoStrings utils.

Local Arguments String.append !_ _ / : simpl nomatch.

Lemma Contains_absent (d : ascii) (s : string) :
  Contains s (String d "") = false →
  all (fun c => negb (eqb c d)) s = true.
Proof.
  unfold Contains. induction s as [|x s IH]; [reflexivity|].
  cbn [Index all]. rewrite HasPrefix_byte.
  destruct (eqb x d); [discriminate|]. cbn [negb andb].
  destruct (Index s (String d "")); [discriminate|]. intros _. now apply IH.
Qed.

Lemma Cut_absent (d : ascii) (s : string) :
  Contains s (String d "") = false → Cut s (String d "") = (s, "", false).
Proof.
  intros H. unfold Cut. now rewrite (Index_absent d s (Contains_absent d s H)).
Qed.

Lemma Cut_first (d : ascii) (a b : string) :
  Contains a (String d "") = false →
  Cut (a +:+ String d b) (String d "") = (a, b, true).
Proof.
  intros H. unfold Cut.
  rewrite (Index_first d a b (Contains_absent d a H)).
  rewrite take_app.
  change (a +:+ String d b) with (a +:+ (String d "" +:+ b)).
  rewrite <- append_assoc.
  replace (len a + len (String d "")) with (len (a +:+ String d ""))
    by (rewrite len_app; reflexivity).
  now rewrite drop_app.
Qed.

(** [URL.String] does not read the raw fragment of a URL without
    fragment, nor [NormalizeURL] the query and the fragment. *)
Lemma NormalizeURL_fields (p : GoURL.URL) (q f rawf : string) :
  GoURL.String (normalized
     (GoURL.mkURL (GoURL.Scheme p) (GoURL.Opaque p) (GoURL.User p)
        (GoURL.Host p) (GoURL.Path p) (GoURL.RawPath p) (GoURL.OmitHost p)
        (GoURL.ForceQuery p) q f rawf))
  = GoURL.String (normalized p).
Proof. destruct p. reflexivity. Qed.

(** A fragment does not change the normal form: of a text without [#]
    that parses, followed by [#] and a well-escaped fragment, the
    normal form is that of the text. *)
Theorem NormalizeURL_ignores_fragment (u frag : string) :
  Contains u "#" = false →
  GoURL.isSome (GoURL.Parse u) = true →
  GoURL.isSome (GoURL.unescape frag GoURL.encodeFragment) = true →
  NormalizeURL (u +:+ "#" +:+ frag) = NormalizeURL u.
Proof.
  intros Hu Hparse Hfrag. unfold NormalizeURL, GoURL.Parse in *.
  change (u +:+ "#" +:+ frag) with (u +:+ String "#" frag).
  rewrite (Cut_first "#" u frag Hu). rewrite (Cut_absent "#" u Hu) in *.
  cbn [isEmpty] in *.
  destruct (GoURL.parse u) as [p|]; [|discriminate Hparse].
  cbn [mbind option_bind]. destruct (isEmpty frag); [reflexivity|].
  unfold GoURL.setFragment.
  destruct (GoURL.unescape frag GoURL.encodeFragment) as [f|];
    [|discriminate Hfrag].
  cbn [mbind option_bind]. unfold GoURL.withFragment.
  apply NormalizeURL_fields.
Qed.

Lemma NormalizeURL_ignores_fragment_witness :
  NormalizeURL "https://example.com/docs/#install%20notes"
  = NormalizeURL "https://example.com/docs/".
Proof.
  apply (NormalizeURL_ignores_fragment "https://example.com/docs/"
           "install%20notes"); vm_compute; reflexivity.
Defined.

(** The scheme scan stops at a question mark, so it does not see what
    follows one. *)
Lemma getSchemeFrom_query (x : string) :
  HasPrefix x "?" = true →
  ∀ rest pre,
    GoURL.getSchemeFrom (len pre) (rest +:+ x) (pre +:+ rest +:+ x)
    = match GoURL.getSchemeFrom (len pre) rest (pre +:+ rest) with
      | Some (s, r) => Some (s, r +:+ x)
      | None => None
      end.
Proof.
  intros Hx. rewrite HasPrefix_byte in Hx.
  destruct x as [|x0 x]; [discriminate Hx|].
  apply Ascii.eqb_eq in Hx. subst x0.
  induction rest as [|c rest IH]; intros pre.
  - cbn [String.append GoURL.getSchemeFrom].
    change (isAlpha "?") with false. cbv iota.
    now rewrite append_nil_r.
  - change (String c rest +:+ String "?" x)
      with (String c (rest +:+ String "?" x)).
    cbn [GoURL.getSchemeFrom].
    assert (Hnext :
      GoURL.getSchemeFrom (S (len pre)) (rest +:+ String "?" x)
        (pre +:+ String c (rest +:+ String "?" x))
      = match GoURL.getSchemeFrom (S (len pre)) rest (pre +:+ String c rest) with
        | Some (s, r) => Some (s, r +:+ String "?" x)
        | None => None
        end).
    { specialize (IH (pre +:+ String c "")).
      rewrite len_app, !append_assoc in IH. simpl in IH.
      rewrite Nat.add_1_r in IH. exact IH. }
    destruct (isAlpha c); [exact Hnext|].
    destruct (isDigit c || oneOf "+-." c).
    { destruct pre as [|y pre]; [|exact Hnext]. reflexivity. }
    destruct (eqb c ":").
    + destruct pre as [|y pre]; [reflexivity|].
      change (String y pre +:+ String c (rest +:+ String "?" x))
        with (String y pre +:+ (String c (rest +:+ String "?" x))).
      now rewrite !take_app.
    + now rewrite append_assoc.
Qed.

Lemma getSchemeFrom_rest (P : ascii → bool) (raw : string) :
  all P raw = true →
  ∀ rest i s r,
    all P rest = true →
    GoURL.getSchemeFrom i rest raw = Some (s, r) → all P r = true.
Proof.
  intros Hraw. induction rest as [|c rest IH]; intros i s r Hrest.
  - cbn. intros H. inversion H. now subst.
  - cbn [GoURL.getSchemeFrom all] in *.
    apply andb_true_iff in Hrest as [_ Hrest].
    destruct (isAlpha c); [now apply IH|].
    destruct (isDigit c || oneOf "+-." c).
    { destruct i; [intros H; inversion H; now subst | now apply IH]. }
    destruct (eqb c ":").
    + destruct i; [discriminate|]. intros H. inversion H. now subst.
    + intros H. inversion H. now subst.
Qed.

Lemma HasSuffix_nonempty (d : ascii) (a q : string) :
  isEmpty q = false →
  all (fun c => negb (eqb c d)) q = true →
  HasSuffix (a +:+ q) (String d "") = false.
Proof.
  intros Hq Hall. induction a as [|x a IH].
  - now apply HasSuffix_absent.
  - change (String x a +:+ q) with (String x (a +:+ q)).
    cbn [HasSuffix]. rewrite IH, orb_false_r.
    destruct (a +:+ q) as [|y t] eqn:E.
    + destruct a; [simpl in E; subst q; discriminate Hq | discriminate E].
    + apply String.eqb_neq. intros H. inversion H.
Qed.

Lemma CountByte_zero (d : ascii) (s : string) :
  CountByte s d = 0 → all (fun c => negb (eqb c d)) s = true.
Proof.
  induction s as [|x s IH]; [reflexivity|]. cbn [CountByte all].
  destruct (eqb x d); [discriminate|]. simpl. exact IH.
Qed.

(** What [parse] returns for a text followed by a query. *)
Lemma parse_query (u q : string) (p : GoURL.URL) :
  GoURL.parse u = Some p →
  (u =? "*")%string = false →
  Contains u "?" = false →
  isEmpty q = false →
  GoURL.stringContainsCTLByte q = false →
  GoURL.parse (u +:+ "?" +:+ q)
  = Some (GoURL.mkURL (GoURL.Scheme p) (GoURL.Opaque p) (GoURL.User p)
            (GoURL.Host p) (GoURL.Path p) (GoURL.RawPath p)
            (GoURL.OmitHost p) (GoURL.ForceQuery p) q (GoURL.Fragment p)
            (GoURL.RawFragment p)).
Proof.
  intros Hp Hstar Hu Hq Hctl.
  pose proof (Contains_absent "?" u Hu) as Hu'.
  unfold GoURL.parse in Hp |- *.
  destruct (GoURL.stringContainsCTLByte u) eqn:Hctlu; [discriminate Hp|].
  assert (GoURL.stringContainsCTLByte (u +:+ "?" +:+ q) = false) as ->.
  { unfold GoURL.stringContainsCTLByte in *.
    apply negb_false_iff in Hctlu, Hctl. apply negb_false_iff.
    rewrite all_app, Hctlu. cbn [andb].
    change ("?" +:+ q) with (String "?" q). cbn [all]. now rewrite Hctl. }
  rewrite Hstar in Hp.
  assert ((u +:+ "?" +:+ q =? "*")%string = false) as ->.
  { apply String.eqb_neq. destruct u as [|c u]; [discriminate|].
    destruct u; discriminate. }
  unfold GoURL.getScheme in Hp |- *.
  pose proof (getSchemeFrom_query ("?" +:+ q) eq_refl u "") as Hscan.
  cbn [len String.length String.append] in Hscan.
  change (String "?" q) with ("?" +:+ q) in Hscan.
  rewrite Hscan. clear Hscan.
  destruct (GoURL.getSchemeFrom 0 u u) as [[sch0 rest0]|] eqn:Hget;
    [|discriminate Hp].
  cbn [mbind option_bind] in Hp |- *.
  assert (Hrest : all (fun c => negb (eqb c "?")) rest0 = true)
    by (eapply (getSchemeFrom_rest _ u Hu' u 0); eauto).
  assert (Hsplit :
    (if HasSuffix rest0 "?" && Nat.eqb (CountByte rest0 "?") 1
     then (take (len rest0 - 1) rest0, true, "")
     else let '(before, after, _) := Cut rest0 "?" in (before, false, after))
    = (rest0, false, "")).
  { rewrite (HasSuffix_absent "?" rest0 Hrest). cbn [andb].
    unfold Cut. now rewrite (Index_absent "?" rest0 Hrest). }
  rewrite Hsplit in Hp. clear Hsplit.
  assert (Hsplit :
    (if HasSuffix (rest0 +:+ "?" +:+ q) "?"
        && Nat.eqb (CountByte (rest0 +:+ "?" +:+ q) "?") 1
     then (take (len (rest0 +:+ "?" +:+ q) - 1) (rest0 +:+ "?" +:+ q), true, "")
     else let '(before, after, _) := Cut (rest0 +:+ "?" +:+ q) "?" in
          (before, false, after))
    = (rest0, false, q)).
  { assert (HasSuffix (rest0 +:+ "?" +:+ q) "?"
            && Nat.eqb (CountByte (rest0 +:+ "?" +:+ q) "?") 1 = false) as ->.
    { rewrite CountByte_app, (CountByte_absent "?" rest0 Hrest).
      change ("?" +:+ q) with (String "?" q). cbn [CountByte].
      change (eqb "?" "?") with true. cbv iota.
      destruct (CountByte q "?") as [|n] eqn:Hn.
      - change (rest0 +:+ String "?" q) with (rest0 +:+ ("?" +:+ q)).
        rewrite <- append_assoc.
        rewrite (HasSuffix_nonempty "?" _ q Hq (CountByte_zero "?" q Hn)).
        reflexivity.
      - apply andb_false_r. }
    change ("?" +:+ q) with (String "?" q).
    rewrite Cut_first; [reflexivity|].
    unfold Contains. now rewrite (Index_absent "?" rest0 Hrest). }
  rewrite Hsplit. clear Hsplit. cbv beta iota in Hp |- *.
  revert Hp.
  destruct (negb (HasPrefix rest0 "/") && negb (isEmpty (ToLowerASCII sch0))).
  { intros H. inversion H. reflexivity. }
  destruct (negb (HasPrefix rest0 "/") && Contains (Cut rest0 "/").1.1 ":");
    [discriminate|].
  destruct ((negb (isEmpty (ToLowerASCII sch0))
             || negb (HasPrefix rest0 "///")) && HasPrefix rest0 "//").
  - destruct (Index (drop 2 rest0) "/") as [i|];
      (destruct (GoURL.parseAuthority _) as [[user host]|]; [|discriminate]);
      cbn [mbind option_bind];
      (destruct (GoURL.setPath _) as [[path raw]|]; [|discriminate]);
      cbn [mbind option_bind]; intros H; inversion H; reflexivity.
  - destruct (GoURL.setPath rest0) as [[path raw]|]; [|discriminate].
    cbn [mbind option_bind]. intros H. inversion H. reflexivity.
Qed.

(** A query does not change the normal form: of a text without [?] and
    [#] that parses, followed by [?] and a query, the normal form is
    that of the text. *)
Theorem NormalizeURL_ignores_query (u q : string) :
  GoURL.isSome (GoURL.Parse u) = true →
  (u =? "*")%string = false →
  Contains u "?" = false → Contains u "#" = false →
  isEmpty q = false →
  Contains q "#" = false → GoURL.stringContainsCTLByte q = false →
  NormalizeURL (u +:+ "?" +:+ q) = NormalizeURL u.
Proof.
  intros Hparse Hstar Hu Hu' Hq Hq' Hctl.
  unfold NormalizeURL, GoURL.Parse in *.
  assert (Contains (u +:+ "?" +:+ q) "#" = false) as Hno.
  { unfold Contains. rewrite Index_absent; [reflexivity|].
    rewrite all_app, (Contains_absent "#" u Hu'). cbn [andb].
    change ("?" +:+ q) with (String "?" q). cbn [all].
    now rewrite (Contains_absent "#" q Hq'). }
  rewrite (Cut_absent "#" _ Hno). rewrite (Cut_absent "#" u Hu') in *.
  cbn [isEmpty] in *.
  destruct (GoURL.parse u) as [p|] eqn:Hp; [|discriminate Hparse].
  rewrite (parse_query u q p Hp Hstar Hu Hq Hctl).
  cbn [mbind option_bind]. apply NormalizeURL_fields.
Qed.

Lemma NormalizeURL_ignores_query_witness :
  NormalizeURL "https://example.com/search?q=rocq&page=2"
  = NormalizeURL "https://example.com/search".
Proof.
  apply (NormalizeURL_ignores_query "https://example.com/search"
           "q=rocq&page=2"); vm_compute; reflexivity.
Defined.

End QueryAndFragment.

(** *** The session as a data structure *)

Section Session.
Import models.

Lemma filter_split {A} (f : A → bool) (l : list A) :
  length (List.filter f l) + length (List.filter (fun x => negb (f x)) l)
  = length l.
Proof.
  induction l as [|x l IH]; [reflexivity|]. simpl.
  destruct (f x); simpl; lia.
Qed.

(** [GetStats]: the total is the number of results and the sum of the
    two other counts; a new result adds one to the total and to the
    count on its side. *)
Theorem GetStats_counts (cs : CrawlSession) (result : ScreenshotResult) :
  let '(total, success, failed) := GetStats cs in
  total = Z.of_nat (length (GetResults cs))
  ∧ (total = success + failed)%Z
  ∧ (0 ≤ success)%Z ∧ (0 ≤ failed)%Z
  ∧ GetStats (AddResult cs result)
    = ((total + 1)%Z,
       (if Success result then success + 1 else success)%Z,
       (if Success result then failed else failed + 1)%Z).
Proof.
  unfold GetStats, GetResults, AddResult; simpl.
  pose proof (filter_split Success (results cs)) as Hsplit.
  split; [reflexivity|]. split; [lia|]. split; [lia|]. split; [lia|].
  rewrite length_app, !List.filter_app, !length_app. simpl.
  destruct (Success result); simpl; repeat f_equal; lia.
Qed.

Lemma call_queue_depths (cs : CrawlSession) (c : Call) :
  (∀ u, u ∈ urlQueue cs → is_Some (depthMap cs !! u)) →
  ∀ u, u ∈ urlQueue (call cs c) → is_Some (depthMap (call cs c) !! u).
Proof.
  intros Hinv u. destruct c as [url depth|url|url|result|]; simpl;
    try exact (Hinv u).
  - unfold AddURL. destruct (_ && _); simpl; [|auto].
    rewrite elem_of_app, list_elem_of_singleton, lookup_insert.
    intros [Hu | ->]; destruct (decide _);
      try (eexists; reflexivity); [now apply Hinv | congruence].
  - pose proof (GetNextURL_spec cs) as Hnext.
    destruct (urlQueue cs) as [|x q] eqn:Hq.
    + rewrite Hnext. simpl. rewrite Hq. intros Hu. now apply elem_of_nil in Hu.
    + destruct Hnext as (cs' & -> & Hq' & _ & _ & Hd & _). simpl.
      rewrite Hq', Hd. intros Hu. apply Hinv. now apply list_elem_of_further.
Qed.

Lemma calls_queue_depths (cl : list Call) : ∀ cs,
  (∀ u, u ∈ urlQueue cs → is_Some (depthMap cs !! u)) →
  ∀ u, u ∈ urlQueue (calls cs cl) → is_Some (depthMap (calls cs cl) !! u).
Proof.
  induction cl as [|c cl IH]; intros cs Hinv; [exact Hinv|].
  apply (IH (call cs c)). now apply call_queue_depths.
Qed.

(** Whatever calls were made on a new session, every URL in the queue
    has a depth recorded: the depth [GetNextURL] hands out is one that
    [AddURL] stored for that URL, never the zero value of a missing
    key. *)
Theorem queue_depths_recorded (baseURL : string) (now : Z) (cl : list Call) :
  let cs := calls (NewCrawlSession baseURL now) cl in
  (∀ u, u ∈ urlQueue cs → is_Some (depthMap cs !! u))
  ∧ ∀ u d cs', GetNextURL cs = ((u, d, true), cs') →
      depthMap cs !! u = Some d.
Proof.
  cbv zeta.
  assert (Hinv : ∀ u, u ∈ urlQueue (calls (NewCrawlSession baseURL now) cl) →
                   is_Some (depthMap (calls (NewCrawlSession baseURL now) cl) !! u)).
  { apply calls_queue_depths. intros u Hu. now apply elem_of_nil in Hu. }
  split; [exact Hinv|]. intros u d cs' Hget.
  pose proof (GetNextURL_spec (calls (NewCrawlSession baseURL now) cl)) as Hnext.
  destruct (urlQueue _) as [|x q] eqn:Hq.
  { rewrite Hnext in Hget. discriminate Hget. }
  destruct Hnext as (cs'' & Hnext & _). rewrite Hnext in Hget.
  inversion Hget; subst u d cs''.
  destruct (Hinv x) as [d Hd]; [apply list_elem_of_here|].
  unfold readInt. now rewrite Hd.
Qed.

Lemma call_sets (cs : CrawlSession) (c : Call) (u : string) :
  (IsVisited cs u = true → IsVisited (call cs c) u = true)
  ∧ (IsExisting cs u = true → IsExisting (call cs c) u = true).
Proof.
  unfold IsVisited, IsExisting, readBool.
  destruct c as [url depth|url|url|result|]; simpl; auto.
  - unfold AddURL. destruct (_ && _); auto.
  - rewrite lookup_insert. destruct (decide _); auto.
  - rewrite lookup_insert. destruct (decide _); auto.
  - pose proof (GetNextURL_spec cs) as Hnext.
    destruct (urlQueue cs) as [|x q].
    + rewrite Hnext. auto.
    + destruct Hnext as (cs' & -> & _ & Hv & He & _). simpl.
      rewrite Hv, He. auto.
Qed.

Lemma count_app_one (u x : string) (q : list string) :
  count_occ string_dec (q ++ [x]) u
  = (count_occ string_dec q u + if string_dec x u then 1 else 0)%nat.
Proof. rewrite count_occ_app. simpl. destruct (string_dec x u); lia. Qed.

Lemma call_count (cs : CrawlSession) (c : Call) (u : string) :
  IsVisited cs u = true ∨ IsExisting cs u = true →
  (count_occ string_dec (urlQueue (call cs c)) u
   ≤ count_occ string_dec (urlQueue cs) u)%nat.
Proof.
  intros Hu. destruct c as [url depth|url|url|result|]; simpl; try lia.
  - unfold AddURL, IsVisited, IsExisting in *.
    destruct (negb (readBool (visitedURLs cs) url)
              && negb (readBool (existingURLs cs) url)) eqn:Hacc; [|lia].
    simpl. rewrite count_app_one. destruct (string_dec url u) as [->|]; [|lia].
    apply andb_true_iff in Hacc as [H1 H2].
    apply negb_true_iff in H1, H2. destruct Hu; congruence.
  - pose proof (GetNextURL_spec cs) as Hnext.
    destruct (urlQueue cs) as [|x q] eqn:Hq.
    + rewrite Hnext. simpl. rewrite Hq. simpl. lia.
    + destruct Hnext as (cs' & -> & Hq' & _). simpl. rewrite Hq'.
      destruct (string_dec x u); lia.
Qed.

(** Once a URL string is visited or existing it stays so, and no call
    adds it to the queue again: whatever calls follow, it occurs in the
    queue at most as often as before. *)
Theorem visited_never_requeued (cs : CrawlSession) (u : string)
  (cl : list Call) :
  IsVisited cs u = true ∨ IsExisting cs u = true →
  (IsVisited (calls cs cl) u = true ∨ IsExisting (calls cs cl) u = true)
  ∧ (count_occ string_dec (urlQueue (calls cs cl)) u
     ≤ count_occ string_dec (urlQueue cs) u)%nat.
Proof.
  revert cs. induction cl as [|c cl IH]; intros cs Hu;
    [split; [exact Hu | apply Nat.le_refl]|].
  assert (Hu' : IsVisited (call cs c) u = true ∨ IsExisting (call cs c) u = true).
  { destruct (call_sets cs c u) as [Hv He]. destruct Hu; auto. }
  destruct (IH (call cs c) Hu') as [Hset Hcount]. split; [exact Hset|].
  pose proof (call_count cs c u Hu). unfold calls in *. simpl. lia.
Qed.

Lemma visited_never_requeued_witness :
  (count_occ string_dec
     (urlQueue
        (calls (MarkVisited (NewCrawlSession "https://example.com" 0)
                            "https://example.com/a")
               [CallAddURL "https://example.com/a" 1;
                CallAddURL "https://example.com/b" 1;
                CallAddURL "https://example.com/a" 2]))
     "https://example.com/a" ≤ 0)%nat.
Proof.
  apply (visited_never_requeued
           (MarkVisited (NewCrawlSession "https://example.com" 0)
                        "https://example.com/a")
           "https://example.com/a"
           [CallAddURL "https://example.com/a" 1;
            CallAddURL "https://example.com/b" 1;
            CallAddURL "https://example.com/a" 2]).
  left. vm_compute. reflexivity.
Defined.

(** The queue is first in, first out, and it keeps duplicates: a
    sequence of [AddURL] calls appends, in order, the URLs that are
    neither visited nor existing, and [GetNextURL] hands the queue out
    from its head, each URL with the depth stored for it. *)
Theorem queue_is_fifo (cs : CrawlSession) (entries : list (string * Z))
  (n : nat) :
  urlQueue (enqueueMany cs entries)
  = urlQueue cs
    ++ List.filter (fun u => negb (IsVisited cs u) && negb (IsExisting cs u))
         entries.*1
  ∧ (dequeueMany n cs).*1 = firstn n (urlQueue cs)
  ∧ ∀ u d, (u, d) ∈ dequeueMany n cs → d = readInt (depthMap cs) u.
Proof.
  split; [|split].
  - revert cs. induction entries as [|[u d] es IH]; intros cs; simpl.
    + now rewrite app_nil_r.
    + change (fold_left _ es (AddURL cs u d)) with (enqueueMany (AddURL cs u d) es).
      rewrite IH. unfold IsVisited, IsExisting.
      rewrite AddURL_visited, AddURL_existing. unfold AddURL.
      destruct (negb (readBool (visitedURLs cs) u)
                && negb (readBool (existingURLs cs) u)); simpl;
        [now rewrite <- app_assoc | reflexivity].
  - revert cs. induction n as [|n IH]; intros cs; [reflexivity|].
    simpl. unfold GetNextURL. destruct (urlQueue cs) as [|x q] eqn:Hq; simpl;
      [reflexivity|].
    rewrite IH. reflexivity.
  - revert cs. induction n as [|n IH]; intros cs u d; simpl;
      [now rewrite elem_of_nil|].
    unfold GetNextURL. destruct (urlQueue cs) as [|x q] eqn:Hq; simpl;
      [now rewrite elem_of_nil|].
    rewrite elem_of_cons. intros [Heq | Hin]; [now inversion Heq|].
    now apply IH in Hin.
Qed.

End Session.

(** *** The report and the existing set *)

Section ReportCounts.
Import models report.

Lemma fold_accumulate_rest (rs : list ScreenshotResult) (t : Totals) (x : Z) :
  totalDuration t = wrap64 x →
  failCount (fold_left accumulate rs t) = (failCount t + failures rs)%Z
  ∧ totalDuration (fold_left accumulate rs t) = wrap64 (x + durations rs).
Proof.
  revert t x. induction rs as [|r rs IH]; intros t x Hx; simpl.
  - unfold failures; simpl. rewrite Hx. split; [lia | f_equal; lia].
  - destruct (IH (accumulate t r) (x + Duration r)%Z) as [IH1 IH2].
    { unfold accumulate; simpl. rewrite Hx. apply wrap64_idemp_add. }
    rewrite IH1, IH2. unfold accumulate at 1; simpl. unfold failures; simpl.
    split; [destruct (Success r); simpl; lia | f_equal; lia].
Qed.

(** The counts of the report add up: the total is the successful plus
    the failed entries, and the previous entries plus those of this
    run; the total duration is the [int64] sum of the durations of all
    entries, failed ones included; [LastUpdate] is set, to the time
    stamp of the report, exactly when this run has results. *)
Theorem GenerateReport_counts (cfg : config.Config) (session : CrawlSession)
  (previous : option Report) (timestamp : Z) :
  let rep := GenerateReport cfg session previous timestamp in
  let old := match previous with Some r => Results r | None => [] end in
  TotalPages rep = (SuccessfulScreenshots rep + FailedScreenshots rep)%Z
  ∧ TotalPages rep = (Z.of_nat (length old) + NewPagesInThisRun rep)%Z
  ∧ FailedScreenshots rep = failures (Results rep)
  ∧ TotalDuration rep = wrap64 (durations (Results rep))
  ∧ LastUpdate rep
    = (if bool_decide (GetResults session = []) then None else Some timestamp)
  ∧ ReportTimestamp rep = timestamp
  ∧ models.BaseURL rep = config.BaseURL cfg.
Proof.
  intros rep old.
  destruct (fold_accumulate (Results rep) (mkTotals 0 0 0 0) 0 eq_refl)
    as [Hs _].
  destruct (fold_accumulate_rest (Results rep) (mkTotals 0 0 0 0) 0 eq_refl)
    as [Hf Hd].
  change (fold_left accumulate (Results rep) (mkTotals 0 0 0 0))
    with (totals (Results rep)) in Hs, Hf, Hd.
  change (successCount (totals (Results rep)))
    with (SuccessfulScreenshots rep) in Hs.
  change (failCount (totals (Results rep))) with (FailedScreenshots rep) in Hf.
  change (totalDuration (totals (Results rep))) with (TotalDuration rep) in Hd.
  change (successCount (mkTotals 0 0 0 0)) with 0%Z in Hs.
  change (failCount (mkTotals 0 0 0 0)) with 0%Z in Hf.
  rewrite Z.add_0_l in Hs, Hf, Hd.
  split; [|split; [|split; [|split; [|split; [|split]]]]];
    try reflexivity; try assumption.
  - rewrite Hs, Hf. unfold successes, failures.
    change (TotalPages rep) with (Z.of_nat (length (Results rep))).
    pose proof (filter_split Success (Results rep)). lia.
  - change (TotalPages rep) with (Z.of_nat (length (Results rep))).
    change (NewPagesInThisRun rep) with (Z.of_nat (length (GetResults session))).
    change (Results rep) with (mergeResults previous (GetResults session)).
    unfold mergeResults, old. destruct previous; simpl; rewrite ?length_app; lia.
  - change (LastUpdate rep)
      with (if (0 <? length (GetResults session))%nat
            then Some timestamp else None).
    destruct (GetResults session); reflexivity.
Qed.

Lemma succeeded_app (a b : list ScreenshotResult) (u : string) :
  succeeded (a ++ b) u = succeeded a u || succeeded b u.
Proof. apply existsb_app. Qed.

Lemma fold_existing (rs : list ScreenshotResult) : ∀ (m : gmap string bool) u,
  fold_left
    (fun m result => if Success result then <[URL result := true]> m else m)
    rs m !! u
  = if succeeded rs u then Some true else m !! u.
Proof.
  induction rs as [|r rs IH]; intros m u; [reflexivity|]. simpl. rewrite IH.
  destruct (succeeded rs u); [now rewrite orb_true_r|]. rewrite orb_false_r.
  destruct (Success r); simpl; [|reflexivity].
  rewrite lookup_insert. destruct (decide (URL r = u)) as [->|Hne].
  - now rewrite String.eqb_refl.
  - apply String.eqb_neq in Hne. now rewrite Hne.
Qed.

Lemma GetExistingURLs_lookup (previous : option Report) (u : string) :
  GetExistingURLs previous !! u
  = if succeeded (match previous with Some r => Results r | None => [] end) u
    then Some true else None.
Proof.
  destruct previous as [r|]; unfold GetExistingURLs; [|apply lookup_empty].
  now rewrite fold_existing, lookup_empty.
Qed.

(** [GetExistingURLs] maps a URL to [true] exactly when some
    successful entry of the loaded report has that URL string; a URL
    with failed entries only is absent, and so is every URL when there
    is no report.  No key is mapped to [false]. *)
Theorem GetExistingURLs_successful (previous : Report) (u : string) :
  GetExistingURLs None = ∅
  ∧ GetExistingURLs (Some previous) !! u
    = (if succeeded (Results previous) u then Some true else None)
  ∧ (GetExistingURLs (Some previous) !! u = Some true
     ↔ ∃ r, r ∈ Results previous ∧ Success r = true ∧ URL r = u).
Proof.
  split; [reflexivity|].
  pose proof (GetExistingURLs_lookup (Some previous) u) as Hl.
  cbv iota in Hl.
  split; [exact Hl|]. rewrite Hl. unfold succeeded.
  destruct (existsb _ _) eqn:Hex.
  - split; [intros _|reflexivity]. apply existsb_exists in Hex as (r & Hin & Hr).
    apply andb_true_iff in Hr as [Hs Hu]. apply String.eqb_eq in Hu.
    exists r. split; [now apply list_elem_of_In|]. now split.
  - split; [discriminate|]. intros (r & Hin & Hs & Hu). exfalso.
    assert (existsb (fun r => Success r && (URL r =? u)%string)
                    (Results previous) = true); [|congruence].
    apply existsb_exists. exists r. split; [now apply list_elem_of_In|].
    rewrite Hs. simpl. now apply String.eqb_eq.
Qed.

(** From one run to the next the existing set only grows, by the URLs
    this run captured successfully: read from the report a run
    writes, it is what was read from the report the run loaded,
    together with the successful results of the session. *)
Theorem GetExistingURLs_next_run (cfg : config.Config) (session : CrawlSession)
  (previous : option Report) (timestamp : Z) (u : string) :
  readBool
    (GetExistingURLs (Some (GenerateReport cfg session previous timestamp))) u
  = readBool (GetExistingURLs previous) u
    || succeeded (GetResults session) u.
Proof.
  unfold readBool. rewrite !GetExistingURLs_lookup.
  change (Results (GenerateReport cfg session previous timestamp))
    with (mergeResults previous (GetResults session)).
  unfold mergeResults. rewrite succeeded_app.
  destruct previous as [r|]; simpl;
    repeat match goal with
           | |- context [succeeded ?l u] => destruct (succeeded l u)
           end; reflexivity.
Qed.

End ReportCounts.

Section Startup.
Import models report services.

Lemma Initialize_fields (cs : CrawlSession) (existing : gmap string bool) :
  urlQueue (Initialize cs existing) = urlQueue cs
  ∧ visitedURLs (Initialize cs existing) = visitedURLs cs
  ∧ depthMap (Initialize cs existing) = depthMap cs
  ∧ results (Initialize cs existing) = results cs
  ∧ ∀ u, existingURLs (Initialize cs existing) !! u
         = match existing !! u with
           | Some _ => Some true
           | None => existingURLs cs !! u
           end.
Proof.
  unfold Initialize.
  apply (map_fold_weak_ind
           (fun (r : CrawlSession) (m : gmap string bool) =>
              urlQueue r = urlQueue cs
              ∧ visitedURLs r = visitedURLs cs
              ∧ depthMap r = depthMap cs
              ∧ results r = results cs
              ∧ ∀ u, existingURLs r !! u
                     = match m !! u with
                       | Some _ => Some true
                       | None => existingURLs cs !! u
                       end)).
  - split; [|split; [|split; [|split]]]; try reflexivity;
      try (intros u; now rewrite lookup_empty).
  - intros i x m r Hi (H1 & H2 & H3 & H4 & H5). simpl.
    split; [|split; [|split; [|split]]]; auto.
    intros u. rewrite !lookup_insert.
    destruct (decide (i = u)); [reflexivity | apply H5].
Qed.

(** [Initialize] marks as existing every key of the map it is given,
    keeps what was existing, and leaves the queue, the visited set, the
    depths and the results alone.  Started on a new session with what
    [GetExistingURLs] read, it makes existing exactly the URL strings
    of the successful entries of the report. *)
Theorem Initialize_marks_existing (cs : CrawlSession)
  (existing : gmap string bool) (previous : option Report)
  (baseURL : string) (now : Z) (u : string) :
  IsExisting (Initialize cs existing) u
  = IsExisting cs u || bool_decide (is_Some (existing !! u))
  ∧ IsVisited (Initialize cs existing) u = IsVisited cs u
  ∧ urlQueue (Initialize cs existing) = urlQueue cs
  ∧ GetResults (Initialize cs existing) = GetResults cs
  ∧ IsExisting (Initialize (NewCrawlSession baseURL now)
                           (GetExistingURLs previous)) u
    = succeeded (match previous with Some r => Results r | None => [] end) u.
Proof.
  destruct (Initialize_fields cs existing) as (Hq & Hv & _ & Hr & He).
  split; [|split; [|split; [|split]]]; auto.
  - unfold IsExisting, readBool. rewrite He.
    destruct (existing !! u); simpl; [now rewrite orb_true_r|].
    now rewrite orb_false_r.
  - unfold IsVisited. now rewrite Hv.
  - destruct (Initialize_fields (NewCrawlSession baseURL now)
                (GetExistingURLs previous)) as (_ & _ & _ & _ & He').
    unfold IsExisting, readBool. rewrite He', GetExistingURLs_lookup.
    destruct (succeeded _ u); reflexivity.
Qed.

End Startup.

(** *** Where captured URLs come from *)

Section Origin.
Import models utils services safety.

Context {Browser : Type}.
Variable ToLower : string → string.
Variable CaptureScreenshot : Browser → string → ScreenshotResult * Browser.
Variable ExtractLinks : Browser → string → option (list string) * Browser.
Variable cfg : config.Config.

Local Abbreviation seqIter :=
  (sequentialIteration ToLower CaptureScreenshot ExtractLinks cfg).
Local Abbreviation seqRun :=
  (runSequentialCrawl ToLower CaptureScreenshot ExtractLinks cfg).
Local Abbreviation step :=
  (parStep ToLower CaptureScreenshot ExtractLinks cfg).
Local Abbreviation run :=
  (parRun ToLower CaptureScreenshot ExtractLinks cfg).
Local Abbreviation Prov := (Provenance ToLower cfg).
Local Abbreviation ParProv := (@ParProvenance Browser ToLower cfg).
Local Abbreviation valid :=
  (fun u => IsValidURL ToLower u (config.BaseURL cfg)).

Lemma IsValidURL_sameSite (u : string) :
  valid u = true → sameSite cfg u.
Proof.
  unfold IsValidURL, sameSite.
  destruct (GoStrings.isEmpty u); [discriminate|].
  destruct (GoURL.Parse u) as [pu|]; [|discriminate].
  destruct (GoURL.Parse (config.BaseURL cfg)) as [pb|]; [|discriminate].
  destruct (String.eqb (GoURL.Host pu) (GoURL.Host pb)) eqn:Hh;
    [|discriminate].
  destruct (String.eqb (GoURL.Scheme pu) (GoURL.Scheme pb)) eqn:Hs;
    [|discriminate].
  intros _. exists pu, pb. apply String.eqb_eq in Hh, Hs. auto.
Qed.

Lemma addLink_origin cs link depth u :
  u ∈ urlQueue (addLink ToLower cfg cs link depth) →
  u ∈ urlQueue cs
  ∨ (u = FixRelativeURL link (config.BaseURL cfg) ∧ valid u = true).
Proof.
  unfold addLink.
  destruct (IsValidURL ToLower _ _) eqn:Hvalid; [|now left].
  destruct (negb _ && negb _); [|now left].
  destruct (negb _); [|now left].
  destruct (AddURL_queue cs (FixRelativeURL link (config.BaseURL cfg)) depth)
    as [-> | [-> _]]; [now left|].
  rewrite elem_of_app, list_elem_of_singleton. intros [Hu | ->]; auto.
Qed.

Lemma addNewLinksToQueue_origin links depth : ∀ cs u,
  u ∈ urlQueue (addNewLinksToQueue ToLower cfg cs links depth) →
  u ∈ urlQueue cs
  ∨ ∃ l, l ∈ links ∧ u = FixRelativeURL l (config.BaseURL cfg)
         ∧ valid u = true.
Proof.
  induction links as [|l links IH]; intros cs u; simpl; [now left|].
  intros Hu. apply IH in Hu as [Hu | (l' & Hl' & Hrest)].
  - apply addLink_origin in Hu as [Hu | Hu]; [now left|].
    right. exists l. split; [apply list_elem_of_here | exact Hu].
  - right. exists l'. split; [now apply list_elem_of_further | exact Hrest].
Qed.

Lemma Prov_start (cs : CrawlSession) : Prov cs cs [].
Proof.
  split; [reflexivity | now left |].
  intros e He. now apply elem_of_nil in He.
Qed.

(** Changing the session without touching the existing set, and
    without queueing anything foreign, keeps the provenance. *)
Lemma Prov_session cs0 cs cs' h :
  Prov cs0 cs h →
  existingURLs cs' = existingURLs cs →
  (∀ u, u ∈ urlQueue cs' → u ∈ urlQueue cs ∨ valid u = true) →
  Prov cs0 cs' h.
Proof.
  intros [He Hq Hh] He' Hq'. split; [congruence | | exact Hh].
  intros u Hu. destruct (Hq' u Hu) as [Hold | Hvalid]; [now apply Hq|].
  now right.
Qed.

Lemma Prov_capture cs0 cs h url depth :
  Prov cs0 cs h →
  fromSite ToLower cfg (urlQueue cs0) url →
  IsExisting cs (NormalizeURL url) = false →
  Prov cs0 cs (h ++ [(url, depth)]).
Proof.
  intros [He Hq Hh] Hurl Hex. split; [exact He | exact Hq |].
  intros e Hin. apply elem_of_app in Hin as [Hin | Hin]; [now apply Hh|].
  apply list_elem_of_singleton in Hin. subst e. split; [exact Hurl|].
  unfold IsExisting in *. now rewrite <- He.
Qed.

Lemma sequentialIteration_provenance cs0 a a' :
  seqIter a = Some a' →
  Prov cs0 (session a) (captures a) →
  Prov cs0 (session a') (captures a').
Proof.
  unfold sequentialIteration. intros Hstep Hinv.
  pose proof (GetNextURL_spec (session a)) as Hnext.
  destruct (urlQueue (session a)) as [|url rest] eqn:Hqueue.
  { rewrite Hnext in Hstep. discriminate Hstep. }
  destruct Hnext as (cs & Hnext & Hq & Hvis & Hex & _).
  rewrite Hnext in Hstep; simpl in Hstep.
  assert (Hurl : fromSite ToLower cfg (urlQueue cs0) url).
  { destruct Hinv as [_ Hfrom _]. apply Hfrom. rewrite Hqueue.
    apply list_elem_of_here. }
  assert (Hcs : Prov cs0 cs (captures a)).
  { apply (Prov_session _ _ _ _ Hinv Hex). intros u Hu. left.
    rewrite Hqueue. rewrite Hq in Hu. now apply list_elem_of_further. }
  assert (Hmark : ∀ k, Prov cs0 (MarkVisited cs k) (captures a)).
  { intros k. apply (Prov_session _ _ _ _ Hcs); [reflexivity|]. now left. }
  set (depth := readInt (depthMap (session a)) url) in *.
  destruct (depth >? config.MaxDepth cfg)%Z.
  { inversion Hstep; subst a'; exact Hcs. }
  destruct (IsVisited cs (NormalizeURL url)).
  { inversion Hstep; subst a'; exact Hcs. }
  destruct (IsExisting cs (NormalizeURL url)) eqn:Hexisting.
  { inversion Hstep; subst a'; apply Hmark. }
  destruct (ShouldSkipURL ToLower url (config.SkipPatterns cfg)).
  { inversion Hstep; subst a'; apply Hmark. }
  destruct (CaptureScreenshot (browser a) url) as [result b].
  assert (Hnew : Prov cs0 (AddResult (MarkVisited cs (NormalizeURL url)) result)
                   (captures a ++ [(url, depth)])).
  { apply Prov_capture; [|exact Hurl|exact Hexisting].
    apply (Prov_session _ _ _ _ Hcs); [reflexivity|]. now left. }
  destruct (Success result && (depth <? config.MaxDepth cfg)%Z).
  - destruct (ExtractLinks b url) as [[links|] b'];
      inversion Hstep; subst a'; simpl; [|exact Hnew].
    apply (Prov_session _ _ _ _ Hnew).
    + now destruct (addNewLinksToQueue_sets ToLower cfg links
                      (AddResult (MarkVisited cs (NormalizeURL url)) result)
                      (depth + 1)) as (_ & -> & _).
    + intros u Hu. apply addNewLinksToQueue_origin in Hu
        as [Hu | (l & _ & _ & Hvalid)]; auto.
  - inversion Hstep; subst a'; simpl. exact Hnew.
Qed.

Lemma runSequentialCrawl_provenance cs0 fuel : ∀ a,
  Prov cs0 (session a) (captures a) →
  Prov cs0 (session (seqRun fuel a).1) (captures (seqRun fuel a).1).
Proof.
  induction fuel as [|fuel IH]; intros a Hinv; simpl; [exact Hinv|].
  destruct (seqIter a) as [a'|] eqn:Hstep; [|exact Hinv].
  apply IH. now apply (sequentialIteration_provenance cs0 a a').
Qed.

(** Parallel mode. *)

Lemma entries_insert (ts : list Task) i t pc' :
  ts !! i = Some t →
  entry <$> <[i := mkTask (pageURL t) (pageDepth t) pc']> ts = entry <$> ts.
Proof.
  intros Hi.
  destruct (tasks_split ts i t (mkTask (pageURL t) (pageDepth t) pc') Hi)
    as (l1 & l2 & Hts & ->).
  rewrite Hts, !fmap_app. reflexivity.
Qed.

Lemma workerStep_provenance cs0 i (p p' : @Par Browser) :
  workerStep ToLower CaptureScreenshot ExtractLinks cfg i p = Some p' →
  ParProv cs0 p → ParProv cs0 p'.
Proof.
  unfold workerStep. intros Hstep [Hsession Hlog].
  destruct (tasks p !! i) as [t|] eqn:Hi; [|discriminate Hstep].
  simpl in Hstep.
  assert (Hin : entry t ∈ entry <$> tasks p).
  { apply list_elem_of_fmap. exists t. split; [reflexivity|].
    now apply list_elem_of_lookup_2 in Hi. }
  assert (Hkeep : ∀ pc' b chan,
            ParProv cs0 (mkPar (psession p) b (pcaptures p)
                           (<[i := mkTask (pageURL t) (pageDepth t) pc']> (tasks p))
                           chan (dispatcher p))).
  { intros pc' b chan. split; simpl; rewrite (entries_insert _ _ _ _ Hi); auto. }
  destruct (pc t) as [| |result|result|[|link links]|] eqn:Hpc.
  - destruct (_ <? _)%Z; [|discriminate Hstep].
    inversion Hstep; subst p'. apply Hkeep.
  - destruct (CaptureScreenshot (pbrowser p) (pageURL t)) as [result b].
    inversion Hstep; subst p'.
    split; simpl; rewrite (entries_insert _ _ _ _ Hi); [exact Hsession|].
    intros e He. apply elem_of_app in He as [He | He]; [now apply Hlog|].
    apply list_elem_of_singleton in He. now subst e.
  - destruct (_ <? _)%nat; [|discriminate Hstep].
    inversion Hstep; subst p'. apply Hkeep.
  - destruct (Success result && (pageDepth t <? config.MaxDepth cfg)%Z).
    + destruct (ExtractLinks (pbrowser p) (pageURL t)) as [[links|] b];
        inversion Hstep; subst p'; apply Hkeep.
    + inversion Hstep; subst p'. apply Hkeep.
  - inversion Hstep; subst p'. apply Hkeep.
  - inversion Hstep; subst p'.
    split; simpl; rewrite (entries_insert _ _ _ _ Hi); [|exact Hlog].
    apply (Prov_session _ _ _ _ Hsession).
    + now destruct (addLink_sets ToLower cfg (psession p) link
                      (pageDepth t + 1)) as (_ & -> & _).
    + intros u Hu. apply addLink_origin in Hu as [Hu | [_ Hvalid]]; auto.
  - discriminate Hstep.
Qed.

Lemma collectorStep_provenance cs0 (p p' : @Par Browser) :
  collectorStep p = Some p' → ParProv cs0 p → ParProv cs0 p'.
Proof.
  unfold collectorStep. destruct (resultsChan p); [discriminate|].
  intros Hstep [Hsession Hlog]. inversion Hstep; subst p'.
  split; simpl; [|exact Hlog].
  apply (Prov_session _ _ _ _ Hsession); [reflexivity | now left].
Qed.

Lemma dispatcherStep_provenance cs0 (p p' : @Par Browser) :
  dispatcherStep ToLower cfg p = Some p' → ParProv cs0 p → ParProv cs0 p'.
Proof.
  unfold dispatcherStep. intros Hstep [Hsession Hlog].
  destruct (dispatcher p).
  - pose proof (GetNextURL_spec (psession p)) as Hnext.
    destruct (urlQueue (psession p)) as [|url rest] eqn:Hqueue.
    { rewrite Hnext in Hstep; simpl in Hstep.
      inversion Hstep; subst p'. split; auto. }
    destruct Hnext as (cs & Hnext & Hq & Hvis & Hex & _).
    rewrite Hnext in Hstep; simpl in Hstep.
    assert (Hurl : fromSite ToLower cfg (urlQueue cs0) url).
    { destruct Hsession as [_ Hfrom _]. apply Hfrom. rewrite Hqueue.
      apply list_elem_of_here. }
    assert (Hcs : Prov cs0 cs (entry <$> tasks p)).
    { apply (Prov_session _ _ _ _ Hsession Hex). intros u Hu. left.
      rewrite Hqueue. rewrite Hq in Hu. now apply list_elem_of_further. }
    set (depth := readInt (depthMap (psession p)) url) in *.
    destruct (depth >? config.MaxDepth cfg)%Z.
    { inversion Hstep; subst p'. split; auto. }
    destruct (IsVisited cs (NormalizeURL url)); simpl in Hstep.
    { inversion Hstep; subst p'. split; auto. }
    destruct (IsExisting cs (NormalizeURL url)) eqn:Hexisting.
    { inversion Hstep; subst p'. split; auto. }
    destruct (ShouldSkipURL ToLower url (config.SkipPatterns cfg)).
    { inversion Hstep; subst p'. split; auto. }
    inversion Hstep; subst p'. split; simpl.
    + rewrite fmap_app. simpl. change (entry _) with (url, depth).
      apply Prov_capture; [|exact Hurl|exact Hexisting].
      apply (Prov_session _ _ _ _ Hcs); [reflexivity | now left].
    + intros e He. rewrite fmap_app, elem_of_app. left. now apply Hlog.
  - destruct (forallb isFinished (tasks p)); [|discriminate Hstep].
    inversion Hstep; subst p'. split; auto.
  - discriminate Hstep.
Qed.

Lemma parRun_provenance cs0 schedule : ∀ (p p' : @Par Browser),
  run schedule p = Some p' → ParProv cs0 p → ParProv cs0 p'.
Proof.
  induction schedule as [|who schedule IH]; intros p p' Hrun Hinv; simpl in Hrun.
  - now inversion Hrun; subst.
  - destruct (step who p) as [q|] eqn:Hstep; [|discriminate Hrun].
    simpl in Hrun. apply (IH q p' Hrun).
    destruct who; simpl in Hstep.
    + now apply (dispatcherStep_provenance cs0 p).
    + now apply (workerStep_provenance cs0 i p).
    + now apply (collectorStep_provenance cs0 p).
Qed.

Lemma parStart_provenance (cs : CrawlSession) (b : Browser) :
  ParProv cs (parStart cs b).
Proof.
  split; simpl; [apply Prov_start|].
  intros e He. now apply elem_of_nil in He.
Qed.

Lemma captures_provenance_seq fuel (a : App) :
  captures a = [] →
  Prov (session a) (session (seqRun fuel a).1) (captures (seqRun fuel a).1).
Proof.
  intros Hlog. apply runSequentialCrawl_provenance. rewrite Hlog.
  apply Prov_start.
Qed.

Lemma captures_provenance_par schedule cs (b : Browser) p :
  run schedule (parStart cs b) = Some p →
  existingURLs (psession p) = existingURLs cs
  ∧ ∀ e, e ∈ pcaptures p →
      fromSite ToLower cfg (urlQueue cs) e.1
      ∧ IsExisting cs (identity e) = false.
Proof.
  intros Hrun.
  destruct (parRun_provenance cs schedule _ p Hrun (parStart_provenance cs b))
    as [[He _ Hh] Hlog].
  split; [exact He|]. intros e Hin. apply Hh, Hlog, Hin.
Qed.

(** In a run of either loop every URL captured was in the queue when
    the loop was entered or is a link that [IsValidURL] accepted: it
    parses, and to the host and the scheme of the base URL. *)
Theorem crawl_stays_on_site :
  (∀ fuel (a : App),
     captures a = [] →
     ∀ e, e ∈ captures (seqRun fuel a).1 →
       e.1 ∈ urlQueue (session a)
       ∨ (valid e.1 = true ∧ sameSite cfg e.1))
  ∧ (∀ schedule cs (b : Browser) p,
       run schedule (parStart cs b) = Some p →
       ∀ e, e ∈ pcaptures p →
         e.1 ∈ urlQueue cs ∨ (valid e.1 = true ∧ sameSite cfg e.1)).
Proof.
  split.
  - intros fuel a Hlog e He.
    destruct (captures_provenance_seq fuel a Hlog) as [_ _ Hh].
    destruct (Hh e He) as [[Hin | Hvalid] _]; [now left|].
    right. split; [exact Hvalid | now apply IsValidURL_sameSite].
  - intros schedule cs b p Hrun e He.
    destruct (captures_provenance_par schedule cs b p Hrun) as [_ Hh].
    destruct (Hh e He) as [[Hin | Hvalid] _]; [now left|].
    right. split; [exact Hvalid | now apply IsValidURL_sameSite].
Qed.

(** Neither loop touches the existing set, and neither captures a URL
    whose normal form is in it. *)
Theorem existing_never_captured :
  (∀ fuel (a : App),
     captures a = [] →
     let a' := (seqRun fuel a).1 in
     existingURLs (session a') = existingURLs (session a)
     ∧ ∀ e, e ∈ captures a' → IsExisting (session a) (identity e) = false)
  ∧ (∀ schedule cs (b : Browser) p,
       run schedule (parStart cs b) = Some p →
       existingURLs (psession p) = existingURLs cs
       ∧ ∀ e, e ∈ pcaptures p → IsExisting cs (identity e) = false).
Proof.
  split.
  - intros fuel a Hlog a'.
    destruct (captures_provenance_seq fuel a Hlog) as [He _ Hh].
    split; [exact He|]. intros e Hin. now apply Hh.
  - intros schedule cs b p Hrun.
    destruct (captures_provenance_par schedule cs b p Hrun) as [He Hh].
    split; [exact He|]. intros e Hin. now apply Hh.
Qed.

End Origin.

(** *** Resources of the parallel loop, and the results *)

Section Resources.
Import models utils services safety.

Context {Browser : Type}.
Variable ToLower : string → string.
Variable CaptureScreenshot : Browser → string → ScreenshotResult * Browser.
Variable ExtractLinks : Browser → string → option (list string) * Browser.
Variable cfg : config.Config.

Local Abbreviation seqIter :=
  (sequentialIteration ToLower CaptureScreenshot ExtractLinks cfg).
Local Abbreviation seqRun :=
  (runSequentialCrawl ToLower CaptureScreenshot ExtractLinks cfg).
Local Abbreviation step :=
  (parStep ToLower CaptureScreenshot ExtractLinks cfg).
Local Abbreviation run :=
  (parRun ToLower CaptureScreenshot ExtractLinks cfg).
Local Abbreviation Res := (@ParResources Browser cfg).

Lemma count_insert (f : Task → bool) (ts : list Task) i t t' :
  ts !! i = Some t →
  (length (List.filter f (<[i := t']> ts)) + (if f t then 1 else 0)
   = length (List.filter f ts) + (if f t' then 1 else 0))%nat.
Proof.
  intros Hi. destruct (tasks_split ts i t t' Hi) as (l1 & l2 & Hts & ->).
  rewrite Hts, !List.filter_app, !length_app. simpl.
  destruct (f t), (f t'); simpl; lia.
Qed.

(** A worker step on task [i]: how the task changes its hold on the
    semaphore and its pending send decides what happens to the
    invariant. *)
Lemma worker_resources r0 (p : @Par Browser) i t pc' cs' b' log' chan' :
  Res r0 p →
  tasks p !! i = Some t →
  let t' := mkTask (pageURL t) (pageDepth t) pc' in
  (holdsSlot t' = true → holdsSlot t = false →
   (slotsHeld (tasks p) < config.ParallelWorkers cfg)%Z) →
  (length chan' ≤ resultsChanCap)%nat →
  (length (results cs') + (if isSending t' then 1 else 0) + length chan'
   + length (pcaptures p)
   = length (results (psession p)) + (if isSending t then 1 else 0)
     + length (resultsChan p) + length log')%nat →
  Res r0 (mkPar cs' b' log' (<[i := t']> (tasks p)) chan' (dispatcher p)).
Proof.
  intros [Hslots Hchan Hres] Hi t' Hacquire Hchan' Hcount.
  pose proof (count_insert holdsSlot (tasks p) i t t' Hi) as Hh.
  pose proof (count_insert isSending (tasks p) i t t' Hi) as Hs.
  unfold inFlight, slotsHeld in *. subst t'.
  set (t' := mkTask (pageURL t) (pageDepth t) pc') in *.
  split; unfold inFlight, slotsHeld;
    cbn [tasks resultsChan psession pcaptures].
  - fold t'. destruct (holdsSlot t') eqn:Ht', (holdsSlot t) eqn:Ht;
      cbv iota in Hh; try lia.
    all: specialize (Hacquire eq_refl eq_refl); lia.
  - exact Hchan'.
  - fold t'. destruct (isSending t), (isSending t');
      cbv iota in Hs, Hcount; lia.
Qed.

Lemma workerStep_resources r0 i (p p' : @Par Browser) :
  workerStep ToLower CaptureScreenshot ExtractLinks cfg i p = Some p' →
  Res r0 p → Res r0 p'.
Proof.
  unfold workerStep. intros Hstep Hinv.
  destruct (tasks p !! i) as [t|] eqn:Hi; [|discriminate Hstep].
  simpl in Hstep. pose proof (res_chan _ _ _ Hinv) as Hchan.
  destruct (pc t) as [| |result|result|[|link links]|] eqn:Hpc.
  - destruct (Z.ltb_spec (slotsHeld (tasks p)) (config.ParallelWorkers cfg));
      [|discriminate Hstep].
    inversion Hstep; subst p'. apply worker_resources; auto.
    unfold isSending; simpl. rewrite Hpc. lia.
  - destruct (CaptureScreenshot (pbrowser p) (pageURL t)) as [result b].
    inversion Hstep; subst p'. apply worker_resources; auto.
    + unfold holdsSlot; simpl. rewrite Hpc. discriminate.
    + unfold isSending; simpl. rewrite Hpc, length_app. simpl. lia.
  - destruct (Nat.ltb_spec (length (resultsChan p)) resultsChanCap);
      [|discriminate Hstep].
    inversion Hstep; subst p'. apply worker_resources; auto.
    + unfold holdsSlot; simpl. rewrite Hpc. discriminate.
    + rewrite length_app. simpl. lia.
    + unfold isSending; simpl. rewrite Hpc, length_app. simpl. lia.
  - assert (Hgo : ∀ pc' b,
              isSending (mkTask (pageURL t) (pageDepth t) pc') = false →
              Res r0 (mkPar (psession p) b (pcaptures p)
                        (<[i := mkTask (pageURL t) (pageDepth t) pc']> (tasks p))
                        (resultsChan p) (dispatcher p))).
    { intros pc' b Hns. apply worker_resources; auto.
      - unfold holdsSlot at 2; simpl. rewrite Hpc. discriminate.
      - rewrite Hns. unfold isSending. rewrite Hpc. lia. }
    destruct (Success result && (pageDepth t <? config.MaxDepth cfg)%Z).
    + destruct (ExtractLinks (pbrowser p) (pageURL t)) as [[links|] b];
        inversion Hstep; subst p'; now apply Hgo.
    + inversion Hstep; subst p'. now apply Hgo.
  - inversion Hstep; subst p'. apply worker_resources; auto.
    + unfold holdsSlot; simpl. discriminate.
    + unfold isSending; simpl. rewrite Hpc. lia.
  - inversion Hstep; subst p'. apply worker_resources; auto.
    + unfold holdsSlot at 2; simpl. rewrite Hpc. discriminate.
    + destruct (addLink_sets ToLower cfg (psession p) link (pageDepth t + 1))
        as (_ & _ & ->).
      unfold isSending; simpl. rewrite Hpc. lia.
  - discriminate Hstep.
Qed.

Lemma collectorStep_resources r0 (p p' : @Par Browser) :
  collectorStep p = Some p' → Res r0 p → Res r0 p'.
Proof.
  unfold collectorStep. destruct (resultsChan p) as [|r chan] eqn:Hc;
    [discriminate|].
  intros Hstep [Hslots Hchan Hres]. inversion Hstep; subst p'.
  unfold inFlight in Hres. rewrite Hc in Hchan, Hres.
  cbn [length] in Hchan, Hres.
  split; unfold inFlight; cbn [tasks resultsChan psession pcaptures];
    [exact Hslots | lia |].
  unfold AddResult; cbn [results]. rewrite length_app. cbn [length]. lia.
Qed.

Lemma dispatcherStep_resources r0 (p p' : @Par Browser) :
  dispatcherStep ToLower cfg p = Some p' → Res r0 p → Res r0 p'.
Proof.
  unfold dispatcherStep. intros Hstep [Hslots Hchan Hres].
  unfold inFlight in *.
  destruct (dispatcher p).
  - pose proof (GetNextURL_spec (psession p)) as Hnext.
    destruct (urlQueue (psession p)) as [|url rest].
    { rewrite Hnext in Hstep; simpl in Hstep.
      inversion Hstep; subst p'. split; auto. }
    destruct Hnext as (cs & Hnext & _ & _ & _ & _ & Hr).
    rewrite Hnext in Hstep; simpl in Hstep. rewrite <- Hr in Hres.
    destruct (_ >? _)%Z.
    { inversion Hstep; subst p'. split; auto. }
    destruct (IsVisited cs (NormalizeURL url)); simpl in Hstep.
    { inversion Hstep; subst p'. split; auto. }
    destruct (IsExisting cs (NormalizeURL url)).
    { inversion Hstep; subst p'. split; auto. }
    destruct (ShouldSkipURL ToLower url (config.SkipPatterns cfg)).
    { inversion Hstep; subst p'. split; auto. }
    inversion Hstep; subst p'. unfold slotsHeld in Hslots.
    split; unfold inFlight, slotsHeld;
      cbn [tasks resultsChan psession pcaptures]; [|exact Hchan|];
      rewrite List.filter_app; simpl; rewrite app_nil_r; assumption.
  - destruct (forallb isFinished (tasks p)); [|discriminate Hstep].
    inversion Hstep; subst p'. split; auto.
  - discriminate Hstep.
Qed.

Lemma parRun_resources r0 schedule : ∀ (p p' : @Par Browser),
  run schedule p = Some p' → Res r0 p → Res r0 p'.
Proof.
  induction schedule as [|who schedule IH]; intros p p' Hrun Hinv; simpl in Hrun.
  - now inversion Hrun; subst.
  - destruct (step who p) as [q|] eqn:Hstep; [|discriminate Hrun].
    simpl in Hrun. apply (IH q p' Hrun).
    destruct who; simpl in Hstep.
    + now apply (dispatcherStep_resources r0 p).
    + now apply (workerStep_resources r0 i p).
    + now apply (collectorStep_resources r0 p).
Qed.

Lemma parStart_resources (cs : CrawlSession) (b : Browser) :
  Res (length (results cs)) (parStart cs b).
Proof.
  split; unfold inFlight, slotsHeld, resultsChanCap, parStart;
    cbn [tasks resultsChan psession pcaptures List.filter length]; lia.
Qed.

(** In every execution of the parallel loop at most
    [ParallelWorkers] tasks hold the semaphore, between acquiring it
    and returning, and [resultsChan] never holds more than its 100
    results. *)
Theorem parallel_within_capacity schedule cs (b : Browser) p :
  run schedule (parStart cs b) = Some p →
  (slotsHeld (tasks p) ≤ Z.max 0 (config.ParallelWorkers cfg))%Z
  ∧ (length (resultsChan p) ≤ resultsChanCap)%nat.
Proof.
  intros Hrun.
  destruct (parRun_resources _ schedule _ p Hrun (parStart_resources cs b))
    as [Hslots Hchan _].
  now split.
Qed.

End Resources.

Lemma parallel_within_capacity_witness :
  (services.slotsHeld
     (services.tasks
        (default examples.parStart
           (services.parRun examples.lower examples.siteCapture
              examples.siteLinks examples.cfg examples.earlyExit
              examples.parStart)))
   ≤ Z.max 0 (config.ParallelWorkers examples.cfg))%Z
  ∧ (length
       (services.resultsChan
          (default examples.parStart
             (services.parRun examples.lower examples.siteCapture
                examples.siteLinks examples.cfg examples.earlyExit
                examples.parStart)))
     ≤ services.resultsChanCap)%nat.
Proof.
  destruct (services.parRun examples.lower examples.siteCapture
              examples.siteLinks examples.cfg examples.earlyExit
              examples.parStart) as [p|] eqn:Hrun.
  - apply (parallel_within_capacity examples.lower examples.siteCapture
             examples.siteLinks examples.cfg examples.earlyExit
             examples.seeded tt p Hrun).
  - vm_compute in Hrun. discriminate Hrun.
Defined.

(** *** Termination of the sequential loop *)

Section Termination.
Import models utils services safety.

Context {Browser : Type}.
Variable ToLower : string → string.
Variable CaptureScreenshot : Browser → string → ScreenshotResult * Browser.
Variable ExtractLinks : Browser → string → option (list string) * Browser.
Variable cfg : config.Config.

Local Abbreviation seqIter :=
  (sequentialIteration ToLower CaptureScreenshot ExtractLinks cfg).
Local Abbreviation seqRun :=
  (runSequentialCrawl ToLower CaptureScreenshot ExtractLinks cfg).

(** The site is finite: the normal forms of the links any page yields
    lie in [universe]. *)
Variable universe : gset string.

Local Abbreviation finiteSite :=
  (∀ b url links b',
     ExtractLinks b url = (Some links, b') →
     ∀ l, l ∈ links →
       NormalizeURL (FixRelativeURL l (config.BaseURL cfg)) ∈ universe).

Local Abbreviation queued cs :=
  (∀ u, u ∈ urlQueue cs → NormalizeURL u ∈ universe).

Lemma unvisited_same (cs cs' : CrawlSession) :
  visitedURLs cs' = visitedURLs cs →
  unvisited universe cs' = unvisited universe cs.
Proof.
  intros Hv. apply set_eq. intros y. unfold unvisited.
  rewrite !elem_of_filter. unfold IsVisited. now rewrite Hv.
Qed.

Lemma unvisited_mark (cs cs' : CrawlSession) (x : string) :
  x ∈ universe → IsVisited cs x = false →
  visitedURLs cs' = <[x := true]> (visitedURLs cs) →
  (size (unvisited universe cs') < size (unvisited universe cs))%nat.
Proof.
  intros Hx Hnew Hv. apply subset_size. unfold unvisited. split.
  - intros y. rewrite !elem_of_filter. intros [Hy Hin]. split; [|exact Hin].
    unfold IsVisited, readBool in *. rewrite Hv, lookup_insert in Hy.
    destruct (decide (x = y)); [discriminate Hy | exact Hy].
  - intros Hsub. specialize (Hsub x). rewrite !elem_of_filter in Hsub.
    destruct Hsub as [Hy _]; [now split|].
    unfold IsVisited, readBool in Hy. rewrite Hv, lookup_insert_eq in Hy.
    discriminate Hy.
Qed.

(** One round on a non-empty queue: it takes the head off the queue
    and leaves the visited set alone, or it marks a normal form of the
    site that was not visited. *)
Lemma sequentialIteration_progress (a : App) url rest :
  finiteSite →
  urlQueue (session a) = url :: rest →
  queued (session a) →
  ∃ a', seqIter a = Some a'
        ∧ queued (session a')
        ∧ ((visitedURLs (session a') = visitedURLs (session a)
            ∧ urlQueue (session a') = rest)
           ∨ (size (unvisited universe (session a'))
              < size (unvisited universe (session a)))%nat).
Proof.
  intros Hsite Hqueue Hinv. unfold sequentialIteration.
  pose proof (GetNextURL_spec (session a)) as Hnext. rewrite Hqueue in Hnext.
  destruct Hnext as (cs & -> & Hq & Hvis & _). cbv beta iota.
  cbn [negb].
  assert (Hurl : NormalizeURL url ∈ universe).
  { apply Hinv. rewrite Hqueue. apply list_elem_of_here. }
  assert (Hrest : ∀ u, u ∈ rest → NormalizeURL u ∈ universe).
  { intros u Hu. apply Hinv. rewrite Hqueue. now apply list_elem_of_further. }
  assert (Hsame : ∀ x, IsVisited cs x = IsVisited (session a) x)
    by (intros x; unfold IsVisited; now rewrite Hvis).
  set (depth := readInt (depthMap (session a)) url).
  assert (Hdrop : ∃ a', Some (mkApp cs (browser a) (captures a)) = Some a'
                        ∧ queued (session a')
                        ∧ ((visitedURLs (session a') = visitedURLs (session a)
                            ∧ urlQueue (session a') = rest)
                           ∨ (size (unvisited universe (session a'))
                              < size (unvisited universe (session a)))%nat)).
  { eexists. split; [reflexivity|]. simpl. rewrite Hq.
    split; [exact Hrest | left; auto]. }
  destruct (depth >? config.MaxDepth cfg)%Z; [exact Hdrop|].
  destruct (IsVisited cs (NormalizeURL url)) eqn:Hv; [exact Hdrop|].
  rewrite Hsame in Hv.
  assert (Hmark : ∀ cs', visitedURLs cs'
                         = <[NormalizeURL url := true]> (visitedURLs (session a)) →
                  (size (unvisited universe cs')
                   < size (unvisited universe (session a)))%nat).
  { intros cs' Hcs'. now apply (unvisited_mark _ _ (NormalizeURL url)). }
  assert (Hskip : ∃ a', Some (mkApp (MarkVisited cs (NormalizeURL url))
                                (browser a) (captures a)) = Some a'
                        ∧ queued (session a')
                        ∧ ((visitedURLs (session a') = visitedURLs (session a)
                            ∧ urlQueue (session a') = rest)
                           ∨ (size (unvisited universe (session a'))
                              < size (unvisited universe (session a)))%nat)).
  { eexists. split; [reflexivity|]. simpl. rewrite Hq.
    split; [exact Hrest|]. right. apply Hmark. simpl. now rewrite Hvis. }
  destruct (IsExisting cs (NormalizeURL url)); [exact Hskip|].
  destruct (ShouldSkipURL ToLower url (config.SkipPatterns cfg)); [exact Hskip|].
  destruct (CaptureScreenshot (browser a) url) as [result b].
  destruct (Success result && (depth <? config.MaxDepth cfg)%Z).
  - destruct (ExtractLinks b url) as [[links|] b'] eqn:Hlinks.
    + eexists. split; [reflexivity|]. simpl.
      destruct (addNewLinksToQueue_sets ToLower cfg links
                  (AddResult (MarkVisited cs (NormalizeURL url)) result)
                  (depth + 1)) as (Hv' & _).
      split.
      * intros u Hu. apply addNewLinksToQueue_origin in Hu
          as [Hu | (l & Hl & -> & _)].
        -- simpl in Hu. rewrite Hq in Hu. now apply Hrest.
        -- now apply (Hsite b url links b' Hlinks).
      * right. apply Hmark. rewrite Hv'. simpl. now rewrite Hvis.
    + eexists. split; [reflexivity|]. simpl. rewrite Hq.
      split; [exact Hrest|]. right. apply Hmark. simpl. now rewrite Hvis.
  - eexists. split; [reflexivity|]. simpl. rewrite Hq.
    split; [exact Hrest|]. right. apply Hmark. simpl. now rewrite Hvis.
Qed.

(** Once the loop has left through its [break], more fuel changes
    nothing. *)
Lemma runSequentialCrawl_more_fuel fuel : ∀ (a a' : App) extra,
  seqRun fuel a = (a', true) → seqRun (fuel + extra) a = (a', true).
Proof.
  induction fuel as [|fuel IH]; intros a a' extra; simpl; [discriminate|].
  destruct (seqIter a) as [a1|]; [apply IH | auto].
Qed.

Lemma runSequentialCrawl_drains (n : nat) :
  finiteSite →
  ∀ k (a : App),
    (size (unvisited universe (session a)) ≤ n)%nat →
    length (urlQueue (session a)) = k →
    queued (session a) →
    ∃ fuel a', seqRun fuel a = (a', true) ∧ urlQueue (session a') = [].
Proof.
  intros Hsite. induction n as [n IHn] using lt_wf_ind.
  induction k as [|k IHk]; intros a Hsize Hlen Hinv.
  - exists 1%nat, a. apply nil_length_inv in Hlen. split; [|exact Hlen].
    simpl. unfold sequentialIteration.
    pose proof (GetNextURL_spec (session a)) as Hnext. rewrite Hlen in Hnext.
    now rewrite Hnext.
  - destruct (urlQueue (session a)) as [|url rest] eqn:Hqueue;
      [discriminate Hlen|].
    destruct (sequentialIteration_progress a url rest Hsite Hqueue)
      as (a1 & Hstep & Hinv1 & Hcases).
    { now rewrite Hqueue. }
    assert (∃ fuel a', seqRun fuel a1 = (a', true)
                       ∧ urlQueue (session a') = []) as (fuel & a' & Hrun & Hend).
    { destruct Hcases as [[Hv Hq] | Hless].
      - apply IHk; [|rewrite Hq; simpl in Hlen; lia|exact Hinv1].
        now rewrite (unvisited_same _ _ Hv).
      - apply (IHn (size (unvisited universe (session a1))) ltac:(lia)
                   (length (urlQueue (session a1))) a1);
          [lia | reflexivity | exact Hinv1]. }
    exists (S fuel), a'. split; [|exact Hend]. simpl. now rewrite Hstep.
Qed.

(** On a finite site the sequential loop terminates: if the normal
    forms of the queued URLs and of the links any page yields lie in
    one finite set, then after some number of rounds the loop leaves
    through its [break], the queue being empty, and that is its result
    whatever more rounds it is allowed. *)
Theorem runSequentialCrawl_terminates (a : App) :
  (∀ u, u ∈ urlQueue (session a) → NormalizeURL u ∈ universe) →
  (∀ b url links b',
     ExtractLinks b url = (Some links, b') →
     ∀ l, l ∈ links →
       NormalizeURL (FixRelativeURL l (config.BaseURL cfg)) ∈ universe) →
  ∃ fuel a',
    urlQueue (session a') = []
    ∧ ∀ extra, seqRun (fuel + extra) a = (a', true).
Proof.
  intros Hqueue Hsite.
  destruct (runSequentialCrawl_drains
              (size (unvisited universe (session a))) Hsite
              (length (urlQueue (session a))) a (Nat.le_refl _) eq_refl Hqueue)
    as (fuel & a' & Hrun & Hend).
  exists fuel, a'. split; [exact Hend|]. intros extra.
  now apply runSequentialCrawl_more_fuel.
Qed.

End Termination.

Lemma runSequentialCrawl_terminates_witness :
  ∃ fuel a',
    models.urlQueue (services.session a') = []
    ∧ ∀ extra,
        services.runSequentialCrawl examples.lower examples.siteCapture
          examples.siteLinks examples.cfg (fuel + extra) examples.seqStart
        = (a', true).
Proof.
  apply (runSequentialCrawl_terminates examples.lower examples.siteCapture
           examples.siteLinks examples.cfg
           ({["https://example.com/"; "https://example.com/about"]}
              : gset string)
           examples.seqStart).
  - assert (Hq : models.urlQueue (services.session examples.seqStart)
                 = ["https://example.com"]) by (vm_compute; reflexivity).
    intros u Hu. rewrite Hq in Hu. apply list_elem_of_singleton in Hu.
    subst u.
    assert (utils.NormalizeURL "https://example.com" = "https://example.com/")
      as -> by (vm_compute; reflexivity).
    set_solver.
  - intros b url links b' Hlinks l Hl. unfold examples.siteLinks in Hlinks.
    inversion Hlinks; subst links.
    destruct (String.eqb url "https://example.com");
      [|now apply elem_of_nil in Hl].
    apply list_elem_of_singleton in Hl. subst l.
    assert (utils.NormalizeURL
              (utils.FixRelativeURL "https://example.com/about"
                 (config.BaseURL examples.cfg))
            = "https://example.com/about") as -> by (vm_compute; reflexivity).
    set_solver.
Defined.

Section BareQuery.
Import GoBytes GoStrings utils.

Local Arguments String.append !_ _ / : simpl nomatch.

(** What [parse] returns for a text without question mark, and for
    the text followed by one. *)
Lemma parse_force (u : string) (p : GoURL.URL) :
  GoURL.parse u = Some p →
  (u =? "*")%string = false →
  Contains u "?" = false →
  ∃ scheme opaque user host path rawPath omitHost,
    p = GoURL.mkURL scheme opaque user host path rawPath omitHost
          false "" "" ""
    ∧ GoURL.parse (u +:+ "?")
      = Some (GoURL.mkURL scheme opaque user host path rawPath omitHost
                true "" "" "").
Proof.
  intros Hp Hstar Hu.
  pose proof (Contains_absent "?" u Hu) as Hu'.
  unfold GoURL.parse in Hp |- *.
  destruct (GoURL.stringContainsCTLByte u) eqn:Hctlu; [discriminate Hp|].
  assert (GoURL.stringContainsCTLByte (u +:+ "?") = false) as ->.
  { unfold GoURL.stringContainsCTLByte in *.
    apply negb_false_iff in Hctlu. apply negb_false_iff.
    now rewrite all_app, Hctlu. }
  rewrite Hstar in Hp.
  assert ((u +:+ "?" =? "*")%string = false) as ->.
  { apply String.eqb_neq. destruct u as [|c u]; [discriminate|].
    destruct u; discriminate. }
  unfold GoURL.getScheme in Hp |- *.
  pose proof (getSchemeFrom_query "?" eq_refl u "") as Hscan.
  cbn [len String.length String.append] in Hscan.
  rewrite Hscan. clear Hscan.
  destruct (GoURL.getSchemeFrom 0 u u) as [[sch0 rest0]|] eqn:Hget;
    [|discriminate Hp].
  cbn [mbind option_bind] in Hp |- *.
  assert (Hrest : all (fun c => negb (eqb c "?")) rest0 = true)
    by (eapply (getSchemeFrom_rest _ u Hu' u 0); eauto).
  assert (Hsplit :
    (if HasSuffix rest0 "?" && Nat.eqb (CountByte rest0 "?") 1
     then (take (len rest0 - 1) rest0, true, "")
     else let '(before, after, _) := Cut rest0 "?" in (before, false, after))
    = (rest0, false, "")).
  { rewrite (HasSuffix_absent "?" rest0 Hrest). cbn [andb].
    unfold Cut. now rewrite (Index_absent "?" rest0 Hrest). }
  rewrite Hsplit in Hp. clear Hsplit.
  assert (Hsplit :
    (if HasSuffix (rest0 +:+ "?") "?"
        && Nat.eqb (CountByte (rest0 +:+ "?") "?") 1
     then (take (len (rest0 +:+ "?") - 1) (rest0 +:+ "?"), true, "")
     else let '(before, after, _) := Cut (rest0 +:+ "?") "?" in
          (before, false, after))
    = (rest0, true, "")).
  { rewrite HasSuffix_app, CountByte_app, (CountByte_absent "?" rest0 Hrest).
    cbn [CountByte andb Nat.add Nat.eqb].
    change (eqb "?" "?") with true. cbv iota. cbn [Nat.add Nat.eqb].
    rewrite len_app. cbn [len String.length].
    replace (len rest0 + 1 - 1) with (len rest0) by (unfold len; lia).
    now rewrite take_app. }
  rewrite Hsplit. clear Hsplit. cbv beta iota in Hp |- *.
  revert Hp.
  destruct (negb (HasPrefix rest0 "/") && negb (isEmpty (ToLowerASCII sch0))).
  { intros H. inversion H. repeat eexists. }
  destruct (negb (HasPrefix rest0 "/") && Contains (Cut rest0 "/").1.1 ":");
    [discriminate|].
  destruct ((negb (isEmpty (ToLowerASCII sch0))
             || negb (HasPrefix rest0 "///")) && HasPrefix rest0 "//").
  - destruct (Index (drop 2 rest0) "/") as [i|];
      (destruct (GoURL.parseAuthority _) as [[user host]|]; [|discriminate]);
      cbn [mbind option_bind];
      (destruct (GoURL.setPath _) as [[path raw]|]; [|discriminate]);
      cbn [mbind option_bind]; intros H; inversion H; repeat eexists.
  - destruct (GoURL.setPath rest0) as [[path raw]|]; [|discriminate].
    cbn [mbind option_bind]. intros H. inversion H. repeat eexists.
Qed.

(** [NormalizeURL] empties the query but not the mark of a bare
    question mark: of a text without [?] and [#] that parses, followed
    by a question mark, the normal form is that of the text followed
    by a question mark.  Such a link is a page of its own to the
    crawler. *)
Theorem NormalizeURL_keeps_bare_question_mark (u : string) :
  GoURL.isSome (GoURL.Parse u) = true →
  (u =? "*")%string = false →
  Contains u "?" = false → Contains u "#" = false →
  NormalizeURL (u +:+ "?") = NormalizeURL u +:+ "?".
Proof.
  intros Hparse Hstar Hu Hu'. unfold NormalizeURL, GoURL.Parse in *.
  assert (Contains (u +:+ "?") "#" = false) as Hno.
  { unfold Contains. rewrite Index_absent; [reflexivity|].
    now rewrite all_app, (Contains_absent "#" u Hu'). }
  rewrite (Cut_absent "#" _ Hno). rewrite (Cut_absent "#" u Hu') in *.
  cbn [isEmpty] in *.
  destruct (GoURL.parse u) as [p|] eqn:Hp; [|discriminate Hparse].
  destruct (parse_force u p Hp Hstar Hu)
    as (scheme & opaque & user & host & path & rawPath & omitHost & -> & ->).
  cbn [mbind option_bind].
  unfold GoURL.String, normalized.
  cbn [GoURL.Scheme GoURL.Opaque GoURL.User GoURL.Host GoURL.Path
       GoURL.RawPath GoURL.OmitHost GoURL.ForceQuery GoURL.RawQuery
       GoURL.Fragment GoURL.RawFragment isEmpty negb orb].
  reflexivity.
Qed.

Lemma NormalizeURL_keeps_bare_question_mark_witness :
  NormalizeURL "https://example.com/docs?"
  = NormalizeURL "https://example.com/docs" +:+ "?".
Proof.
  apply (NormalizeURL_keeps_bare_question_mark "https://example.com/docs");
    vm_compute; reflexivity.
Defined.

(** [Parse] on a text followed by a query. *)
Lemma Parse_query (u q : string) (p : GoURL.URL) :
  GoURL.Parse u = Some p →
  (u =? "*")%string = false →
  Contains u "?" = false → Contains u "#" = false →
  isEmpty q = false →
  Contains q "#" = false → GoURL.stringContainsCTLByte q = false →
  GoURL.Parse (u +:+ "?" +:+ q)
  = Some (GoURL.mkURL (GoURL.Scheme p) (GoURL.Opaque p) (GoURL.User p)
            (GoURL.Host p) (GoURL.Path p) (GoURL.RawPath p)
            (GoURL.OmitHost p) (GoURL.ForceQuery p) q (GoURL.Fragment p)
            (GoURL.RawFragment p)).
Proof.
  intros Hparse Hstar Hu Hu' Hq Hq' Hctl. unfold GoURL.Parse in *.
  assert (Contains (u +:+ "?" +:+ q) "#" = false) as Hno.
  { unfold Contains. rewrite Index_absent; [reflexivity|].
    rewrite all_app, (Contains_absent "#" u Hu'). cbn [andb].
    change ("?" +:+ q) with (String "?" q). cbn [all].
    now rewrite (Contains_absent "#" q Hq'). }
  rewrite (Cut_absent "#" _ Hno). rewrite (Cut_absent "#" u Hu') in Hparse.
  cbn [isEmpty] in *.
  destruct (GoURL.parse u) as [p0|] eqn:Hp; [|discriminate Hparse].
  cbn [mbind option_bind] in Hparse. inversion Hparse; subst p0.
  now rewrite (parse_query u q p Hp Hstar Hu Hq Hctl).
Qed.

(** The accessors on a URL with a query: [HasQueryParams] sees the
    query, and the domain, the path and the https test are those of
    the text before the question mark. *)
Theorem accessors_with_query (u q : string) :
  GoURL.isSome (GoURL.Parse u) = true →
  (u =? "*")%string = false →
  Contains u "?" = false → Contains u "#" = false →
  isEmpty q = false →
  Contains q "#" = false → GoURL.stringContainsCTLByte q = false →
  HasQueryParams (u +:+ "?" +:+ q) = true
  ∧ HasQueryParams u = false
  ∧ ExtractDomain (u +:+ "?" +:+ q) = ExtractDomain u
  ∧ GetPathFromURL (u +:+ "?" +:+ q) = GetPathFromURL u
  ∧ IsHTTPS (u +:+ "?" +:+ q) = IsHTTPS u.
Proof.
  intros Hparse Hstar Hu Hu' Hq Hq' Hctl.
  destruct (GoURL.Parse u) as [p|] eqn:Hp; [|discriminate Hparse].
  pose proof (Parse_query u q p Hp Hstar Hu Hu' Hq Hq' Hctl) as Hpq.
  assert (Hnoq : GoURL.RawQuery p = "").
  { unfold GoURL.Parse in Hp. rewrite (Cut_absent "#" u Hu') in Hp.
    cbn [isEmpty] in Hp.
    destruct (GoURL.parse u) as [p0|] eqn:Hp0; [|discriminate Hp].
    cbn [mbind option_bind] in Hp. inversion Hp; subst p0.
    destruct (parse_force u p Hp0 Hstar Hu)
      as (? & ? & ? & ? & ? & ? & ? & -> & _). reflexivity. }
  unfold HasQueryParams, ExtractDomain, GetPathFromURL, IsHTTPS.
  rewrite Hpq, Hp. cbn [GoURL.RawQuery GoURL.Host GoURL.Path GoURL.Scheme].
  rewrite Hq, Hnoq. repeat split.
Qed.

Lemma accessors_with_query_witness :
  HasQueryParams "https://example.com/search?q=rocq" = true
  ∧ HasQueryParams "https://example.com/search" = false
  ∧ ExtractDomain "https://example.com/search?q=rocq"
    = ExtractDomain "https://example.com/search"
  ∧ GetPathFromURL "https://example.com/search?q=rocq"
    = GetPathFromURL "https://example.com/search"
  ∧ IsHTTPS "https://example.com/search?q=rocq"
    = IsHTTPS "https://example.com/search".
Proof.
  apply (accessors_with_query "https://example.com/search" "q=rocq");
    vm_compute; reflexivity.
Defined.

End BareQuery.

(** *** The links a page yields *)

Section Links.
Import models utils services.

Variable ToLower : string → string.
Variable cfg : config.Config.

Local Abbreviation valid :=
  (fun u => IsValidURL ToLower u (config.BaseURL cfg)).
Local Abbreviation keep := (keepLink ToLower cfg).

(** [seenLinks] holds the normal forms of [validLinks]. *)
Local Abbreviation tracked st :=
  (∀ x, readBool st.2 x = true ↔ x ∈ NormalizeURL <$> st.1).

Lemma keepLink_step (st : list string * gmap string bool) (link : string) :
  tracked st →
  NoDup (NormalizeURL <$> st.1) →
  tracked (keep st link)
  ∧ NoDup (NormalizeURL <$> (keep st link).1)
  ∧ ((keep st link).1 = st.1
     ∨ ((keep st link).1 = st.1 ++ [link] ∧ valid link = true))
  ∧ (valid link = true →
     readBool (keep st link).2 (NormalizeURL link) = true
     ∨ readBool (keep st link).2 link = true).
Proof.
  destruct st as [vl seen]. intros Htr Hnd. unfold keepLink. simpl in *.
  destruct (IsValidURL ToLower link (config.BaseURL cfg)) eqn:Hvalid; simpl;
    [|repeat split; auto; try apply Htr; discriminate].
  destruct (readBool seen link) eqn:Hraw; simpl;
    [repeat split; auto; apply Htr|].
  destruct (readBool seen (NormalizeURL link)) eqn:Hnorm; simpl;
    [repeat split; auto; apply Htr|].
  split; [|split; [|split]].
  - intros x. unfold readBool. rewrite lookup_insert, fmap_app, elem_of_app.
    simpl. rewrite list_elem_of_singleton.
    destruct (decide (NormalizeURL link = x)) as [->|Hne]; simpl.
    + split; auto.
    + rewrite <- Htr. unfold readBool. split; [auto|].
      intros [H | H]; [exact H | congruence].
  - rewrite fmap_app. apply NoDup_app. split; [exact Hnd|]. split.
    + intros x Hx Hx'. simpl in Hx'. apply list_elem_of_singleton in Hx'.
      subst x. apply Htr in Hx. congruence.
    + apply NoDup_singleton.
  - right. now split.
  - intros _. left. unfold readBool. now rewrite lookup_insert_eq.
Qed.

Lemma keepLink_grows (st : list string * gmap string bool) (link x : string) :
  readBool st.2 x = true → readBool (keep st link).2 x = true.
Proof.
  destruct st as [vl seen]. unfold keepLink. simpl.
  destruct (_ && _); [|auto]. destruct (negb _); [|auto]. simpl.
  unfold readBool. rewrite lookup_insert. destruct (decide _); auto.
Qed.

Lemma fold_keepLink (links : list string) :
  ∀ st : list string * gmap string bool,
    tracked st →
    NoDup (NormalizeURL <$> st.1) →
    let st' := fold_left keep links st in
    tracked st'
    ∧ NoDup (NormalizeURL <$> st'.1)
    ∧ (∃ added, st'.1 = st.1 ++ added
                ∧ added `sublist_of` links
                ∧ ∀ l, l ∈ added → valid l = true)
    ∧ (∀ x, readBool st.2 x = true → readBool st'.2 x = true)
    ∧ (∀ l, l ∈ links → valid l = true →
         readBool st'.2 (NormalizeURL l) = true ∨ readBool st'.2 l = true).
Proof.
  induction links as [|link links IH]; intros st Htr Hnd; simpl.
  - split; [exact Htr|]. split; [exact Hnd|]. split.
    + exists []. rewrite app_nil_r. split; [reflexivity|].
      split; [constructor|]. intros l Hl. now apply elem_of_nil in Hl.
    + split; [auto|]. intros l Hl. now apply elem_of_nil in Hl.
  - destruct (keepLink_step st link Htr Hnd) as (Htr1 & Hnd1 & Hadd1 & Hcov1).
    destruct (IH (keep st link) Htr1 Hnd1)
      as (Htr' & Hnd' & (added & Heq & Hsub & Hval) & Hmono & Hcov).
    split; [exact Htr'|]. split; [exact Hnd'|]. split; [|split].
    + destruct Hadd1 as [Hsame | [Hmore Hvalid]].
      * exists added. rewrite Heq, Hsame. split; [reflexivity|].
        split; [now apply sublist_cons | exact Hval].
      * exists (link :: added). rewrite Heq, Hmore, <- app_assoc.
        split; [reflexivity|]. split; [now apply sublist_skip|].
        intros l Hl. apply elem_of_cons in Hl as [-> | Hl]; auto.
    + intros x Hx. apply Hmono. now apply keepLink_grows.
    + intros l Hl Hvalid. apply elem_of_cons in Hl as [-> | Hl]; [|auto].
      destruct (Hcov1 Hvalid) as [H | H]; [left | right]; now apply Hmono.
Qed.

(** The links [ExtractLinks] returns are links of the page, in the
    order of the page; each is valid for the base URL; no two have the
    same normal form; and each valid link of the page has its normal
    form, or its own string, among the normal forms of the links
    returned. *)
Theorem validLinks_distinct (links : list string) :
  let out := validLinks ToLower cfg links in
  out `sublist_of` links
  ∧ (∀ l, l ∈ out → valid l = true)
  ∧ NoDup (NormalizeURL <$> out)
  ∧ (∀ l, l ∈ links → valid l = true →
       NormalizeURL l ∈ NormalizeURL <$> out ∨ l ∈ NormalizeURL <$> out).
Proof.
  unfold validLinks.
  destruct (fold_keepLink links ([], ∅))
    as (Htr & Hnd & (added & Heq & Hsub & Hval) & _ & Hcov).
  { intros x. simpl. unfold readBool. rewrite lookup_empty. simpl.
    split; [discriminate|]. intros H. now apply elem_of_nil in H. }
  { constructor. }
  cbv zeta in *. simpl in Heq. rewrite Heq.
  split; [exact Hsub|]. split; [exact Hval|].
  rewrite <- Heq. split; [exact Hnd|].
  intros l Hl Hvalid. destruct (Hcov l Hl Hvalid) as [H | H];
    [left | right]; now apply Htr.
Qed.

End Links.

(** *** The parallel loop cannot block *)

Section Progress.
Import models utils services safety.

Context {Browser : Type}.
Variable ToLower : string → string.
Variable CaptureScreenshot : Browser → string → ScreenshotResult * Browser.
Variable ExtractLinks : Browser → string → option (list string) * Browser.
Variable cfg : config.Config.

Local Abbreviation step :=
  (parStep ToLower CaptureScreenshot ExtractLinks cfg).
Local Abbreviation work :=
  (workerStep ToLower CaptureScreenshot ExtractLinks cfg).

Lemma some_task (f : Task → bool) (ts : list Task) :
  (0 < length (List.filter f ts))%nat →
  ∃ i t, ts !! i = Some t ∧ f t = true.
Proof.
  induction ts as [|t ts IH]; simpl; [lia|].
  destruct (f t) eqn:Hf.
  - intros _. now exists 0%nat, t.
  - intros H. destruct (IH H) as (i & t' & Hi & Ht'). now exists (S i), t'.
Qed.

Lemma some_unfinished (ts : list Task) :
  forallb isFinished ts = false →
  ∃ i t, ts !! i = Some t ∧ isFinished t = false.
Proof.
  induction ts as [|t ts IH]; simpl; [discriminate|].
  destruct (isFinished t) eqn:Hf; simpl.
  - intros H. destruct (IH H) as (i & t' & Hi & Ht'). now exists (S i), t'.
  - intros _. now exists 0%nat, t.
Qed.

(** The dispatching loop can always make its next round. *)
Lemma dispatcher_enabled (p : @Par Browser) :
  dispatcher p = Dispatching →
  ∃ p', dispatcherStep ToLower cfg p = Some p'.
Proof.
  intros Hd. unfold dispatcherStep. rewrite Hd.
  destruct (GetNextURL (psession p)) as [[[url depth] hasNext] cs].
  destruct (negb hasNext); [eauto|].
  destruct (_ >? _)%Z; [eauto|].
  destruct (_ || _); [eauto|].
  destruct (ShouldSkipURL _ _ _); eauto.
Qed.

(** A task that holds the semaphore can move, unless it is sending to
    a full channel. *)
Lemma holder_enabled (p : @Par Browser) i t :
  tasks p !! i = Some t →
  holdsSlot t = true →
  (length (resultsChan p) < resultsChanCap)%nat →
  ∃ p', work i p = Some p'.
Proof.
  intros Hi Hhold Hchan. unfold workerStep. rewrite Hi. simpl.
  unfold holdsSlot in Hhold.
  destruct (pc t) as [| |result|result|[|link links]|];
    try discriminate Hhold.
  - destruct (CaptureScreenshot (pbrowser p) (pageURL t)). eauto.
  - apply Nat.ltb_lt in Hchan. rewrite Hchan. eauto.
  - destruct (Success result && _); [|eauto].
    destruct (ExtractLinks (pbrowser p) (pageURL t)) as [[links|] b]; eauto.
  - eauto.
  - eauto.
Qed.

(** With at least one worker configured the parallel loop cannot
    block: in every state in which [runParallelCrawl] has not returned,
    the dispatching loop, a worker or the collecting goroutine can make
    its next step. *)
Theorem parallel_never_stuck (p : @Par Browser) :
  (1 ≤ config.ParallelWorkers cfg)%Z →
  dispatcher p ≠ Returned →
  ∃ who p', step who p = Some p'.
Proof.
  intros Hworkers Hrun.
  destruct (dispatcher p) eqn:Hd; [| |congruence].
  { destruct (dispatcher_enabled p Hd) as [p' Hp'].
    now exists TheDispatcher, p'. }
  destruct (forallb isFinished (tasks p)) eqn:Hall.
  { exists TheDispatcher. simpl. unfold dispatcherStep. rewrite Hd, Hall. eauto. }
  destruct (resultsChan p) as [|r chan] eqn:Hchan.
  2: { exists Collector. simpl. unfold collectorStep. rewrite Hchan. eauto. }
  assert (Hroom : (length (resultsChan p) < resultsChanCap)%nat)
    by (rewrite Hchan; unfold resultsChanCap; simpl; lia).
  destruct (some_unfinished (tasks p) Hall) as (i & t & Hi & Ht).
  destruct (holdsSlot t) eqn:Hhold.
  { destruct (holder_enabled p i t Hi Hhold Hroom) as [p' Hp'].
    now exists (Worker i), p'. }
  destruct (Z.ltb_spec (slotsHeld (tasks p)) (config.ParallelWorkers cfg))
    as [Hfree | Hfull].
  - exists (Worker i). simpl. unfold workerStep. rewrite Hi. simpl.
    unfold holdsSlot, isFinished in *.
    destruct (pc t); try discriminate.
    apply Z.ltb_lt in Hfree. rewrite Hfree. eauto.
  - destruct (some_task holdsSlot (tasks p)) as (j & t' & Hj & Ht').
    { unfold slotsHeld in Hfull. lia. }
    destruct (holder_enabled p j t' Hj Ht' Hroom) as [p' Hp'].
    now exists (Worker j), p'.
Qed.

End Progress.

Lemma parallel_never_stuck_witness :
  ∃ who p',
    services.parStep examples.lower examples.siteCapture examples.siteLinks
      examples.cfg who examples.parStart = Some p'.
Proof.
  apply (parallel_never_stuck examples.lower examples.siteCapture
           examples.siteLinks examples.cfg examples.parStart).
  - vm_compute. discriminate.
  - vm_compute. discriminate.
Defined.

(** *** A site crawled before *)

Section Rerun.
Import models utils services safety.

Context {Browser : Type}.
Variable ToLower : string → string.
Variable CaptureScreenshot : Browser → string → ScreenshotResult * Browser.
Variable ExtractLinks : Browser → string → option (list string) * Browser.
Variable cfg : config.Config.

Local Abbreviation seqIter :=
  (sequentialIteration ToLower CaptureScreenshot ExtractLinks cfg).
Local Abbreviation seqRun :=
  (runSequentialCrawl ToLower CaptureScreenshot ExtractLinks cfg).
Local Abbreviation step :=
  (parStep ToLower CaptureScreenshot ExtractLinks cfg).
Local Abbreviation run :=
  (parRun ToLower CaptureScreenshot ExtractLinks cfg).

(** Every queued URL is existing under its normal form. *)
Local Abbreviation stale cs :=
  (∀ u, u ∈ urlQueue cs → IsExisting cs (NormalizeURL u) = true).

Lemma sequential_stale (k : nat) : ∀ a : App,
  length (urlQueue (session a)) = k →
  stale (session a) →
  ∃ a', seqRun (S k) a = (a', true)
        ∧ captures a' = captures a
        ∧ results (session a') = results (session a)
        ∧ urlQueue (session a') = [].
Proof.
  induction k as [|k IH]; intros a Hlen Hstale.
  - exists a. apply nil_length_inv in Hlen. simpl.
    unfold sequentialIteration.
    pose proof (GetNextURL_spec (session a)) as Hnext. rewrite Hlen in Hnext.
    rewrite Hnext. auto.
  - destruct (urlQueue (session a)) as [|url rest] eqn:Hqueue;
      [discriminate Hlen|].
    assert (Hstep : ∃ a1, seqIter a = Some a1
                          ∧ captures a1 = captures a
                          ∧ results (session a1) = results (session a)
                          ∧ urlQueue (session a1) = rest
                          ∧ existingURLs (session a1)
                            = existingURLs (session a)).
    { unfold sequentialIteration.
      pose proof (GetNextURL_spec (session a)) as Hnext.
      rewrite Hqueue in Hnext.
      destruct Hnext as (cs & -> & Hq & _ & Hex & _ & Hr). cbv beta iota.
      cbn [negb].
      assert (IsExisting cs (NormalizeURL url) = true) as Hold.
      { unfold IsExisting. rewrite Hex. apply Hstale. apply list_elem_of_here. }
      destruct (_ >? _)%Z; [eexists; split; [reflexivity|]; simpl; auto|].
      destruct (IsVisited cs (NormalizeURL url));
        [eexists; split; [reflexivity|]; simpl; auto|].
      rewrite Hold. eexists; split; [reflexivity|]; simpl; auto. }
    destruct Hstep as (a1 & Hstep & Hc & Hr & Hq & Hex).
    destruct (IH a1) as (a' & Hrun & Hc' & Hr' & Hq').
    + rewrite Hq. simpl in Hlen. lia.
    + intros u Hu. unfold IsExisting. rewrite Hex. apply Hstale.
      rewrite Hq in Hu. now apply list_elem_of_further.
    + exists a'. change (seqRun (S (S k)) a) with
        (match seqIter a with
         | Some a1 => seqRun (S k) a1
         | None => (a, true)
         end).
      rewrite Hstep. split; [exact Hrun|]. split; [congruence|].
      split; [congruence | exact Hq'].
Qed.

Lemma parallel_stale cs (schedule : list Actor) : ∀ p p' : @Par Browser,
  run schedule p = Some p' →
  tasks p = [] ∧ pcaptures p = [] ∧ resultsChan p = []
  ∧ existingURLs (psession p) = existingURLs cs
  ∧ (∀ u, u ∈ urlQueue (psession p) → IsExisting cs (NormalizeURL u) = true) →
  tasks p' = [] ∧ pcaptures p' = [].
Proof.
  induction schedule as [|who schedule IH]; intros p p' Hrun Hinv; simpl in Hrun.
  { inversion Hrun; subst. tauto. }
  destruct (step who p) as [q|] eqn:Hstep; [|discriminate Hrun].
  simpl in Hrun. apply (IH q p' Hrun). clear IH Hrun.
  destruct Hinv as (Ht & Hc & Hch & Hex & Hq).
  destruct who; simpl in Hstep.
  - unfold dispatcherStep in Hstep. destruct (dispatcher p).
    + pose proof (GetNextURL_spec (psession p)) as Hnext.
      destruct (urlQueue (psession p)) as [|url rest] eqn:Hqueue.
      { rewrite Hnext in Hstep; simpl in Hstep. inversion Hstep; subst q.
        simpl. repeat split; auto. now rewrite Hqueue. }
      destruct Hnext as (cs1 & Hnext & Hq1 & _ & Hex1 & _).
      rewrite Hnext in Hstep; simpl in Hstep.
      assert (IsExisting cs1 (NormalizeURL url) = true) as Hold.
      { unfold IsExisting. rewrite Hex1, Hex. apply Hq, list_elem_of_here. }
      assert (Hrest : ∀ u, u ∈ urlQueue cs1 →
                           IsExisting cs (NormalizeURL u) = true).
      { intros u Hu. apply Hq. rewrite Hq1 in Hu.
        now apply list_elem_of_further. }
      destruct (_ >? _)%Z.
      { inversion Hstep; subst q. simpl. repeat split; auto; congruence. }
      rewrite Hold, orb_true_r in Hstep.
      inversion Hstep; subst q. simpl. repeat split; auto; congruence.
    + destruct (forallb isFinished (tasks p)); [|discriminate Hstep].
      inversion Hstep; subst q. simpl. repeat split; auto.
    + discriminate Hstep.
  - unfold workerStep in Hstep. rewrite Ht in Hstep. discriminate Hstep.
  - unfold collectorStep in Hstep. rewrite Hch in Hstep. discriminate Hstep.
Qed.

(** When the root was captured by an earlier run (the base URL is
    existing, as the string it is or under its normal form) and
    nothing else is queued, [CrawlWebsite] captures nothing: the
    sequential loop leaves with no capture call made and the results
    as they were, and the parallel loop launches no task.  New pages
    of such a site are found through discovery only. *)
Theorem root_captured_before (cs : CrawlSession) (b : Browser) :
  IsExisting cs (config.BaseURL cfg) = true
  ∨ IsExisting cs (NormalizeURL (config.BaseURL cfg)) = true →
  urlQueue cs = [] →
  (∃ fuel a',
     seqRun fuel (mkApp (seedSession cfg cs) b []) = (a', true)
     ∧ captures a' = []
     ∧ GetResults (session a') = GetResults cs)
  ∧ (∀ schedule p,
       run schedule (parStart (seedSession cfg cs) b) = Some p →
       tasks p = [] ∧ pcaptures p = []).
Proof.
  intros Hroot Hempty.
  assert (Hstale : stale (seedSession cfg cs)
                   ∧ existingURLs (seedSession cfg cs) = existingURLs cs
                   ∧ results (seedSession cfg cs) = results cs).
  { unfold seedSession. rewrite AddURL_results.
    split; [|split; [apply AddURL_existing | reflexivity]].
    intros u. unfold IsExisting. rewrite AddURL_existing.
    destruct (AddURL_queue cs (config.BaseURL cfg) 0)
      as [-> | (-> & _ & Hraw)]; rewrite Hempty.
    - intros Hu. now apply elem_of_nil in Hu.
    - simpl. intros Hu. apply list_elem_of_singleton in Hu. subst u.
      destruct Hroot as [Hroot | Hroot]; [congruence | exact Hroot]. }
  destruct Hstale as (Hstale & Hex & Hres). split.
  - destruct (sequential_stale (length (urlQueue (seedSession cfg cs)))
                (mkApp (seedSession cfg cs) b []) eq_refl Hstale)
      as (a' & Hrun & Hc & Hr & _).
    exists (S (length (urlQueue (seedSession cfg cs)))), a'.
    split; [exact Hrun|]. split; [exact Hc|].
    unfold GetResults. simpl in Hr. congruence.
  - intros schedule p Hrun.
    apply (parallel_stale (seedSession cfg cs) schedule _ p Hrun).
    simpl. repeat split; auto.
Qed.

End Rerun.

Lemma root_captured_before_witness :
  ∃ fuel a',
    services.runSequentialCrawl examples.lower examples.siteCapture
      examples.siteLinks examples.cfg fuel
      (services.mkApp
         (services.seedSession examples.cfg
            (models.MarkExisting
               (models.NewCrawlSession "https://example.com" 0)
               "https://example.com"))
         tt [])
    = (a', true)
    ∧ services.captures a' = []
    ∧ models.GetResults (services.session a') = [].
Proof.
  apply (root_captured_before examples.lower examples.siteCapture
           examples.siteLinks examples.cfg
           (models.MarkExisting
              (models.NewCrawlSession "https://example.com" 0)
              "https://example.com") tt).
  - left. vm_compute. reflexivity.
  - reflexivity.
Defined.

(** *** The configuration read from the prompts *)

Section Prompts.
Import GoBytes GoStrings utils main.

Local Arguments String.append !_ _ / : simpl nomatch.


(** The matcher of [DOMAIN_REGEX] against the reading of the
    expression: a non-empty run of class bytes, a dot, and two or more
    letters up to the end. *)
Lemma matchDomainFrom_spec (s : string) : ∀ seen : nat,
  matchDomainFrom seen s = true ↔
  ∃ pre tld, s = pre +:+ "." +:+ tld
             ∧ (0 < seen + len pre)%nat
             ∧ all domainByte pre = true
             ∧ (2 ≤ len tld)%nat
             ∧ all isAlpha tld = true.
Proof.
  induction s as [|c s IH]; intros seen; cbn [matchDomainFrom].
  { split; [discriminate|]. intros (pre & tld & H & _).
    destruct pre; discriminate H. }
  rewrite orb_true_iff, !andb_true_iff, IH. split.
  - intros [(((Hc & Hseen) & Hlen) & Htld) | (Hc & pre & tld & -> & H)].
    + apply Ascii.eqb_eq in Hc. subst c. exists "", s.
      apply Nat.ltb_lt in Hseen. apply Nat.leb_le in Hlen.
      simpl. repeat split; auto; lia.
    + exists (String c pre), tld. destruct H as (Hn & Hpre & Htld).
      simpl. rewrite Hc, Hpre. simpl in Hn. repeat split; try tauto; lia.
  - intros (pre & tld & Heq & Hn & Hpre & Hlen & Htld).
    destruct pre as [|d pre]; simpl in Heq; inversion Heq; subst.
    + left. simpl in Hn. repeat split; auto.
      * now apply Nat.ltb_lt; lia.
      * now apply Nat.leb_le.
    + right. simpl in Hpre. apply andb_true_iff in Hpre as [Hd Hpre].
      split; [exact Hd|]. exists pre, tld. simpl in Hn.
      repeat split; auto; lia.
Qed.

(** Whatever [parse] returns for a text that starts with [http:] has
    the scheme [http]. *)
Lemma parse_http (r : string) (u : GoURL.URL) :
  GoURL.parse ("http:" +:+ r) = Some u → GoURL.Scheme u = "http".
Proof.
  unfold GoURL.parse.
  destruct (GoURL.stringContainsCTLByte _); [discriminate|].
  change (("http:" +:+ r =? "*")%string) with false. cbv iota.
  change (GoURL.getScheme ("http:" +:+ r)) with (Some ("http", r)).
  cbn [mbind option_bind].
  change (ToLowerASCII "http") with "http".
  match goal with
  | |- context [match ?t with (_, _) => _ end] =>
      match t with
      | (if _ then _ else _) => destruct t as [[rest fq] rq]
      end
  end.
  change (isEmpty "http") with false. cbn [negb andb orb].
  rewrite andb_true_r.
  destruct (negb (HasPrefix rest "/")).
  { intros H. now inversion H. }
  cbn [andb]. destruct (HasPrefix rest "//").
  - destruct (Index (drop 2 rest) "/") as [i|];
      (destruct (GoURL.parseAuthority _) as [[user host]|]; [|discriminate]);
      cbn [mbind option_bind];
      (destruct (GoURL.setPath _) as [[path raw]|]; [|discriminate]);
      cbn [mbind option_bind]; intros H; now inversion H.
  - destruct (GoURL.setPath rest) as [[path raw]|]; [|discriminate].
    cbn [mbind option_bind]. intros H. now inversion H.
Qed.

Lemma Parse_http (r : string) (u : GoURL.URL) :
  GoURL.Parse ("http:" +:+ r) = Some u → GoURL.Scheme u = "http".
Proof.
  unfold GoURL.Parse.
  change ("http:" +:+ r) with (String "h" (String "t" (String "t"
            (String "p" (String ":" r))))).
  rewrite !Cut_cons by reflexivity.
  destruct (Cut r "#") as [[a frag] found].
  change (String "h" (String "t" (String "t" (String "p"
            (String ":" a))))) with ("http:" +:+ a).
  destruct (GoURL.parse ("http:" +:+ a)) as [url|] eqn:Hparse; [|discriminate].
  apply parse_http in Hparse. cbn [mbind option_bind].
  destruct (isEmpty frag).
  - intros H. inversion H; now subst u.
  - destruct (GoURL.setFragment frag) as [[f rawf]|]; [|discriminate].
    cbn [mbind option_bind]. intros H. inversion H; subst u. exact Hparse.
Qed.


Lemma all_not_contains (P : ascii → bool) (d : ascii) (s : string) :
  P d = false → all P s = true → Contains s (String d "") = false.
Proof.
  intros Hd Hs. unfold Contains. rewrite Index_absent; [reflexivity|].
  apply (all_impl P); [|exact Hs].
  intros c Hc. apply negb_true_iff, Ascii.eqb_neq. intros ->. congruence.
Qed.

Lemma AddHTTPSIfMissing_scheme (s : string) (u : GoURL.URL) :
  GoURL.Parse (AddHTTPSIfMissing s) = Some u →
  GoURL.Scheme u = "http" ∨ GoURL.Scheme u = "https".
Proof.
  unfold AddHTTPSIfMissing.
  destruct (HasPrefix s "http://") eqn:Hhttp; cbn [negb andb].
  { apply HasPrefix_split in Hhttp. rewrite Hhttp.
    intros H. left. exact (Parse_http _ u H). }
  destruct (HasPrefix s "https://") eqn:Hhttps; cbn [negb].
  { apply HasPrefix_split in Hhttps. rewrite Hhttps.
    intros H. right. exact (Parse_https _ u H). }
  intros H. right. exact (Parse_https _ u H).
Qed.

Variable TrimSpace : string → string.
Variable ToLower : string → string.

(** [getTargetURL] accepts a line only if, trimmed and given the
    [https://] prefix where it has none, it parses as an http or https
    URL whose host is a non-empty run of letters, digits, dots and
    hyphens, a dot, and two or more letters; so a host with a port, an
    address in digits and a name without a dot are refused.  It
    consumes that one line and returns the text with the prefix. *)
Theorem getTargetURL_accepts (reader rest : Reader) (url : string) :
  getTargetURL TrimSpace reader = (Ok url, rest) →
  ∃ line u pre tld,
    reader = line :: rest
    ∧ url = AddHTTPSIfMissing (TrimSpace (TrimSpace line))
    ∧ HasPrefix url "http://" || HasPrefix url "https://" = true
    ∧ GoURL.Parse url = Some u
    ∧ (GoURL.Scheme u = "http" ∨ GoURL.Scheme u = "https")
    ∧ GoURL.Host u = pre +:+ "." +:+ tld
    ∧ isEmpty pre = false
    ∧ all domainByte pre = true
    ∧ (2 ≤ len tld)%nat
    ∧ all isAlpha tld = true
    ∧ Contains (GoURL.Host u) ":" = false.
Proof.
  unfold getTargetURL, readInput.
  destruct reader as [|line more]; [discriminate|].
  destruct (isEmpty (TrimSpace (TrimSpace line))); [discriminate|].
  destruct (GoURL.Parse _) as [u|] eqn:Hparse; [|discriminate].
  destruct (isEmpty (GoURL.Host u)); [discriminate|].
  destruct (matchDomain (GoURL.Host u)) eqn:Hmatch; [|discriminate].
  cbn [negb]. intros H. inversion H; subst url rest. clear H.
  apply matchDomainFrom_spec in Hmatch
    as (pre & tld & Hhost & Hpre & Hclass & Hlen & Htld).
  exists line, u, pre, tld. split; [reflexivity|]. split; [reflexivity|].
  split.
  { unfold AddHTTPSIfMissing. generalize (TrimSpace (TrimSpace line)).
    intros t.
    destruct (HasPrefix t "http://") eqn:H1; cbn [negb andb];
      [now rewrite H1|].
    destruct (HasPrefix t "https://") eqn:H2; cbn [negb];
      [now rewrite H1, H2 | reflexivity]. }
  split; [exact Hparse|].
  split; [exact (AddHTTPSIfMissing_scheme _ u Hparse)|].
  split; [exact Hhost|].
  split; [destruct pre; [simpl in Hpre; lia | reflexivity]|].
  split; [exact Hclass|]. split; [exact Hlen|]. split; [exact Htld|].
  apply (all_not_contains domainByte); [reflexivity|].
  rewrite Hhost, !all_app, Hclass. cbn [andb].
  change (all domainByte ".") with true. cbn [andb].
  apply (all_impl isAlpha); [|exact Htld].
  intros c Hc. unfold domainByte, isAlnum. now rewrite Hc.
Qed.


(** The loop of [configureSkipPatterns] appends the trimmed pieces
    that are not empty. *)
Lemma fold_addPattern (pieces : list string) : ∀ patterns : list string,
  fold_left (addPattern TrimSpace) pieces patterns
  = patterns ++ filter (λ p, isEmpty p = false) (TrimSpace <$> pieces).
Proof.
  induction pieces as [|piece pieces IH]; intros patterns; simpl.
  { now rewrite app_nil_r. }
  rewrite IH. unfold addPattern. rewrite filter_cons.
  destruct (isEmpty (TrimSpace piece)) eqn:Hpiece; cbn [negb].
  - rewrite decide_False by congruence. reflexivity.
  - rewrite decide_True by reflexivity. now rewrite <- app_assoc.
Qed.

Lemma withSkipPatterns_same (cfg : config.Config) :
  withSkipPatterns cfg (config.SkipPatterns cfg ++ []) = cfg.
Proof. destruct cfg. unfold withSkipPatterns. simpl. now rewrite app_nil_r. Qed.

Lemma configureSkipPatterns_ok (reader rest : Reader)
  (cfg cfg' : config.Config) :
  configureSkipPatterns TrimSpace reader cfg = (Ok cfg', rest) →
  ∃ line, reader = line :: rest
    ∧ cfg' = withSkipPatterns cfg
               (config.SkipPatterns cfg
                ++ filter (λ p, isEmpty p = false)
                     (TrimSpace <$> (if isEmpty (TrimSpace line) then []
                                     else Split (TrimSpace line) ","%char))).
Proof.
  unfold configureSkipPatterns, readInput.
  destruct reader as [|line more]; [discriminate|].
  destruct (isEmpty (TrimSpace line)) eqn:Hempty; cbn [negb]; intros H;
    inversion H; subst; exists line; (split; [reflexivity|]);
    rewrite Hempty.
  - symmetry. apply withSkipPatterns_same.
  - now rewrite fold_addPattern.
Qed.

(** [configureSkipPatterns] only adds patterns, after the ones
    configured: the pieces of the line between commas, trimmed, without
    the empty ones.  It never adds the empty pattern, which would skip
    every URL; a URL is skipped afterwards exactly when it was skipped
    before or one of the added patterns skips it. *)
Theorem configureSkipPatterns_adds (reader rest : Reader)
  (cfg cfg' : config.Config) :
  configureSkipPatterns TrimSpace reader cfg = (Ok cfg', rest) →
  ∃ line added,
    reader = line :: rest
    ∧ added = filter (λ p, isEmpty p = false)
                (TrimSpace <$> (if isEmpty (TrimSpace line) then []
                                else Split (TrimSpace line) ","%char))
    ∧ cfg' = withSkipPatterns cfg (config.SkipPatterns cfg ++ added)
    ∧ ("" ∉ added)
    ∧ ∀ urlStr,
        ShouldSkipURL ToLower urlStr (config.SkipPatterns cfg')
        = ShouldSkipURL ToLower urlStr (config.SkipPatterns cfg)
          || ShouldSkipURL ToLower urlStr added.
Proof.
  intros H. apply configureSkipPatterns_ok in H as (line & -> & ->).
  eexists line, _. split; [reflexivity|]. split; [reflexivity|].
  split; [reflexivity|]. split.
  - intros Hin. apply list_elem_of_filter in Hin as [Hin _]. discriminate Hin.
  - intros urlStr. unfold ShouldSkipURL, withSkipPatterns.
    cbn [config.SkipPatterns]. apply existsb_app.
Qed.

Lemma andThen_ok (r : Result config.Config * Reader)
  (step : Reader → config.Config → Result config.Config * Reader)
  (cfg' : config.Config) (rest : Reader) :
  andThen r step = (Ok cfg', rest) →
  ∃ cfg reader, r = (Ok cfg, reader) ∧ step reader cfg = (Ok cfg', rest).
Proof.
  destruct r as [[cfg|e] reader]; simpl; [eauto | discriminate].
Qed.

Lemma configureSitemap_ok (reader rest : Reader) (cfg cfg' : config.Config) :
  configureSitemap TrimSpace ToLower reader cfg = (Ok cfg', rest) →
  ∃ line b, reader = line :: rest ∧ cfg' = withCheckSitemap cfg b.
Proof.
  unfold configureSitemap, readInput.
  destruct reader as [|line more]; [discriminate|].
  intros H; inversion H; subst; eauto.
Qed.

Lemma configureRobots_ok (reader rest : Reader) (cfg cfg' : config.Config) :
  configureRobots TrimSpace ToLower reader cfg = (Ok cfg', rest) →
  ∃ line b, reader = line :: rest ∧ cfg' = withCheckRobots cfg b.
Proof.
  unfold configureRobots, readInput.
  destruct reader as [|line more]; [discriminate|].
  intros H; inversion H; subst; eauto.
Qed.

Lemma configureDepth_ok (reader rest : Reader) (cfg cfg' : config.Config) :
  configureDepth TrimSpace reader cfg = (Ok cfg', rest) →
  ∃ line, reader = line :: rest
    ∧ (cfg' = cfg
       ∨ ∃ depth, (1 ≤ depth ≤ 10)%Z ∧ cfg' = withMaxDepth cfg depth).
Proof.
  unfold configureDepth, readInput.
  destruct reader as [|line more]; [discriminate|].
  destruct (isEmpty (TrimSpace line)); cbn [negb].
  { intros H; inversion H; subst; eauto. }
  destruct (Atoi (TrimSpace line)) as [depth|]; [|discriminate].
  destruct (Z.ltb_spec depth 1) as [|Hmin]; [discriminate|].
  destruct (depth >? 10)%Z eqn:Hmax; [discriminate|].
  intros H; inversion H; subst. exists line. split; [reflexivity|].
  right. exists depth. split; [lia | reflexivity].
Qed.

Lemma configureWorkerCount_ok (reader rest : Reader)
  (cfg cfg' : config.Config) :
  configureWorkerCount TrimSpace reader cfg = (Ok cfg', rest) →
  ∃ line, reader = line :: rest
    ∧ (cfg' = cfg
       ∨ ∃ workers, (1 ≤ workers ≤ 10)%Z
                    ∧ cfg' = withParallelWorkers cfg workers).
Proof.
  unfold configureWorkerCount, readInput.
  destruct reader as [|line more]; [discriminate|].
  destruct (isEmpty (TrimSpace line)); cbn [negb].
  { intros H; inversion H; subst; eauto. }
  destruct (Atoi (TrimSpace line)) as [workers|]; [|discriminate].
  destruct (Z.ltb_spec workers 1) as [|Hmin]; [discriminate|].
  destruct (workers >? 10)%Z eqn:Hmax; [discriminate|].
  intros H; inversion H; subst. exists line. split; [reflexivity|].
  right. exists workers. split; [lia | reflexivity].
Qed.

Lemma configureParallel_ok (reader rest : Reader) (cfg cfg' : config.Config) :
  configureParallel TrimSpace ToLower reader cfg = (Ok cfg', rest) →
  (∃ line, reader = line :: rest ∧ cfg' = withParallelWorkers cfg 1)
  ∨ (∃ line count, reader = line :: count :: rest
       ∧ (cfg' = cfg
          ∨ ∃ workers, (1 ≤ workers ≤ 10)%Z
                       ∧ cfg' = withParallelWorkers cfg workers)).
Proof.
  unfold configureParallel, readInput.
  destruct reader as [|line more]; [discriminate|].
  destruct (parseYesNo ToLower (TrimSpace line) false).
  - intros H. apply configureWorkerCount_ok in H as (count & -> & H).
    right. eauto.
  - intros H; inversion H; subst. left. eauto.
Qed.

(** A configuration that [collectUserInput] returns is within the
    limits: the depth and the number of workers lie between 1 and 10,
    the base URL is one [getTargetURL] accepted, the skip patterns
    start with the default ones, and the delays, the viewport, the
    quality, the user agent and the output directory are the defaults.
    Six lines were read, or seven when the number of workers was asked
    for. *)
Theorem collectUserInput_bounds (reader rest : Reader) (cfg : config.Config) :
  collectUserInput TrimSpace ToLower reader = (Ok cfg, rest) →
  (1 ≤ config.MaxDepth cfg ≤ 10)%Z
  ∧ (1 ≤ config.ParallelWorkers cfg ≤ 10)%Z
  ∧ (∃ more, getTargetURL TrimSpace reader = (Ok (config.BaseURL cfg), more))
  ∧ (∃ added, config.SkipPatterns cfg = config.DEFAULT_SKIP_PATTERNS ++ added
              ∧ ("" ∉ added))
  ∧ config.ScreenshotDelay cfg = config.DEFAULT_SCREENSHOT_DELAY
  ∧ config.RequestDelay cfg = config.DEFAULT_REQUEST_DELAY
  ∧ config.ViewportWidth cfg = config.DEFAULT_VIEWPORT_WIDTH
  ∧ config.ViewportHeight cfg = config.DEFAULT_VIEWPORT_HEIGHT
  ∧ config.Quality cfg = config.DEFAULT_SCREENSHOT_QUALITY
  ∧ config.UserAgent cfg = config.DEFAULT_USER_AGENT
  ∧ config.OutputDir cfg = config.SCREENSHOTS_DIR
  ∧ (length reader = length rest + 6 ∨ length reader = length rest + 7)%nat.
Proof.
  unfold collectUserInput.
  destruct (getTargetURL TrimSpace reader) as [[baseURL|e] r0] eqn:Hurl;
    [|discriminate].
  intros H.
  apply andThen_ok in H as (c4 & r4 & H & Hskip).
  apply andThen_ok in H as (c3 & r3 & H & Hpar).
  apply andThen_ok in H as (c2 & r2 & H & Hdepth).
  apply andThen_ok in H as (c1 & r1 & Hsite & Hrobots).
  assert (∃ line, reader = line :: r0) as [l0 ->].
  { unfold getTargetURL, readInput in Hurl.
    destruct reader as [|line more]; [discriminate|]. exists line.
    repeat match type of Hurl with
           | context [if ?b then _ else _] => destruct b
           | context [match ?o with Some _ => _ | None => _ end] => destruct o
           end; inversion Hurl; reflexivity. }
  apply configureSitemap_ok in Hsite as (l1 & b1 & -> & ->).
  apply configureRobots_ok in Hrobots as (l2 & b2 & -> & ->).
  apply configureDepth_ok in Hdepth as (l3 & -> & Hdepth).
  apply configureSkipPatterns_ok in Hskip as (l5 & -> & ->).
  apply configureParallel_ok in Hpar.
  assert (Hnone : "" ∉ filter (λ p, isEmpty p = false)
                    (TrimSpace <$> (if isEmpty (TrimSpace l5) then []
                                    else Split (TrimSpace l5) ","%char))).
  { intros Hin. apply list_elem_of_filter in Hin as [Hin _]. discriminate Hin. }
  destruct Hdepth as [-> | (depth & Hd & ->)];
    (destruct Hpar as [(l4 & -> & ->)
                      | (l4 & count & -> & [-> | (workers & Hw & ->)])]);
    cbn -[filter fmap Split];
    unfold config.DEFAULT_MAX_DEPTH, config.DEFAULT_PARALLEL_WORKERS;
    (repeat split; try lia; try reflexivity; eauto).
Qed.

End Prompts.

Lemma getTargetURL_accepts_witness :
  ∃ line u pre tld,
    [ " example.com/docs " +:+ inputs.nl ] = line :: []
    ∧ "https://example.com/docs"
      = utils.AddHTTPSIfMissing (inputs.TrimSpace (inputs.TrimSpace line))
    ∧ GoStrings.HasPrefix "https://example.com/docs" "http://"
      || GoStrings.HasPrefix "https://example.com/docs" "https://" = true
    ∧ GoURL.Parse "https://example.com/docs" = Some u
    ∧ (GoURL.Scheme u = "http" ∨ GoURL.Scheme u = "https")
    ∧ GoURL.Host u = pre +:+ "." +:+ tld
    ∧ GoStrings.isEmpty pre = false
    ∧ GoStrings.all main.domainByte pre = true
    ∧ (2 ≤ GoStrings.len tld)%nat
    ∧ GoStrings.all GoBytes.isAlpha tld = true
    ∧ GoStrings.Contains (GoURL.Host u) ":" = false.
Proof.
  apply (getTargetURL_accepts inputs.TrimSpace
           [ " example.com/docs " +:+ inputs.nl ] []
           "https://example.com/docs").
  vm_compute. reflexivity.
Defined.

Lemma configureSkipPatterns_adds_witness :
  ∃ line added,
    [ "/login, ,/logout," +:+ inputs.nl ] = line :: []
    ∧ added = filter (λ p, GoStrings.isEmpty p = false)
                (inputs.TrimSpace
                   <$> (if GoStrings.isEmpty (inputs.TrimSpace line) then []
                        else GoStrings.Split (inputs.TrimSpace line) ","%char))
    ∧ main.withSkipPatterns examples.cfg [ "/wp-admin"; "/login"; "/logout" ]
      = main.withSkipPatterns examples.cfg
          (config.SkipPatterns examples.cfg ++ added)
    ∧ ("" ∉ added)
    ∧ ∀ urlStr,
        utils.ShouldSkipURL GoStrings.ToLowerASCII urlStr
          (config.SkipPatterns
             (main.withSkipPatterns examples.cfg
                [ "/wp-admin"; "/login"; "/logout" ]))
        = utils.ShouldSkipURL GoStrings.ToLowerASCII urlStr
            (config.SkipPatterns examples.cfg)
          || utils.ShouldSkipURL GoStrings.ToLowerASCII urlStr added.
Proof.
  apply (configureSkipPatterns_adds inputs.TrimSpace GoStrings.ToLowerASCII
           [ "/login, ,/logout," +:+ inputs.nl ] [] examples.cfg
           (main.withSkipPatterns examples.cfg
              [ "/wp-admin"; "/login"; "/logout" ])).
  vm_compute. reflexivity.
Defined.

Lemma collectUserInput_bounds_witness :
  (1 ≤ config.MaxDepth inputs.configured ≤ 10)%Z
  ∧ (1 ≤ config.ParallelWorkers inputs.configured ≤ 10)%Z
  ∧ (∃ more, main.getTargetURL inputs.TrimSpace inputs.answers
             = (main.Ok (config.BaseURL inputs.configured), more))
  ∧ (∃ added, config.SkipPatterns inputs.configured
              = config.DEFAULT_SKIP_PATTERNS ++ added
              ∧ ("" ∉ added))
  ∧ config.ScreenshotDelay inputs.configured = config.DEFAULT_SCREENSHOT_DELAY
  ∧ config.RequestDelay inputs.configured = config.DEFAULT_REQUEST_DELAY
  ∧ config.ViewportWidth inputs.configured = config.DEFAULT_VIEWPORT_WIDTH
  ∧ config.ViewportHeight inputs.configured = config.DEFAULT_VIEWPORT_HEIGHT
  ∧ config.Quality inputs.configured = config.DEFAULT_SCREENSHOT_QUALITY
  ∧ config.UserAgent inputs.configured = config.DEFAULT_USER_AGENT
  ∧ config.OutputDir inputs.configured = config.SCREENSHOTS_DIR
  ∧ (length inputs.answers = length (@nil string) + 6
     ∨ length inputs.answers = length (@nil string) + 7)%nat.
Proof.
  apply (collectUserInput_bounds inputs.TrimSpace GoStrings.ToLowerASCII
           inputs.answers [] inputs.configured).
  vm_compute. reflexivity.
Defined.

(** *** Discovered URLs *)

Section Discovery.
Import models utils services.

(** The test a discovered URL has to pass to be queued: the one
    [DiscoverURLs] makes on the normal form and the one [AddURL] makes
    on the string itself. *)
Local Abbreviation fresh cs :=
  (fun u => negb (IsVisited cs (NormalizeURL u))
            && negb (IsExisting cs (NormalizeURL u))
            && negb (IsVisited cs u) && negb (IsExisting cs u)).

Lemma DiscoverURLs_fold (cs : CrawlSession) (urls : list string) :
  ∀ cs0 : CrawlSession,
    visitedURLs cs0 = visitedURLs cs →
    existingURLs cs0 = existingURLs cs →
    let cs' := DiscoverURLs cs0 urls in
    urlQueue cs' = urlQueue cs0 ++ List.filter (fresh cs) urls
    ∧ visitedURLs cs' = visitedURLs cs
    ∧ existingURLs cs' = existingURLs cs
    ∧ results cs' = results cs0
    ∧ (∀ u, In u (List.filter (fresh cs) urls) → depthMap cs' !! u = Some 1%Z)
    ∧ (∀ u, ¬ In u (List.filter (fresh cs) urls) →
            depthMap cs' !! u = depthMap cs0 !! u).
Proof.
  induction urls as [|url urls IH]; intros cs0 Hv He; cbv zeta.
  { simpl. rewrite app_nil_r. repeat split; auto. intros u []. }
  unfold DiscoverURLs. cbn [fold_left List.filter].
  fold (DiscoverURLs
          (if negb (IsVisited cs0 (NormalizeURL url))
              && negb (IsExisting cs0 (NormalizeURL url))
           then AddURL cs0 url 1 else cs0) urls).
  assert (Hsame : ∀ x, IsVisited cs0 x = IsVisited cs x
                       ∧ IsExisting cs0 x = IsExisting cs x).
  { intros x. unfold IsVisited, IsExisting. now rewrite Hv, He. }
  destruct (Hsame (NormalizeURL url)) as [-> ->].
  destruct (negb (IsVisited cs (NormalizeURL url))
            && negb (IsExisting cs (NormalizeURL url))) eqn:Hnorm;
    cbn [andb].
  2: { exact (IH cs0 Hv He). }
  destruct (IsVisited cs url) eqn:Hvis; cbn [negb andb].
  { rewrite AddURL_rejected by (left; now rewrite (proj1 (Hsame url))).
    exact (IH cs0 Hv He). }
  destruct (IsExisting cs url) eqn:Hex; cbn [negb andb].
  { rewrite AddURL_rejected by (right; now rewrite (proj2 (Hsame url))).
    exact (IH cs0 Hv He). }
  destruct (AddURL_accepted cs0 url 1) as [Hq Hd];
    [now rewrite (proj1 (Hsame url)) | now rewrite (proj2 (Hsame url)) |].
  destruct (IH (AddURL cs0 url 1)) as (Hq' & Hv' & He' & Hr' & Hin & Hout);
    [now rewrite AddURL_visited | now rewrite AddURL_existing |].
  rewrite Hq', Hq, <- app_assoc, Hr', AddURL_results.
  repeat split; auto.
  - intros u Hu.
    destruct (in_dec string_dec u (List.filter (fresh cs) urls)) as [Hu' | Hu'];
      [now apply Hin|].
    rewrite (Hout u Hu'), Hd. destruct Hu as [-> | Hu]; [|contradiction].
    apply lookup_insert_eq.
  - intros u Hu. rewrite Hout by (intros H; apply Hu; now right).
    rewrite Hd. apply lookup_insert_ne. intros ->. apply Hu. now left.
Qed.

(** [DiscoverURLs] queues, in the order of discovery and each at
    depth 1, the discovered URLs that are neither visited nor existing,
    as the string they are and under their normal form; a URL listed
    twice is queued twice.  Neither [IsValidURL] nor the skip patterns
    are consulted, and the visited set, the existing set and the
    results stay as they are. *)
Theorem DiscoverURLs_queue (cs : CrawlSession) (urls : list string) :
  let cs' := DiscoverURLs cs urls in
  urlQueue cs' = urlQueue cs ++ List.filter (fresh cs) urls
  ∧ visitedURLs cs' = visitedURLs cs
  ∧ existingURLs cs' = existingURLs cs
  ∧ results cs' = results cs
  ∧ (∀ u, In u (List.filter (fresh cs) urls) → depthMap cs' !! u = Some 1%Z)
  ∧ (∀ u, ¬ In u (List.filter (fresh cs) urls) →
          depthMap cs' !! u = depthMap cs !! u).
Proof. exact (DiscoverURLs_fold cs urls cs eq_refl eq_refl). Qed.

End Discovery.

(** *** The results and the capture calls *)

Section Accounting.
Import models utils services safety.

Lemma perm_middle {A} (X L h R : list A) :
  X ++ L ++ h ++ R ≡ₚ (X ++ h) ++ L ++ R.
Proof.
  rewrite <- (app_assoc X h). apply Permutation_app_head.
  rewrite !app_assoc. apply Permutation_app_tail, Permutation_app_comm.
Qed.

Lemma perm_swap_tail {A} (Y Z added : list A) :
  (Y ++ added) ++ Z ≡ₚ (Y ++ Z) ++ added.
Proof.
  rewrite <- !app_assoc. apply Permutation_app_head, Permutation_app_comm.
Qed.

Lemma sending_insert (ts : list Task) i t t' :
  ts !! i = Some t →
  ∃ L R, sending ts = L ++ pending t ++ R
         ∧ sending (<[i := t']> ts) = L ++ pending t' ++ R.
Proof.
  intros Hi. destruct (tasks_split ts i t t' Hi) as (l1 & l2 & Hts & ->).
  exists (sending l1), (sending l2). unfold sending.
  rewrite Hts at 1. rewrite !flat_map_app. split; reflexivity.
Qed.

Lemma sending_finished (ts : list Task) :
  forallb isFinished ts = true → sending ts = [].
Proof.
  induction ts as [|t ts IH]; [reflexivity|]. cbn [forallb]. intros H.
  apply andb_true_iff in H as [Ht Hts]. unfold sending. cbn [flat_map].
  fold (sending ts). rewrite (IH Hts). unfold isFinished in Ht.
  unfold pending. now destruct (pc t).
Qed.

Context {Browser : Type}.
Variable ToLower : string → string.
Variable CaptureScreenshot : Browser → string → ScreenshotResult * Browser.
Variable ExtractLinks : Browser → string → option (list string) * Browser.
Variable cfg : config.Config.

(** The renderer keeps a log of the results it returned: part of its
    state, to which [CaptureScreenshot] appends what it returns and
    which [ExtractLinks] leaves alone. *)
Variable returned : Browser → list ScreenshotResult.

Local Abbreviation logs :=
  ((∀ b url, returned (CaptureScreenshot b url).2
             = returned b ++ [(CaptureScreenshot b url).1])
   ∧ (∀ b url, returned (ExtractLinks b url).2 = returned b)).

Local Abbreviation seqIter :=
  (sequentialIteration ToLower CaptureScreenshot ExtractLinks cfg).
Local Abbreviation seqRun :=
  (runSequentialCrawl ToLower CaptureScreenshot ExtractLinks cfg).
Local Abbreviation step :=
  (parStep ToLower CaptureScreenshot ExtractLinks cfg).
Local Abbreviation run :=
  (parRun ToLower CaptureScreenshot ExtractLinks cfg).

(** One round of the sequential loop appends to the session what the
    renderer returned in that round. *)
Lemma sequentialIteration_accounts (a a' : App) :
  logs →
  seqIter a = Some a' →
  ∃ new, returned (browser a') = returned (browser a) ++ new
         ∧ results (session a') = results (session a) ++ new
         ∧ length (captures a') = (length (captures a) + length new)%nat.
Proof.
  intros [Hcap Hlinks]. unfold sequentialIteration. intros Hstep.
  pose proof (GetNextURL_spec (session a)) as Hnext.
  destruct (urlQueue (session a)) as [|url rest].
  { rewrite Hnext in Hstep. discriminate Hstep. }
  destruct Hnext as (cs & Hnext & _ & _ & _ & _ & Hr).
  rewrite Hnext in Hstep; simpl in Hstep. rewrite <- Hr.
  assert (Hsame : ∀ cs', results cs' = results cs →
                         ∃ new, returned (browser a) = returned (browser a) ++ new
                                ∧ results cs' = results cs ++ new
                                ∧ length (captures a)
                                  = (length (captures a) + length new)%nat).
  { intros cs' ->. exists []. rewrite !app_nil_r. simpl. auto. }
  destruct (_ >? _)%Z.
  { inversion Hstep; subst a'. now apply Hsame. }
  destruct (IsVisited cs (NormalizeURL url)).
  { inversion Hstep; subst a'. now apply Hsame. }
  destruct (IsExisting cs (NormalizeURL url)).
  { inversion Hstep; subst a'. now apply Hsame. }
  destruct (ShouldSkipURL ToLower url (config.SkipPatterns cfg)).
  { inversion Hstep; subst a'. now apply Hsame. }
  clear Hsame. specialize (Hcap (browser a) url).
  destruct (CaptureScreenshot (browser a) url) as [result b].
  cbn [fst snd] in Hcap.
  destruct (Success result && _).
  - specialize (Hlinks b url).
    destruct (ExtractLinks b url) as [[links|] b']; cbn [snd] in Hlinks;
      inversion Hstep; subst a'; exists [result]; cbn [browser session captures].
    + destruct (addNewLinksToQueue_sets ToLower cfg links
                  (AddResult (MarkVisited cs (NormalizeURL url)) result)
                  (readInt (depthMap (session a)) url + 1)) as (_ & _ & ->).
      rewrite Hlinks, Hcap, length_app. repeat split.
    + rewrite Hlinks, Hcap, length_app. repeat split.
  - inversion Hstep; subst a'. exists [result].
    cbn [browser session captures]. rewrite Hcap, length_app. repeat split.
Qed.

Lemma runSequentialCrawl_accounts fuel : ∀ (a : App),
  logs →
  ∃ new, returned (browser (seqRun fuel a).1) = returned (browser a) ++ new
         ∧ results (session (seqRun fuel a).1) = results (session a) ++ new
         ∧ length (captures (seqRun fuel a).1)
           = (length (captures a) + length new)%nat.
Proof.
  induction fuel as [|fuel IH]; intros a Hlogs; simpl.
  { exists []. rewrite !app_nil_r. simpl. auto. }
  destruct (seqIter a) as [a'|] eqn:Hstep.
  - destruct (sequentialIteration_accounts a a' Hlogs Hstep)
      as (new1 & Hb1 & Hr1 & Hc1).
    destruct (IH a' Hlogs) as (new2 & Hb2 & Hr2 & Hc2).
    exists (new1 ++ new2).
    rewrite Hb2, Hr2, Hc2, Hb1, Hr1, Hc1, !length_app, <- !app_assoc.
    repeat split. lia.
  - exists []. rewrite !app_nil_r. simpl. auto.
Qed.

(** Invariant of the parallel loop: the results in the session, in the
    channel and held by the workers at the send are, up to their
    order, the results at entry and what the renderer has returned
    since; and once the function has returned every task has. *)
Local Abbreviation Acc r0 b0 p :=
  (∃ new, returned (pbrowser p) = returned b0 ++ new
          ∧ (results (psession p) ++ resultsChan p) ++ sending (tasks p)
            ≡ₚ r0 ++ new
          ∧ length new = length (pcaptures p)
          ∧ (dispatcher p = Returned → forallb isFinished (tasks p) = true)).

Lemma worker_accounts r0 b0 (p : @Par Browser) i t pc' cs' b' log' chan'
  added :
  Acc r0 b0 p →
  tasks p !! i = Some t →
  isFinished t = false →
  returned b' = returned (pbrowser p) ++ added →
  (results cs' ++ chan') ++ pending (mkTask (pageURL t) (pageDepth t) pc')
  ≡ₚ ((results (psession p) ++ resultsChan p) ++ pending t) ++ added →
  length log' = (length (pcaptures p) + length added)%nat →
  Acc r0 b0 (mkPar cs' b' log'
               (<[i := mkTask (pageURL t) (pageDepth t) pc']> (tasks p))
               chan' (dispatcher p)).
Proof.
  intros (new & Hb & Hperm & Hlen & Hret) Hi Hrunning Hb' Hlocal Hlog.
  exists (new ++ added). cbn [pbrowser psession resultsChan tasks pcaptures
                              dispatcher].
  split; [now rewrite Hb', Hb, app_assoc|].
  split; [|split].
  - destruct (sending_insert (tasks p) i t
                (mkTask (pageURL t) (pageDepth t) pc') Hi)
      as (L & R & Hs & ->).
    rewrite Hs in Hperm.
    rewrite perm_middle, Hlocal, perm_swap_tail, <- perm_middle, Hperm.
    now rewrite app_assoc.
  - rewrite length_app, Hlen, Hlog. reflexivity.
  - intros Hd. specialize (Hret Hd).
    rewrite forallb_forall in Hret.
    assert (isFinished t = true) as Hfin.
    { apply Hret. apply list_elem_of_In. now apply list_elem_of_lookup_2 in Hi. }
    congruence.
Qed.

Lemma workerStep_accounts r0 b0 i (p p' : @Par Browser) :
  logs →
  workerStep ToLower CaptureScreenshot ExtractLinks cfg i p = Some p' →
  Acc r0 b0 p → Acc r0 b0 p'.
Proof.
  intros [Hcap Hlinks]. unfold workerStep. intros Hstep Hinv.
  destruct (tasks p !! i) as [t|] eqn:Hi; [|discriminate Hstep].
  simpl in Hstep.
  assert (Hquiet : ∀ cs' b' pc',
            results cs' = results (psession p) →
            returned b' = returned (pbrowser p) →
            isFinished t = false →
            pending (mkTask (pageURL t) (pageDepth t) pc') = pending t →
            Acc r0 b0 (mkPar cs' b' (pcaptures p)
                         (<[i := mkTask (pageURL t) (pageDepth t) pc']>
                            (tasks p))
                         (resultsChan p) (dispatcher p))).
  { intros cs' b' pc' Hr Hb Hrun Hp.
    apply (worker_accounts r0 b0 p i t pc' cs' b' (pcaptures p)
             (resultsChan p) []);
      [exact Hinv | exact Hi | exact Hrun | now rewrite app_nil_r
      | now rewrite Hr, Hp, app_nil_r | simpl; lia]. }
  assert (Hp : ∀ pc', (∀ r, pc' ≠ Sending r) → (∀ r, pc t ≠ Sending r) →
               pending (mkTask (pageURL t) (pageDepth t) pc') = pending t).
  { intros pc' Hno Hno'. unfold pending. cbn [pc].
    destruct pc' as [| |r| | |]; [| |now destruct (Hno r)| | |];
      (destruct (pc t) as [| |r| | |]; [| |now destruct (Hno' r)| | |]);
      reflexivity. }
  assert (Hrun : pc t ≠ Finished → isFinished t = false).
  { unfold isFinished. now destruct (pc t). }
  destruct (pc t) as [| |result|result|[|link links]|] eqn:Hpc.
  - destruct (_ <? _)%Z; [|discriminate Hstep].
    inversion Hstep; subst p'.
    apply Hquiet; [reflexivity | reflexivity | now apply Hrun
                  | apply Hp; discriminate].
  - specialize (Hcap (pbrowser p) (pageURL t)).
    destruct (CaptureScreenshot (pbrowser p) (pageURL t)) as [result b].
    cbn [fst snd] in Hcap. inversion Hstep; subst p'.
    apply (worker_accounts r0 b0 p i t (Sending result) (psession p) b
             (pcaptures p ++ [(pageURL t, pageDepth t)]) (resultsChan p)
             [result]);
      [exact Hinv | exact Hi | now apply Hrun
      | exact Hcap | | now rewrite length_app].
    unfold pending. cbn [pc]. rewrite Hpc. now rewrite app_nil_r.
  - destruct (_ <? _)%nat; [|discriminate Hstep].
    inversion Hstep; subst p'.
    apply (worker_accounts r0 b0 p i t (Extracting result) (psession p)
             (pbrowser p) (pcaptures p) (resultsChan p ++ [result]) []);
      [exact Hinv | exact Hi | now apply Hrun
      | now rewrite app_nil_r | | simpl; lia].
    unfold pending. cbn [pc]. rewrite Hpc.
    now rewrite !app_nil_r, !app_assoc.
  - destruct (Success result && _).
    + specialize (Hlinks (pbrowser p) (pageURL t)).
      destruct (ExtractLinks (pbrowser p) (pageURL t)) as [[links|] b];
        cbn [snd] in Hlinks; inversion Hstep; subst p';
        (apply Hquiet; [reflexivity | exact Hlinks | now apply Hrun
                       | apply Hp; discriminate]).
    + inversion Hstep; subst p'.
      apply Hquiet; [reflexivity | reflexivity | now apply Hrun
                    | apply Hp; discriminate].
  - inversion Hstep; subst p'.
    apply Hquiet; [reflexivity | reflexivity | now apply Hrun
                  | apply Hp; discriminate].
  - inversion Hstep; subst p'.
    apply Hquiet; [| reflexivity | now apply Hrun | apply Hp; discriminate].
    now destruct (addLink_sets ToLower cfg (psession p) link
                    (pageDepth t + 1)) as (_ & _ & ->).
  - discriminate Hstep.
Qed.

Lemma collectorStep_accounts r0 b0 (p p' : @Par Browser) :
  collectorStep p = Some p' → Acc r0 b0 p → Acc r0 b0 p'.
Proof.
  unfold collectorStep. destruct (resultsChan p) as [|r chan] eqn:Hc;
    [discriminate|].
  intros Hstep (new & Hb & Hperm & Hlen & Hret). inversion Hstep; subst p'.
  exists new. cbn [pbrowser psession resultsChan tasks pcaptures dispatcher].
  split; [exact Hb|]. split; [|split; [exact Hlen | exact Hret]].
  rewrite <- Hperm. unfold AddResult. cbn [results].
  now rewrite <- !app_assoc.
Qed.

Lemma dispatcherStep_accounts r0 b0 (p p' : @Par Browser) :
  dispatcherStep ToLower cfg p = Some p' → Acc r0 b0 p → Acc r0 b0 p'.
Proof.
  unfold dispatcherStep. intros Hstep (new & Hb & Hperm & Hlen & Hret).
  destruct (dispatcher p) eqn:Hd.
  - pose proof (GetNextURL_spec (psession p)) as Hnext.
    destruct (urlQueue (psession p)) as [|url rest].
    { rewrite Hnext in Hstep; simpl in Hstep. inversion Hstep; subst p'.
      exists new. cbn [pbrowser psession resultsChan tasks pcaptures
                       dispatcher].
      repeat split; auto. discriminate. }
    destruct Hnext as (cs & Hnext & _ & _ & _ & _ & Hr).
    rewrite Hnext in Hstep; simpl in Hstep. rewrite <- Hr in Hperm.
    assert (Hadd : sending (tasks p ++ [mkTask url
                     (readInt (depthMap (psession p)) url) AwaitSlot])
                   = sending (tasks p)).
    { unfold sending. rewrite flat_map_app. simpl. now rewrite app_nil_r. }
    repeat match type of Hstep with
           | context [if ?b then _ else _] => destruct b
           end; inversion Hstep; subst p'; exists new;
      cbn [pbrowser psession resultsChan tasks pcaptures dispatcher
           MarkVisited results];
      rewrite ?Hadd; repeat split; auto; discriminate.
  - destruct (forallb isFinished (tasks p)) eqn:Hall; [|discriminate Hstep].
    inversion Hstep; subst p'. exists new.
    cbn [pbrowser psession resultsChan tasks pcaptures dispatcher].
    repeat split; auto.
  - discriminate Hstep.
Qed.

Lemma parRun_accounts r0 b0 schedule : ∀ (p p' : @Par Browser),
  logs →
  run schedule p = Some p' → Acc r0 b0 p → Acc r0 b0 p'.
Proof.
  induction schedule as [|who schedule IH]; intros p p' Hlogs Hrun Hinv;
    simpl in Hrun.
  { now inversion Hrun; subst. }
  destruct (step who p) as [q|] eqn:Hstep; [|discriminate Hrun].
  simpl in Hrun. apply (IH q p' Hlogs Hrun).
  destruct who; simpl in Hstep.
  - exact (dispatcherStep_accounts r0 b0 p q Hstep Hinv).
  - exact (workerStep_accounts r0 b0 i p q Hlogs Hstep Hinv).
  - exact (collectorStep_accounts r0 b0 p q Hstep Hinv).
Qed.


End Accounting.

